(** * IPR service: embedding of the watermarking library and its properties

    The development follows the two library modules of the service,
    [ipr_service/lib/raster_ipr.py] and [ipr_service/lib/vector_ipr.py].
    Python values are modelled as they are computed: integers as [Z],
    indexable arrays as lists with the interpreter's index rules written
    out, exceptions as a result type. *)

From Stdlib Require Import ZArith Lia Bool Strings.Byte String Ascii.
From Stdlib Require Import Floats Uint63.
From stdpp Require Import base list numbers sorting.
From Equations Require Import Equations.

Local Open Scope Z_scope.

(** ** Python exceptions and the result monad

    [Unfinished] is not an exception of Python: it is the outcome of a
    loop of the random number library that was cut before it ended. *)

Inductive exn : Type :=
| IndexError
| KeyError
| ValueError
| TypeError
| NameError
| AttributeError
| AssertionError
| NotImplementedError
| InitializeException
| OverflowError
| ZeroDivisionError
| Unfinished.

Inductive result (A : Type) : Type :=
| Ok (a : A)
| Raise (e : exn).
Arguments Ok {A} a.
Arguments Raise {A} e.

#[global] Instance result_ret : MRet result := fun A a => Ok a.
#[global] Instance result_bind : MBind result :=
  fun A B f m => match m with Ok a => f a | Raise e => Raise e end.
#[global] Instance result_fmap : FMap result :=
  fun A B f m => match m with Ok a => Ok (f a) | Raise e => Raise e end.

Definition is_Ok {A} (r : result A) : bool :=
  match r with Ok _ => true | Raise _ => false end.

(** [for x in xs: body] over a state that the body may update or abort. *)
Fixpoint for_ {A S : Type} (xs : list A) (body : A -> S -> result S) (s : S)
  : result S :=
  match xs with
  | [] => Ok s
  | x :: xs' => s' ← body x s; for_ xs' body s'
  end.

(** [range(a, b)] *)
Definition range (a b : Z) : list Z := seqZ a (b - a).

(** Index normalisation of a Python sequence of length [len]: negative
    indices count from the end, anything else out of range raises. *)
Definition py_index (len i : Z) : result nat :=
  if (0 <=? i) && (i <? len) then Ok (Z.to_nat i)
  else if (- len <=? i) && (i <? 0) then Ok (Z.to_nat (i + len))
  else Raise IndexError.

Definition getitem {A} (l : list A) (i : Z) : result A :=
  n ← py_index (Z.of_nat (length l)) i;
  match l !! n with Some a => Ok a | None => Raise IndexError end.

Definition setitem {A} (l : list A) (i : Z) (a : A) : result (list A) :=
  n ← py_index (Z.of_nat (length l)) i;
  Ok (<[n := a]> l).

(** [a[i][j]] and [a[i][j] = v] on a two-dimensional array. *)
Definition getitem2 {A} (m : list (list A)) (i j : Z) : result A :=
  row ← getitem m i; getitem row j.

Definition setitem2 {A} (m : list (list A)) (i j : Z) (a : A)
  : result (list (list A)) :=
  row ← getitem m i;
  row' ← setitem row j a;
  setitem m i row'.

(** ** Python text of numbers *)

Module PyStr.

Definition digit_char (d : Z) : ascii := ascii_of_nat (48 + Z.to_nat d).

Fixpoint digits_rev (fuel : nat) (n : Z) : list ascii :=
  match fuel with
  | O => []
  | S fuel' =>
      if n <? 10 then [digit_char n]
      else digit_char (n mod 10) :: digits_rev fuel' (n / 10)
  end.

(** [str(n)] for an integer. *)
Definition str_int (n : Z) : string :=
  let ds := string_of_list_ascii
              (rev (digits_rev (S (Z.to_nat (Z.log2 (Z.abs n)))) (Z.abs n))) in
  if n <? 0 then String "-" ds else ds.

Definition is_digit (c : ascii) : bool :=
  let n := nat_of_ascii c in (48 <=? n)%nat && (n <=? 57)%nat.

Definition digit_val (c : ascii) : Z := Z.of_nat (nat_of_ascii c) - 48.

Fixpoint all_digits (s : string) : bool :=
  match s with
  | EmptyString => true
  | String c s' => is_digit c && all_digits s'
  end.

Fixpoint digits_val (acc : Z) (s : string) : Z :=
  match s with
  | EmptyString => acc
  | String c s' => digits_val (acc * 10 + digit_val c) s'
  end.

(** [int(s)] for a sign and decimal digits; any other text is refused. *)
Definition int_of_str (s : string) : result Z :=
  let '(neg, body) :=
    match s with
    | String "-" s' => (true, s')
    | String "+" s' => (false, s')
    | _ => (false, s)
    end in
  if (0 <? String.length body)%nat && all_digits body
  then Ok (if neg then - digits_val 0 body else digits_val 0 body)
  else Raise ValueError.

End PyStr.

(** ** Python floats and their text

    Floats are the kernel's binary64 numbers.  The conversions between
    floats and decimal text are computed on exact integers. *)

Module PyFloat.

(** The binary64 number nearest to [p / q] (ties to even), signed. *)
Definition of_ratio (neg : bool) (p q : Z) : float :=
  if p <=? 0 then (if neg then (-0)%float else 0%float)
  else
    let s := 64 + Z.log2 q - Z.log2 p in
    let num := p * 2 ^ Z.max s 0 in
    let den := q * 2 ^ Z.max (- s) 0 in
    let r := num mod den in
    let loc := if r =? 0 then loc_Exact else loc_Inexact (2 * r ?= den) in
    SF2Prim (binary_round_aux prec emax neg (num / den) (- s) loc).

(** [float(n)] for an integer. *)
Definition of_Z (n : Z) : float := of_ratio (n <? 0) (Z.abs n) 1.

(** Compares [c * 10^k] with [n * 2^t]. *)
Definition cmp_dec_bin (c k n t : Z) : comparison :=
  (c * 10 ^ Z.max k 0 * 2 ^ Z.max (- t) 0 ?= n * 2 ^ Z.max t 0 * 10 ^ Z.max (- k) 0).

Fixpoint strip_zeros (fuel : nat) (d k : Z) : Z * Z :=
  match fuel with
  | O => (d, k)
  | S fuel' => if (d mod 10 =? 0) && (0 <? d) then strip_zeros fuel' (d / 10) (k + 1) else (d, k)
  end.

(** The shortest decimal [d * 10^k] that reads back as [m * 2^e], the
    nearest one when several have that length. *)
Fixpoint shortest (ns : list Z) (m e E : Z) : Z * Z :=
  match ns with
  | [] => (0, 0)
  | n :: ns' =>
      let k := E - n + 1 in
      let v := 4 * m in
      let t := e - 2 in
      let lo := v - (if (m =? 2 ^ 52) && (-1074 <? e) then 1 else 2) in
      let hi := v + 2 in
      let c := (v * 2 ^ Z.max t 0 * 10 ^ Z.max (- k) 0)
               / (2 ^ Z.max (- t) 0 * 10 ^ Z.max k 0) in
      let inside d :=
        match cmp_dec_bin d k lo t, cmp_dec_bin d k hi t with
        | Gt, Lt => true
        | Eq, Lt | Gt, Eq => Z.even m
        | _, _ => false
        end in
      let pick :=
        match inside c, inside (c + 1) with
        | true, false => Some c
        | false, true => Some (c + 1)
        | true, true =>
            match cmp_dec_bin (2 * c + 1) k (2 * v) t with
            | Gt => Some c
            | Lt => Some (c + 1)
            | Eq => Some (if Z.even c then c else c + 1)
            end
        | false, false => None
        end in
      match pick with
      | Some d => strip_zeros 20 d k
      | None => shortest ns' m e E
      end
  end.

Definition ndigits (d : Z) : Z := Z.of_nat (String.length (PyStr.str_int d)).

(** Digits and decimal point position of a positive finite float:
    the value is [0.DIGITS * 10^decpt]. *)
Definition digits (m e : Z) : Z * Z :=
  let E0 := ((Z.log2 m + e) * 30103) / 100000 in
  let le_v E := match cmp_dec_bin 1 E m e with Gt => false | _ => true end in
  let E := if le_v (E0 + 1) then E0 + 1 else if le_v E0 then E0 else E0 - 1 in
  let '(d, k) := shortest (seqZ 1 17) m e E in
  (d, ndigits d + k).

Definition zeros (n : Z) : string := string_of_list_ascii (replicate (Z.to_nat n) "0"%char).

(** The text of [repr] from digits and point position. *)
Definition format_repr (d decpt : Z) : string :=
  let ds := PyStr.str_int d in
  let n := ndigits d in
  if (decpt <=? -4) || (16 <? decpt) then
    let ex := decpt - 1 in
    let mant := match ds with
                | String c EmptyString => ds
                | String c rest => String c (String "." rest)
                | EmptyString => ds
                end in
    let exs := PyStr.str_int (Z.abs ex) in
    mant ++ "e" ++ (if ex <? 0 then "-" else "+")
         ++ (if Z.abs ex <? 10 then "0" else "") ++ exs
  else if decpt <=? 0 then "0." ++ zeros (- decpt) ++ ds
  else if decpt <? n then
    substring 0 (Z.to_nat decpt) ds ++ "." ++ substring (Z.to_nat decpt) (Z.to_nat (n - decpt)) ds
  else ds ++ zeros (decpt - n) ++ ".0".

(** [str(x)] and [repr(x)] of a float. *)
Definition repr (x : float) : string :=
  match Prim2SF x with
  | S754_zero s => if s then "-0.0" else "0.0"
  | S754_infinity s => if s then "-inf" else "inf"
  | S754_nan => "nan"
  | S754_finite s m e =>
      let '(d, decpt) := digits (Zpos m) e in
      (if s then "-" else "") ++ format_repr d decpt
  end.

(** A decimal literal: sign, digits with an optional point, optional
    exponent.  The result is the sign, the digits as one integer, and
    the power of ten they are scaled by. *)
Definition split_at (c : ascii) (s : string) : string * option string :=
  match index 0 (String c EmptyString) s with
  | Some i => (substring 0 i s, Some (substring (S i) (String.length s - S i) s))
  | None => (s, None)
  end.

Definition parse_decimal (s : string) : option (bool * Z * Z) :=
  let '(neg, body) :=
    match s with
    | String "-" s' => (true, s')
    | String "+" s' => (false, s')
    | _ => (false, s)
    end in
  let '(mant, ex) :=
    match split_at "e" body with
    | (mant, Some ex) => (mant, Some ex)
    | (_, None) => split_at "E" body
    end in
  let '(ip, fp) := match split_at "." mant with
                   | (ip, Some fp) => (ip, fp)
                   | (ip, None) => (ip, EmptyString)
                   end in
  let exv := match ex with
             | None => Ok 0
             | Some e => PyStr.int_of_str e
             end in
  match exv with
  | Raise _ => None
  | Ok exv =>
      if PyStr.all_digits ip && PyStr.all_digits fp
         && (0 <? String.length ip + String.length fp)%nat
      then Some (neg, PyStr.digits_val 0 (ip ++ fp), exv - Z.of_nat (String.length fp))
      else None
  end.

(** [float(s)] for a decimal literal. *)
Definition of_str (s : string) : result float :=
  match parse_decimal s with
  | Some (neg, d, k) => Ok (of_ratio neg (d * 10 ^ Z.max k 0) (10 ^ Z.max (- k) 0))
  | None => Raise ValueError
  end.

(** [Decimal(str(x)).as_tuple().exponent]; for an infinity or a NaN the
    exponent is a letter, which the caller cannot order or negate. *)
Definition decimal_exponent (x : float) : result Z :=
  match parse_decimal (repr x) with
  | Some (_, _, k) => Ok k
  | None => Raise TypeError
  end.

(** [numpy.rint]: the nearest integer, ties to even, as a float. *)
Definition rint (x : float) : float :=
  let big := 4503599627370496%float in
  if PrimFloat.ltb (PrimFloat.abs x) big then
    if PrimFloat.ltb x 0 then (- ((- x + big) - big))%float
    else if PrimFloat.eqb x 0 then x
    else ((x + big) - big)%float
  else x.

(** The integer value of a float that holds an integer. *)
Definition to_Z (x : float) : Z :=
  match Prim2SF x with
  | S754_finite s m e =>
      let v := if 0 <=? e then Zpos m * 2 ^ e else Zpos m / 2 ^ (- e) in
      if s then - v else v
  | _ => 0
  end.

End PyFloat.

(** ** hashlib.sha512

    The digest of the standard library, on bytes.  Words are integers
    below [2^64]; every addition is reduced again. *)

Module SHA512.

Definition w64 (x : Z) : Z := x mod 2 ^ 64.

Definition rotr (x n : Z) : Z :=
  Z.lor (Z.shiftr x n) (w64 (Z.shiftl x (64 - n))).

Definition K : list Z :=
  [
   0x428a2f98d728ae22; 0x7137449123ef65cd; 0xb5c0fbcfec4d3b2f; 0xe9b5dba58189dbbc;
   0x3956c25bf348b538; 0x59f111f1b605d019; 0x923f82a4af194f9b; 0xab1c5ed5da6d8118;
   0xd807aa98a3030242; 0x12835b0145706fbe; 0x243185be4ee4b28c; 0x550c7dc3d5ffb4e2;
   0x72be5d74f27b896f; 0x80deb1fe3b1696b1; 0x9bdc06a725c71235; 0xc19bf174cf692694;
   0xe49b69c19ef14ad2; 0xefbe4786384f25e3; 0xfc19dc68b8cd5b5; 0x240ca1cc77ac9c65;
   0x2de92c6f592b0275; 0x4a7484aa6ea6e483; 0x5cb0a9dcbd41fbd4; 0x76f988da831153b5;
   0x983e5152ee66dfab; 0xa831c66d2db43210; 0xb00327c898fb213f; 0xbf597fc7beef0ee4;
   0xc6e00bf33da88fc2; 0xd5a79147930aa725; 0x6ca6351e003826f; 0x142929670a0e6e70;
   0x27b70a8546d22ffc; 0x2e1b21385c26c926; 0x4d2c6dfc5ac42aed; 0x53380d139d95b3df;
   0x650a73548baf63de; 0x766a0abb3c77b2a8; 0x81c2c92e47edaee6; 0x92722c851482353b;
   0xa2bfe8a14cf10364; 0xa81a664bbc423001; 0xc24b8b70d0f89791; 0xc76c51a30654be30;
   0xd192e819d6ef5218; 0xd69906245565a910; 0xf40e35855771202a; 0x106aa07032bbd1b8;
   0x19a4c116b8d2d0c8; 0x1e376c085141ab53; 0x2748774cdf8eeb99; 0x34b0bcb5e19b48a8;
   0x391c0cb3c5c95a63; 0x4ed8aa4ae3418acb; 0x5b9cca4f7763e373; 0x682e6ff3d6b2b8a3;
   0x748f82ee5defb2fc; 0x78a5636f43172f60; 0x84c87814a1f0ab72; 0x8cc702081a6439ec;
   0x90befffa23631e28; 0xa4506cebde82bde9; 0xbef9a3f7b2c67915; 0xc67178f2e372532b;
   0xca273eceea26619c; 0xd186b8c721c0c207; 0xeada7dd6cde0eb1e; 0xf57d4f7fee6ed178;
   0x6f067aa72176fba; 0xa637dc5a2c898a6; 0x113f9804bef90dae; 0x1b710b35131c471b;
   0x28db77f523047d84; 0x32caab7b40c72493; 0x3c9ebe0a15c9bebc; 0x431d67c49c100d4c;
   0x4cc5d4becb3e42b6; 0x597f299cfc657e2a; 0x5fcb6fab3ad6faec; 0x6c44198c4a475817 ].

Definition H0 : list Z :=
  [
   0x6a09e667f3bcc908; 0xbb67ae8584caa73b; 0x3c6ef372fe94f82b; 0xa54ff53a5f1d36f1;
   0x510e527fade682d1; 0x9b05688c2b3e6c1f; 0x1f83d9abfb41bd6b; 0x5be0cd19137e2179 ].

Definition byte_val (b : byte) : Z := Z.of_N (Byte.to_N b).

(** Big-endian integer of a byte string. *)
Definition be_int (bs : list byte) : Z :=
  foldl (fun acc b => acc * 256 + byte_val b) 0 bs.

(** [n] bytes, big-endian, of [x]. *)
Fixpoint be_bytes (n : nat) (x : Z) : list byte :=
  match n with
  | O => []
  | S n' => be_bytes n' (x / 256) ++
            [default Byte.x00 (Byte.of_N (Z.to_N (x mod 256)))]
  end.

Definition pad (msg : list byte) : list byte :=
  let len := Z.of_nat (length msg) in
  msg ++ [Byte.x80] ++ replicate (Z.to_nat ((111 - len) mod 128)) Byte.x00
      ++ be_bytes 16 (8 * len).

Fixpoint chunks {A} (fuel size : nat) (l : list A) : list (list A) :=
  match fuel, l with
  | O, _ | _, [] => []
  | S fuel', _ => take size l :: chunks fuel' size (drop size l)
  end.

Definition ssig0 (x : Z) : Z := Z.lxor (Z.lxor (rotr x 1) (rotr x 8)) (Z.shiftr x 7).
Definition ssig1 (x : Z) : Z := Z.lxor (Z.lxor (rotr x 19) (rotr x 61)) (Z.shiftr x 6).
Definition bsig0 (x : Z) : Z := Z.lxor (Z.lxor (rotr x 28) (rotr x 34)) (rotr x 39).
Definition bsig1 (x : Z) : Z := Z.lxor (Z.lxor (rotr x 14) (rotr x 18)) (rotr x 41).
Definition ch (e f g : Z) : Z := Z.lxor (Z.land e f) (Z.land (Z.lxor e (Z.ones 64)) g).
Definition maj (a b c : Z) : Z :=
  Z.lxor (Z.lxor (Z.land a b) (Z.land a c)) (Z.land b c).

(** The message schedule: sixteen block words extended to eighty. *)
Fixpoint schedule (n : nat) (w : list Z) : list Z :=
  match n with
  | O => w
  | S n' =>
      let i := length w in
      let at_ k := nth (i - k) w 0 in
      schedule n' (w ++ [w64 (at_ 16%nat + ssig0 (at_ 15%nat) + at_ 7%nat + ssig1 (at_ 2%nat))])
  end.

Definition round (s : list Z) (kw : Z * Z) : list Z :=
  match s with
  | [a; b; c; d; e; f; g; h] =>
      let t1 := w64 (h + bsig1 e + ch e f g + kw.1 + kw.2) in
      let t2 := w64 (bsig0 a + maj a b c) in
      [w64 (t1 + t2); a; b; c; w64 (d + t1); e; f; g]
  | _ => s
  end.

Definition compress (h : list Z) (block : list byte) : list Z :=
  let w := schedule 64 (be_int <$> chunks 16 8 block) in
  let s := foldl round h (zip K w) in
  zip_with (fun x y => w64 (x + y)) h s.

Definition digest (msg : list byte) : list Z :=
  let padded := pad msg in
  foldl compress H0 (chunks (length padded) 128 padded).

(** [int(m.hexdigest(), 16)]: the digest read as one big-endian number. *)
Definition digest_int (msg : list byte) : Z :=
  foldl (fun acc w => acc * 2 ^ 64 + w) 0 (digest msg).

End SHA512.

(** ** numpy.random

    The generator behind [np.random.RandomState]: MT19937 with the
    library's legacy integer seeding and its [SeedSequence] seeding, and
    the two draws the service asks for, [randint] and [random_sample]. *)

Module MT19937.

Definition u32 (x : Z) : Z := x mod 2 ^ 32.
Definition u64 (x : Z) : Z := x mod 2 ^ 64.

Record state : Type := { key : list Z; pos : Z }.

(** [mt19937_seed]: the key filled from one 32-bit seed. *)
Fixpoint seed_keys (n : nat) (pos seed : Z) : list Z :=
  match n with
  | O => []
  | S n' =>
      seed :: seed_keys n' (pos + 1)
                (u32 (1812433253 * Z.lxor seed (Z.shiftr seed 30) + pos + 1))
  end.

Definition mt19937_seed (seed : Z) : state :=
  {| key := seed_keys 624 0 (u32 seed); pos := 624 |}.

(** [mt19937_gen]: the key is regenerated in place, word by word. *)
Definition gen_word (k : list Z) (i : nat) : list Z :=
  let y := Z.lor (Z.land (nth i k 0) 0x80000000)
                 (Z.land (nth ((i + 1) mod 624) k 0) 0x7fffffff) in
  let mag := if Z.odd y then 0x9908b0df else 0 in
  <[i := Z.lxor (Z.lxor (nth ((i + 397) mod 624) k 0) (Z.shiftr y 1)) mag]> k.

Definition mt19937_gen (st : state) : state :=
  {| key := foldl gen_word (key st) (seq 0 624); pos := 0 |}.

Definition temper (y : Z) : Z :=
  let y := Z.lxor y (Z.shiftr y 11) in
  let y := Z.lxor y (Z.land (Z.shiftl y 7) 0x9d2c5680) in
  let y := Z.lxor y (Z.land (Z.shiftl y 15) 0xefc60000) in
  Z.lxor y (Z.shiftr y 18).

(** [mt19937_next]: one 32-bit output. *)
Definition next_uint32 (st : state) : Z * state :=
  let st := if pos st =? 624 then mt19937_gen st else st in
  (temper (nth (Z.to_nat (pos st)) (key st) 0),
   {| key := key st; pos := pos st + 1 |}).

(** [mt19937_next64]: two outputs, the first one in the high half. *)
Definition next_uint64 (st : state) : Z * state :=
  let '(hi, st) := next_uint32 st in
  let '(lo, st) := next_uint32 st in
  (Z.lor (Z.shiftl hi 32) lo, st).

(** [mt19937_next_double]: 53 random bits scaled into [[0, 1)]. *)
Definition next_double (st : state) : float * state :=
  let '(a, st) := next_uint32 st in
  let '(b, st) := next_uint32 st in
  let a := Z.shiftr a 5 in
  let b := Z.shiftr b 6 in
  (PrimFloat.div (PrimFloat.of_uint63 (Uint63.of_Z (a * 67108864 + b)))
                 9007199254740992%float, st).

End MT19937.

(** [SeedSequence(entropy)] and the state it gives to [MT19937]. *)
Module SeedSequence.
Import MT19937.

Definition INIT_A : Z := 0x43b0d7e5.
Definition MULT_A : Z := 0x931e8875.
Definition INIT_B : Z := 0x8b51f9dd.
Definition MULT_B : Z := 0x58f38ded.
Definition MIX_MULT_L : Z := 0xca01f9dd.
Definition MIX_MULT_R : Z := 0x4973f715.
Definition XSHIFT : Z := 16.
Definition POOL_SIZE : nat := 4.

(** [_int_to_uint32_array]: little-endian 32-bit words, [[0]] for zero. *)
Fixpoint uint32_words (fuel : nat) (n : Z) : list Z :=
  match fuel with
  | O => []
  | S fuel' => if n >? 0 then n mod 2 ^ 32 :: uint32_words fuel' (n / 2 ^ 32) else []
  end.

Definition int_to_uint32_array (n : Z) : list Z :=
  if n =? 0 then [0] else uint32_words (S (Z.to_nat (Z.log2 n))) n.

Definition hashmix (value hash_const : Z) : Z * Z :=
  let value := Z.lxor value hash_const in
  let hash_const := u32 (hash_const * MULT_A) in
  let value := u32 (value * hash_const) in
  (Z.lxor value (Z.shiftr value XSHIFT), hash_const).

Definition mix (x y : Z) : Z :=
  let r := u32 (MIX_MULT_L * x - MIX_MULT_R * y) in
  Z.lxor r (Z.shiftr r XSHIFT).

Definition mix_into (i_dst : nat) (v : Z) (st : list Z * Z) : list Z * Z :=
  let '(mixer, hc) := st in
  let '(h, hc) := hashmix v hc in
  (<[i_dst := mix (nth i_dst mixer 0) h]> mixer, hc).

Definition mix_entropy (entropy : list Z) : list Z :=
  let st :=
    foldl (fun st i =>
             let '(h, hc) := hashmix (nth i entropy 0) st.2 in
             (<[i := h]> st.1, hc))
          (replicate POOL_SIZE 0, INIT_A) (seq 0 POOL_SIZE) in
  let st :=
    foldl (fun st i_src =>
             foldl (fun st i_dst =>
                      if Nat.eqb i_src i_dst then st
                      else mix_into i_dst (nth i_src st.1 0) st)
                   st (seq 0 POOL_SIZE))
          st (seq 0 POOL_SIZE) in
  let st :=
    foldl (fun st i_src =>
             foldl (fun st i_dst => mix_into i_dst (nth i_src entropy 0) st)
                   st (seq 0 POOL_SIZE))
          st (seq POOL_SIZE (length entropy - POOL_SIZE)) in
  st.1.

Definition pool (entropy : Z) : list Z := mix_entropy (int_to_uint32_array entropy).

Fixpoint generate_words (n i : nat) (pool : list Z) (hash_const : Z) : list Z :=
  match n with
  | O => []
  | S n' =>
      let data_val := Z.lxor (nth (i mod POOL_SIZE) pool 0) hash_const in
      let hash_const := u32 (hash_const * MULT_B) in
      let data_val := u32 (data_val * hash_const) in
      Z.lxor data_val (Z.shiftr data_val XSHIFT)
        :: generate_words n' (S i) pool hash_const
  end.

Definition generate_state (entropy : Z) (n_words : nat) : list Z :=
  generate_words n_words 0 (pool entropy) INIT_B.

(** [MT19937(SeedSequence(entropy))] *)
Definition mt19937 (entropy : Z) : state :=
  {| key := 0x80000000 :: drop 1 (generate_state entropy 624); pos := 623 |}.

End SeedSequence.

(** [np.random.RandomState]: construction and bounded draws. *)
Module RandomState.
Import MT19937.

(** The rejection loops below run until a draw is accepted.  They are
    cut after [retry_limit] draws, with the outcome [Unfinished]. *)
Definition retry_limit : positive := (2 ^ 64)%positive.

Fixpoint retry {A} (fuel : positive) (draw : state -> option A * state) (st : state)
  : option A * state :=
  match fuel with
  | xH => draw st
  | xO f =>
      match retry f draw st with
      | (Some a, st') => (Some a, st')
      | (None, st') => retry f draw st'
      end
  | xI f =>
      match draw st with
      | (Some a, st') => (Some a, st')
      | (None, st') =>
          match retry f draw st' with
          | (Some a, st'') => (Some a, st'')
          | (None, st'') => retry f draw st''
          end
      end
  end.

(** [RandomState(seed=seed)] for an integer seed. *)
Definition of_seed (seed : Z) : result state :=
  if (seed >? 2 ^ 32 - 1) || (seed <? 0) then Raise ValueError
  else Ok (mt19937_seed seed).

(** [gen_mask]: the smallest [2^k - 1] not below [rng]. *)
Definition gen_mask (rng : Z) : Z := Z.ones (Z.log2 rng + 1).

Definition masked (next : state -> Z * state) (rng mask : Z) (st : state)
  : option Z * state :=
  let '(v, st) := next st in
  let val := Z.land v mask in
  (if val <=? rng then Some val else None, st).

(** [random_bounded_uint64] with [use_masked]. *)
Definition random_bounded_uint64 (off rng : Z) (st : state) : result (Z * state) :=
  if rng =? 0 then Ok (off, st)
  else
    let finish r := match r with
                    | (Some val, st) => Ok (u64 (off + val), st)
                    | (None, _) => Raise Unfinished
                    end in
    if rng <=? 0xFFFFFFFF then
      if rng =? 0xFFFFFFFF then
        let '(v, st) := next_uint32 st in Ok (u64 (off + v), st)
      else finish (retry retry_limit (masked next_uint32 rng (gen_mask rng)) st)
    else if rng =? 0xFFFFFFFFFFFFFFFF then
      let '(v, st) := next_uint64 st in Ok (u64 (off + v), st)
    else finish (retry retry_limit (masked next_uint64 rng (gen_mask rng)) st).

Definition int64_of_uint64 (x : Z) : Z := if x <? 2 ^ 63 then x else x - 2 ^ 64.

(** The bound checks of [randint] at the default integer type, int64. *)
Definition check_bounds (low high : Z) : result (Z * Z) :=
  let high := high - 1 in
  if low <? - 2 ^ 63 then Raise ValueError
  else if high >? 2 ^ 63 - 1 then Raise ValueError
  else if low >? high then Raise ValueError
  else Ok (u64 low, high - low).

(** [rs.randint(low, high)] *)
Definition randint (low high : Z) (st : state) : result (Z * state) :=
  '(off, rng) ← check_bounds low high;
  '(v, st) ← random_bounded_uint64 off rng st;
  Ok (int64_of_uint64 v, st).

Fixpoint fill (n : nat) (off rng : Z) (st : state) : result (list Z * state) :=
  match n with
  | O => Ok ([], st)
  | S n' =>
      '(v, st) ← random_bounded_uint64 off rng st;
      '(vs, st) ← fill n' off rng st;
      Ok (int64_of_uint64 v :: vs, st)
  end.

(** [rs.randint(low, high, size=size)]: an empty request returns before
    the bounds are looked at. *)
Definition randint_size (low high size : Z) (st : state) : result (list Z * state) :=
  if size <? 0 then Raise ValueError
  else if size =? 0 then Ok ([], st)
  else
    '(off, rng) ← check_bounds low high;
    fill (Z.to_nat size) off rng st.

(** [rs.random_sample()] *)
Definition random_sample (st : state) : float * state := next_double st.

End RandomState.

(** ** raster_ipr.py *)

Module Raster.

Definition matrix := list (list bool).

(** [np.array([np.array([False]*N)]*N)] *)
Definition falses (N : Z) : matrix :=
  replicate (Z.to_nat N) (replicate (Z.to_nat N) false).

(** The double loop of [scramble]. *)
Definition scramble_pass (m : matrix) : result matrix :=
  let N := Z.of_nat (length m) in
  for_ (range 1 (N + 1)) (fun y scrambled =>
    for_ (range 1 (N + 1)) (fun x scrambled =>
      let x_ := (x + y) mod N in
      let y_ := (x + 2 * y) mod N in
      v ← getitem2 m (y - 1) (x - 1);
      setitem2 scrambled (y_ - 1) (x_ - 1) v) scrambled) (falses N).

(** [scramble].  The source calls itself once for every iteration; the
    limit the interpreter puts on the depth of calls is not part of the
    model, which stands for the source at the counts the interpreter
    admits (the service scrambles with 20 iterations). *)
Equations? scramble (m : matrix) (iterations : Z) : result matrix
  by wf (Z.to_nat iterations) lt :=
  scramble m iterations with scramble_pass m => {
    | Raise e => Raise e
    | Ok scrambled with Z_gt_dec (iterations - 1) 0 => {
        | left _ => scramble scrambled (iterations - 1)
        | right _ => Ok scrambled } }.
Proof. lia. Qed.

(** The double loop of [unscramble]. *)
Definition unscramble_pass (s : matrix) : result matrix :=
  let N := Z.of_nat (length s) in
  for_ (range 1 (N + 1)) (fun y m =>
    for_ (range 1 (N + 1)) (fun x m =>
      let x_ := (2 * x - y) mod N in
      let y_ := (- x + y) mod N in
      v ← getitem2 s (y - 1) (x - 1);
      setitem2 m (y_ - 1) (x_ - 1) v) m) (falses N).

(** [unscramble], with the same proviso on the depth of calls. *)
Equations? unscramble (s : matrix) (iterations : Z) : result matrix
  by wf (Z.to_nat iterations) lt :=
  unscramble s iterations with unscramble_pass s => {
    | Raise e => Raise e
    | Ok m with Z_gt_dec (iterations - 1) 0 => {
        | left _ => unscramble m (iterations - 1)
        | right _ => Ok m } }.
Proof. lia. Qed.

(** *** Images of the imaging library

    Eight-bit images in the modes the service meets: gray or colour,
    with or without alpha.  A pixel is the list of its channel values. *)

Inductive pil_mode : Type := L | LA | RGB | RGBA.

Record image : Type := {
  im_mode : pil_mode;
  im_width : Z;
  im_height : Z;
  im_data : list (list (list Z))
}.

(** [len(mode)]: the number of letters of the mode name. *)
Definition mode_len (m : pil_mode) : Z :=
  match m with L => 1 | LA => 2 | RGB => 3 | RGBA => 4 end.

(** [_getBackground] *)
Definition _getBackground (m : pil_mode) : list Z :=
  replicate (Z.to_nat (mode_len m)) 0.

(** [Image.new(mode, size, color)] *)
Definition Image_new (m : pil_mode) (size : Z * Z) (color : list Z) : image :=
  {| im_mode := m; im_width := size.1; im_height := size.2;
     im_data := replicate (Z.to_nat size.2) (replicate (Z.to_nat size.1) color) |}.

(** [canvas.paste(im, (x, y))]: the pixels of [im] that fall on the
    canvas replace the ones there. *)
Definition paste (canvas im : image) (x y : Z) : image :=
  {| im_mode := im_mode canvas; im_width := im_width canvas;
     im_height := im_height canvas;
     im_data :=
       imap (fun r row =>
               imap (fun c px =>
                       let sr := Z.of_nat r - y in
                       let sc := Z.of_nat c - x in
                       if (0 <=? sr) && (0 <=? sc) then
                         match im_data im !! Z.to_nat sr with
                         | Some srow => default px (srow !! Z.to_nat sc)
                         | None => px
                         end
                       else px) row)
            (im_data canvas) |}.

(** [im.crop((left, top, right, bottom))]; what lies outside the image
    is zero. *)
Definition crop (im : image) (left top right bottom : Z) : image :=
  let zero := _getBackground (im_mode im) in
  {| im_mode := im_mode im; im_width := right - left; im_height := bottom - top;
     im_data :=
       (fun r =>
          (fun c =>
             if (0 <=? r) && (0 <=? c) then
               match im_data im !! Z.to_nat r with
               | Some row => default zero (row !! Z.to_nat c)
               | None => zero
               end
             else zero) <$> range left right) <$> range top bottom |}.

(** [im.convert('LA')]: the luma of the colour channels, and the alpha
    channel or full opacity. *)
Definition luma (r g b : Z) : Z := (r * 19595 + g * 38470 + b * 7471 + 32768) / 65536.

Definition convert_LA (im : image) : image :=
  {| im_mode := LA; im_width := im_width im; im_height := im_height im;
     im_data :=
       fmap (M:=list) (fmap (M:=list) (fun px =>
         match im_mode im, px with
         | L, [l] => [l; 255]
         | LA, [l; a] => [l; a]
         | RGB, [r; g; b] => [luma r g b; 255]
         | RGBA, [r; g; b; a] => [luma r g b; a]
         | _, _ => px
         end)) (im_data im) |}.

(** The resampling filter of [im.resize(size, Image.ANTIALIAS)] belongs
    to the imaging library; a resize to the size the image has returns
    a copy. *)
Class Pillow : Type := { resample : image -> Z * Z -> image }.

Definition resize `{Pillow} (im : image) (size : Z * Z) : image :=
  if (size.1 =? im_width im) && (size.2 =? im_height im) then im
  else resample im size.

(** [round(x)] of a float: the nearest integer, ties to even. *)
Definition py_round (x : float) : result Z :=
  match Prim2SF x with
  | S754_nan => Raise ValueError
  | S754_infinity _ => Raise OverflowError
  | _ => Ok (PyFloat.to_Z (PyFloat.rint x))
  end.

(** [a / b] on two integers. *)
Definition truediv (a b : Z) : result float :=
  if b =? 0 then Raise ZeroDivisionError
  else Ok (PyFloat.of_Z a / PyFloat.of_Z b)%float.

(** [_resizeCanvas] *)
Definition _resizeCanvas (im : image) (margins : Z * Z * Z * Z) : image :=
  let '(mt, mr, mb, ml) := margins in
  let new_width := im_width im + mr + ml in
  let new_height := im_height im + mt + mb in
  let m := im_mode im in
  paste (Image_new m (new_width, new_height) (_getBackground m)) im ml mt.

(** ['left' in position] *)
Definition str_in (sub s : string) : bool :=
  match index 0 sub s with Some _ => true | None => false end.

Definition possible_positions : list string :=
  ["topleft"; "topright"; "bottomright"; "bottomleft"; "center"]%string.

(** [_calcMargins] *)
Definition _calcMargins (wall_size size : Z * Z) (position : string)
  : result (Z * Z * Z * Z) :=
  if negb (existsb (String.eqb position) possible_positions) then Raise ValueError
  else
    '(ml, mr) ←
      (if str_in "left" position then Ok (0, wall_size.1 - size.1)
       else if str_in "right" position then Ok (wall_size.1 - size.1, 0)
       else h ← truediv (wall_size.1 - size.1) 2; m ← py_round h; Ok (m, m));
    '(mt, mb) ←
      (if str_in "top" position then Ok (0, wall_size.2 - size.2)
       else if str_in "bottom" position then Ok (wall_size.2 - size.2, 0)
       else h ← truediv (wall_size.2 - size.2) 2; m ← py_round h; Ok (m, m));
    Ok (mt, mr, mb, ml).

(** *** Raster datasets

    The sample type of a band is a parameter: [as_float] is the value a
    sample has in arithmetic, [of_int] the sample an integer becomes
    when it is stored in the array of the band. *)

Class Dtype (P : Type) : Type := {
  as_float : P -> float;
  of_int : Z -> result P
}.

Inductive color : Type :=
| Red | Green | Blue | Gray | Alpha | Palette | Undefined | OtherColor.

Definition color_eqb (a b : color) : bool :=
  match a, b with
  | Red, Red | Green, Green | Blue, Blue | Gray, Gray | Alpha, Alpha
  | Palette, Palette | Undefined, Undefined | OtherColor, OtherColor => true
  | _, _ => false
  end.

(** A band: its colour interpretation, its samples by row, its no-data
    value, its statistics [min, max, mean, std] as the raster library
    reports them, and the number of entries of its colour table. *)
Record band (P : Type) : Type := {
  interpretation : color;
  samples : list (list P);
  nodata : option float;
  statistics : list float;
  color_count : option Z
}.
Arguments interpretation {P}.
Arguments samples {P}.
Arguments nodata {P}.
Arguments statistics {P}.
Arguments color_count {P}.

Record dataset (P : Type) : Type := {
  RasterXSize : Z;
  RasterYSize : Z;
  bands : list (band P)
}.
Arguments RasterXSize {P}.
Arguments RasterYSize {P}.
Arguments bands {P}.

(** [ds.GetRasterBand(i)], bands counted from one. *)
Definition GetRasterBand {P} (ds : dataset P) (i : Z) : result (band P) :=
  if (1 <=? i) && (i <=? Z.of_nat (length (bands ds)))
  then getitem (bands ds) (i - 1)
  else Raise AttributeError.

(** A dictionary from colours to band numbers, in insertion order. *)
Definition band_dict : Type := list (color * Z).

Fixpoint dict_set (d : band_dict) (k : color) (v : Z) : band_dict :=
  match d with
  | [] => [(k, v)]
  | (k', v') :: d' => if color_eqb k k' then (k, v) :: d' else (k', v') :: dict_set d' k v
  end.

Fixpoint dict_get (d : band_dict) (k : color) : result Z :=
  match d with
  | [] => Raise KeyError
  | (k', v) :: d' => if color_eqb k k' then Ok v else dict_get d' k
  end.

Definition dict_has (d : band_dict) (k : color) : bool :=
  existsb (fun kv => color_eqb k kv.1) d.

Inductive raster_mode : Type := grayscale | mode_RGB | mode_RGBA | mode_Palette.

Definition named (c : color) : bool :=
  match c with
  | Red | Green | Blue | Gray | Alpha | Palette => true
  | _ => false
  end.

(** [getBandInterpretation] *)
Definition getBandInterpretation {P} (ds : dataset P) : result (raster_mode * band_dict) :=
  let count := Z.of_nat (length (bands ds)) in
  let bandInterp :=
    foldl (fun d '(i, b) =>
             if named (interpretation b) then dict_set d (interpretation b) i else d)
          [] (imap (fun i b => (Z.of_nat i + 1, b)) (bands ds)) in
  let has := dict_has bandInterp in
  let n := length bandInterp in
  if has Gray then Ok (grayscale, bandInterp)
  else if has Red && has Green && has Blue && (n =? 3)%nat then
    if (count =? 4) && negb (existsb (fun kv => kv.2 =? 4) bandInterp) then
      b ← GetRasterBand ds 4;
      max_value ← getitem (statistics b) 1;
      if color_eqb (interpretation b) Undefined && PrimFloat.ltb max_value 256
      then Ok (mode_RGBA, dict_set bandInterp Alpha 4)
      else Ok (mode_RGB, bandInterp)
    else Ok (mode_RGB, bandInterp)
  else if has Red && has Green && has Blue && has Alpha && (n =? 4)%nat
  then Ok (mode_RGBA, bandInterp)
  else if has Palette then Ok (mode_Palette, bandInterp)
  else Raise NotImplementedError.

(** The object [Watermark] after its constructor. *)
Record Watermark (P : Type) : Type := {
  raster : dataset P;
  mode : raster_mode;
  band_interpretation : band_dict;
  paletteCount : option Z
}.
Arguments raster {P}.
Arguments mode {P}.
Arguments band_interpretation {P}.
Arguments paletteCount {P}.

(** [Watermark(file, epsg)].  [opened] is the dataset of the file and
    [expanded] its expansion to RGBA by the raster library, which the
    constructor works on when the file is colour-mapped.  A given
    [epsg] reaches a name that is bound nowhere. *)
Definition Watermark_init {P} (opened expanded : dataset P) (epsg : option Z)
  : result (Watermark P) :=
  match epsg with
  | Some _ => Raise NameError
  | None =>
      '(m, bandInterp) ← getBandInterpretation opened;
      match m with
      | mode_Palette =>
          no ← dict_get bandInterp Palette;
          b ← GetRasterBand opened no;
          count ← match color_count b with
                   | Some c => Ok c
                   | None => Raise AttributeError
                   end;
          '(m, bandInterp) ← getBandInterpretation expanded;
          Ok {| raster := expanded; mode := m; band_interpretation := bandInterp;
                paletteCount := Some count |}
      | _ =>
          Ok {| raster := opened; mode := m; band_interpretation := bandInterp;
                paletteCount := None |}
      end
  end.

(** *** The visible watermark *)

(** The keyword arguments of [prepareWatermark]. *)
Record fit_options : Type := {
  to_gray : bool;
  fit : string;
  position : string;
  distance : option Z * option Z
}.

Definition default_options : fit_options :=
  {| to_gray := true; fit := "width"; position := "center"; distance := (None, None) |}.

(** The loop that tiles the watermark over the canvas.  The fuel it is
    given is [(W + 1) * (H + 1)] rounds and one more; running out of it
    is the pseudo-exception [Unfinished]. *)
Fixpoint tile_loop (fuel : nat) (tiled wm : image) (W H dx dy x y : Z) : result image :=
  match fuel with
  | O => Raise Unfinished
  | S fuel' =>
      if y <? H then
        let tiled := paste tiled wm x y in
        let x := x + (im_width wm + dx) in
        if x >? W then tile_loop fuel' tiled wm W H dx dy (x - W) (y + (im_height wm + dy))
        else tile_loop fuel' tiled wm W H dx dy x y
      else Ok tiled
  end.

(** [prepareWatermark]: the prepared image that is saved to a file. *)
Definition prepareWatermark `{Pillow} {P} (self : Watermark P) (wm : image)
    (opts : fit_options) : result image :=
  let wm_width := im_width wm in
  let wm_height := im_height wm in
  let W := RasterXSize (raster self) in
  let H := RasterYSize (raster self) in
  let finish (size : Z * Z) : result image :=
    let wm := resize wm size in
    '(wm, size) ←
      (if size.1 >? W then
         h ← truediv (size.1 - W) 2;
         left ← py_round h;
         Ok (crop wm left 0 (W + left) size.2, (W, size.2))
       else Ok (wm, size));
    '(wm, size) ←
      (if size.2 >? H then
         h ← truediv (size.2 - H) 2;
         top ← py_round h;
         Ok (crop wm 0 top size.1 (H + top), (size.1, H))
       else Ok (wm, size));
    margins ← _calcMargins (W, H) size (position opts);
    let wm := if to_gray opts then convert_LA wm else wm in
    Ok (_resizeCanvas wm margins) in
  if String.eqb (fit opts) "stretch" then finish (W, H)
  else if String.eqb (fit opts) "height" then
    q ← truediv (wm_width * H) wm_height; w ← py_round q; finish (w, H)
  else if String.eqb (fit opts) "width" then
    q ← truediv (wm_height * W) wm_width; h ← py_round q; finish (W, h)
  else if String.eqb (fit opts) "original" then finish (wm_width, wm_height)
  else if String.eqb (fit opts) "tile" then
    match distance opts with
    | (Some dx, Some dy) =>
        if (dx >=? W) || (dy >=? H) || (dx <=? 0) || (dy <=? 0) then Raise ValueError
        else
          tiled ← tile_loop (S (Z.to_nat ((W + 1) * (H + 1))))
                    (Image_new (im_mode wm) (W, H) (_getBackground (im_mode wm)))
                    wm W H dx dy dx dy;
          Ok (if to_gray opts then convert_LA tiled else tiled)
    | _ => Raise ValueError
    end
  else Raise ValueError.

(** The dataset the raster library opens on a saved image: one band of
    bytes for every channel. *)
Definition channel_colors (m : pil_mode) : list color :=
  match m with
  | L => [Gray]
  | LA => [Gray; Alpha]
  | RGB => [Red; Green; Blue]
  | RGBA => [Red; Green; Blue; Alpha]
  end.

Definition dataset_of_image (im : image) : dataset Z :=
  {| RasterXSize := im_width im; RasterYSize := im_height im;
     bands :=
       imap (fun k c =>
               {| interpretation := c;
                  samples := fmap (M:=list) (fmap (M:=list) (fun px => default 0 (px !! k)))
                                  (im_data im);
                  nodata := None; statistics := []; color_count := None |})
            (channel_colors (im_mode im)) |}.

(** [translateWM]: the prepared image, opened as a dataset and given
    the georeference of the raster. *)
Definition translateWM `{Pillow} {P} (self : Watermark P) (wm : image)
    (opts : fit_options) : result (dataset Z) :=
  dataset_of_image <$> prepareWatermark self wm opts.

(** [a == noDataValue] on a sample; no sample equals [None]. *)
Definition is_nodata {P} `{Dtype P} (px : P) (noDataValue : option float) : bool :=
  match noDataValue with
  | Some v => PrimFloat.eqb (as_float px) v
  | None => false
  end.

(** The literal 0.1 of the source, as the float it denotes. *)
Definition threshold : float := 0x1.999999999999ap-4%float.

(** The watermark value and the opacity of a watermark pixel. *)
Definition wm_fraction (v : Z) : float := (PyFloat.of_Z v / 255)%float.

(** The body of the pixel loop of [embed_image]: the sample that
    position holds afterwards. *)
Definition blend {P} `{Dtype P} (is_alpha : bool) (max_alpha : Z) (max_value : float)
    (noDataValue : option float) (transparency : float) (wm_v wm_a : Z) (px : P)
  : result P :=
  let wm_value := wm_fraction wm_v in
  let alpha := wm_fraction wm_a in
  if PrimFloat.ltb threshold (wm_value * alpha) then
    if is_alpha then
      if is_nodata px noDataValue || PrimFloat.eqb (as_float px) 0
      then of_int max_alpha
      else Ok px
    else
      let alpha := (alpha * transparency)%float in
      let norm_value := ((1 - wm_value) * alpha)%float in
      if negb (is_nodata px noDataValue) then
        let true_value := (as_float px / max_value)%float in
        r ← py_round ((1 - (1 - true_value) * (1 - alpha) - norm_value) * max_value)%float;
        of_int r
      else
        r ← py_round ((1 - norm_value) * max_value)%float;
        of_int r
  else Ok px.

(** The two nested loops over one band. *)
Definition blend_band {P} `{Dtype P} (is_alpha : bool) (max_alpha : Z) (max_value : float)
    (noDataValue : option float) (transparency : float)
    (wm_arr wm_alpha_arr : list (list Z)) (raster_arr : list (list P))
  : result (list (list P)) :=
  mapM (fun '(i, row) =>
          mapM (fun '(j, px) =>
                  wm_v ← getitem2 wm_arr i j;
                  wm_a ← getitem2 wm_alpha_arr i j;
                  blend is_alpha max_alpha max_value noDataValue transparency wm_v wm_a px)
               (imap (fun j px => (Z.of_nat j, px)) row))
       (imap (fun i row => (Z.of_nat i, row)) raster_arr).

(** [band.WriteArray(arr)] on band number [no] of the copy. *)
Definition WriteArray {P} (ds : dataset P) (no : Z) (arr : list (list P))
  : result (dataset P) :=
  b ← GetRasterBand ds no;
  bs ← setitem (bands ds) (no - 1)
         {| interpretation := interpretation b; samples := arr; nodata := nodata b;
            statistics := statistics b; color_count := color_count b |};
  Ok {| RasterXSize := RasterXSize ds; RasterYSize := RasterYSize ds; bands := bs |}.

(** One round of the loop of [embed_image] over the colours. *)
Definition embed_band {P} `{Dtype P} (self : Watermark P) (wm : dataset Z)
    (wm_bandInterp : band_dict) (transparency : float)
    (kv : color * Z) (merged : dataset P) : result (dataset P) :=
  let '(c, no) := kv in
  b ← GetRasterBand (raster self) no;
  max_value ← getitem (statistics b) 1;
  let raster_arr := samples b in
  let noDataValue := nodata b in
  wm_no ← dict_get wm_bandInterp c;
  wm_band ← GetRasterBand wm wm_no;
  alpha_no ← dict_get wm_bandInterp Alpha;
  wm_alpha_band ← GetRasterBand wm alpha_no;
  max_alpha ← (if color_eqb c Alpha then
                 mean ← getitem (statistics b) 2;
                 std ← getitem (statistics b) 3;
                 py_round (mean + std)%float
               else Ok 0);
  arr ← blend_band (color_eqb c Alpha) max_alpha max_value noDataValue transparency
          (samples wm_band) (samples wm_alpha_band) raster_arr;
  WriteArray merged no arr.

(** [embed_image]: the dataset written to the output file.  The copy
    made by the driver holds the samples of the raster.  The call that
    re-applies a palette names a function that is bound nowhere. *)
Definition embed_image `{Pillow} {P} `{Dtype P} (self : Watermark P) (watermark : image)
    (transparency : float) (opts : fit_options) : result (dataset P) :=
  wm ← translateWM self watermark opts;
  '(wm_mode, wm_bandInterp) ← getBandInterpretation wm;
  let merged := raster self in
  merged ← for_ (band_interpretation self)
             (embed_band self wm wm_bandInterp transparency) merged;
  match paletteCount self with
  | Some _ => Raise NameError
  | None => Ok merged
  end.

(** Samples of type Byte: integers from 0 to 255; an integer out of
    that range is stored by its low eight bits. *)
#[global] Instance Byte_dtype : Dtype Z :=
  {| as_float := PyFloat.of_Z; of_int := fun z => Ok (z mod 256) |}.

(** A nearest-neighbour filter, for runs in which no image changes
    size. *)
Definition nearest (im : image) (size : Z * Z) : image :=
  {| im_mode := im_mode im; im_width := size.1; im_height := size.2;
     im_data :=
       (fun r =>
          (fun c =>
             default (_getBackground (im_mode im))
               (im_data im !! Z.to_nat (r * im_height im / size.2)
                  ≫= (.!! Z.to_nat (c * im_width im / size.1))))
          <$> range 0 size.1) <$> range 0 size.2 |}.

(** [_get_color_bands_no]: the numbers of the bands that hold colours. *)
Definition _get_color_bands_no {P} (self : Watermark P) : result (list Z) :=
  match mode self with
  | grayscale => g ← dict_get (band_interpretation self) Gray; Ok [g]
  | _ => mapM (dict_get (band_interpretation self)) [Red; Green; Blue]
  end.

(** *** The invisible message

    The wavelet transform, the QR code, its reader and the expansion
    of a colour table belong to libraries; they are taken as the source
    calls them.  [coefficients] is what [pywt.wavedec2(a, 'haar',
    level=3)] returns and [HH3] its diagonal detail of the third level;
    [createQR] gives the code as the array of booleans [np.array] makes
    of the image; [cast] is the conversion of a float sample to the
    type of the band when an array is written; [decode] gives the texts
    the reader finds. *)
Class Codec (P : Type) : Type := {
  coefficients : Type;
  wavedec2 : list (list P) -> result coefficients;
  HH3 : coefficients -> list (list float);
  with_HH3 : coefficients -> list (list float) -> coefficients;
  waverec2 : coefficients -> result (list (list float));
  mean_abs : list (list float) -> float;
  createQR : string -> Z -> result matrix;
  cast : float -> P;
  decode : matrix -> list string;
  rgb_expand : dataset P -> dataset P
}.

(** [np.shape(a)] of a two-dimensional array. *)
Definition shape {A} (a : list (list A)) : Z * Z :=
  (Z.of_nat (length a), Z.of_nat (length (default [] (head a)))).

(** [l[:n]] *)
Definition slice_to {A} (l : list A) (n : Z) : list A :=
  if n <? 0 then take (Z.to_nat (Z.of_nat (length l) + n)) l else take (Z.to_nat n) l.

(** The two loops of [embed_message] over [HH3]. *)
Definition mark_HH3 (hh : list (list float)) (qr_values : matrix) (alpha : float) (dim : Z)
  : result (list (list float)) :=
  for_ (range 0 dim) (fun x hh =>
    for_ (range 0 dim) (fun y hh =>
      q ← getitem2 qr_values x y;
      v ← getitem2 hh x y;
      setitem2 hh x y (if q : bool then (v + alpha)%float else (v - alpha)%float)) hh) hh.

(** [band.WriteArray(arr)] with an array that may be smaller than the
    band: it is written from the first row and column on, and the
    samples it does not reach stay. *)
Definition WriteBlock {P} (ds : dataset P) (no : Z) (arr : list (list P))
  : result (dataset P) :=
  b ← GetRasterBand ds no;
  if ((shape (samples b)).1 <? (shape arr).1) || ((shape (samples b)).2 <? (shape arr).2)
  then Raise ValueError
  else
    WriteArray ds no
      (imap (fun i row => imap (fun j px => default px (arr !! i ≫= (.!! j))) row)
            (samples b)).

(** One round of the loop of [embed_message] over the colour bands;
    the state is the copy and the scrambled code, made in the first
    round. *)
Definition embed_message_band {P} `{Codec P} (self : Watermark P) (message : string)
    (band_no : Z) (st : dataset P * option matrix)
  : result (dataset P * option matrix) :=
  let '(merged, qr) := st in
  band ← GetRasterBand (raster self) band_no;
  _ ← GetRasterBand merged band_no;
  let '(xsize, ysize) := shape (samples band) in
  c ← wavedec2 (samples band);
  let hh := HH3 c in
  let dim := Z.min (shape hh).1 (shape hh).2 in
  qr_values ← match qr with
               | None => q ← createQR message dim; scramble q 20
               | Some qr_values => Ok qr_values
               end;
  let alpha := mean_abs hh in
  hh ← mark_HH3 hh qr_values alpha dim;
  channel ← waverec2 (with_HH3 c hh);
  let channel := (fun row => slice_to row (ysize - 1)) <$> slice_to channel (xsize - 1) in
  merged ← WriteBlock merged band_no (fmap (M:=list) cast <$> channel);
  Ok (merged, Some qr_values).

(** [embed_message]: the dataset written to the output file.  The call
    that re-applies a palette names a function that is bound nowhere. *)
Definition embed_message {P} `{Codec P} (self : Watermark P) (message : string)
  : result (dataset P) :=
  let merged := raster self in
  bands ← _get_color_bands_no self;
  '(merged, _) ← for_ bands (embed_message_band self message) (merged, None);
  match paletteCount self with
  | Some _ => Raise NameError
  | None => Ok merged
  end.

(** One round of the loop of [detect_message]; a band of the file
    whose colour the raster does not have is passed over, and so is a
    position outside an array. *)
Definition detect_message_band {P} `{Codec P} (self wm : Watermark P) (band_no : Z)
    (bitmap : option (list (list float))) : result (option (list (list float))) :=
  band_wm ← GetRasterBand (raster wm) band_no;
  match dict_get (band_interpretation self) (interpretation band_wm) with
  | Raise _ => Ok bitmap
  | Ok no =>
      band ← GetRasterBand (raster self) no;
      c ← wavedec2 (samples band);
      cw ← wavedec2 (samples band_wm);
      let hh := HH3 c in
      let hhw := HH3 cw in
      let dim := Z.min (shape hh).1 (shape hh).2 in
      let bitmap := match bitmap with
                    | None => replicate (Z.to_nat dim) (replicate (Z.to_nat dim) 0%float)
                    | Some bitmap => bitmap
                    end in
      let alpha := mean_abs hh in
      bitmap ← for_ (range 0 dim) (fun x bitmap =>
                 for_ (range 0 dim) (fun y bitmap =>
                   match (b ← getitem2 bitmap x y;
                          w ← getitem2 hhw x y;
                          v ← getitem2 hh x y;
                          setitem2 bitmap x y (b + (w - v) / alpha)%float) with
                   | Ok bitmap' => Ok bitmap'
                   | Raise IndexError => Ok bitmap
                   | Raise e => Raise e
                   end) bitmap) bitmap;
      Ok (Some bitmap)
  end.

(** [detect_message]: the text read in the file, [None] when there is
    none; [file] is the dataset the file holds. *)
Definition detect_message {P} `{Codec P} (self : Watermark P) (file : dataset P)
  : result (option string) :=
  wm ← Watermark_init file (rgb_expand file) None;
  bands ← _get_color_bands_no wm;
  bitmap ← for_ bands (detect_message_band self wm) None;
  match bitmap with
  | None => Ok None
  | Some bitmap =>
      bitmap ← unscramble (fmap (M:=list) (fun elem => PrimFloat.leb 0 elem) <$> bitmap) 20;
      Ok (head (decode bitmap))
  end.

End Raster.

(** ** vector_ipr.py *)

Module Vector.

(** A cell of a dataframe: an integer, a float, a string, or anything
    else ([None], a missing value, a value of another type).  A Python
    [bool], which [transform_value] takes for an integer of as many
    digits as its text has letters, is not among the cells of the
    model. *)
Inductive value : Type :=
| VInt (z : Z)
| VFloat (f : float)
| VStr (s : string)
| VNone.

(** [pattern.findall(s)] for the pattern of the source, one digit from
    1 to 9 followed by any digits: the maximal digit runs that start with
    a non-zero digit, from left to right. *)
Definition is_nonzero_digit (c : ascii) : bool :=
  let n := nat_of_ascii c in (49 <=? n)%nat && (n <=? 57)%nat.

Fixpoint findall (cur : option string) (s : string) : list string :=
  match s with
  | EmptyString => match cur with Some m => [m] | None => [] end
  | String c s' =>
      match cur with
      | Some m =>
          if PyStr.is_digit c then findall (Some (m ++ String c EmptyString)%string) s'
          else m :: findall None s'
      | None =>
          if is_nonzero_digit c then findall (Some (String c EmptyString)) s'
          else findall None s'
      end
  end.

(** [s.replace(old, new)] for a non-empty [old]: every occurrence, left
    to right, without overlap.  [skip] counts the characters of an
    occurrence that are still to be passed over. *)
Fixpoint replace_from (skip : nat) (old new s : string) : string :=
  match s with
  | EmptyString => EmptyString
  | String c s' =>
      match skip with
      | S k => replace_from k old new s'
      | O =>
          if String.prefix old s
          then (new ++ replace_from (String.length old - 1) old new s')%string
          else String c (replace_from 0 old new s')
      end
  end.

Definition replace (old new s : string) : string := replace_from 0 old new s.

(** [s.find('.')], [-1] when there is none. *)
Definition find_dot (s : string) : Z :=
  match index 0 "." s with
  | Some i => Z.of_nat i
  | None => -1
  end.

(** [s[:i]] and [s[i:]] *)
Definition str_slice (s : string) (lo hi : Z) : string :=
  let len := Z.of_nat (String.length s) in
  let norm i := if i <? 0 then Z.max (i + len) 0 else Z.min i len in
  let lo := norm lo in
  let hi := norm hi in
  substring (Z.to_nat lo) (Z.to_nat (hi - lo)) s.

(** The integer branch of [transform_value], on the generator [rs]. *)
Definition transform_int_with (rs : MT19937.state) (value : Z) : result Z :=
  let nod := Z.of_nat (String.length (PyStr.str_int value)) in
  '(r, _) ← RandomState.randint (10 ^ (nod - 1)) (10 ^ nod) rs;
  Ok r.

(** [transform_value(value, seed)] called on an integer. *)
Definition transform_int (value seed : Z) : result Z :=
  rs ← RandomState.of_seed seed;
  transform_int_with rs value.

Definition transform_value (v : value) (seed : Z) : result value :=
  rs ← RandomState.of_seed seed;
  match v with
  | VInt z => VInt <$> transform_int_with rs z
  | VFloat f =>
      let text := PyFloat.repr f in
      n ← PyStr.int_of_str (replace "." "" text);
      t ← transform_int n seed;
      let transformed := PyStr.str_int t in
      let dec_pos := find_dot text in
      VFloat <$> PyFloat.of_str
        (str_slice transformed 0 dec_pos ++ "."
         ++ str_slice transformed dec_pos (Z.of_nat (String.length transformed)))%string
  | VStr s =>
      let matches := findall None s in
      VStr <$> for_ (imap (fun i m => (Z.of_nat i, m)) matches)
        (fun '(i, m) value =>
           n ← PyStr.int_of_str m;
           t ← transform_int n (seed + i);
           Ok (replace m (PyStr.str_int t) value)) s
  | VNone => Ok VNone
  end.

(** [round(x, ndigits)] of a NumPy float: scale, [rint], scale back. *)
Definition power_of_ten (n : Z) : float :=
  if n <? 9 then PyFloat.of_Z (10 ^ n)
  else Nat.iter (Z.to_nat (n - 9)) (fun r => (r * 10)%float) 1000000000%float.

Definition np_round (x : float) (ndigits : Z) : float :=
  if ndigits =? 0 then PyFloat.rint x
  else (PyFloat.rint (x * power_of_ten ndigits) / power_of_ten ndigits)%float.

(** [min] of a non-empty list of integers. *)
Definition py_min (l : list Z) : result Z :=
  match l with
  | [] => Raise ValueError
  | x :: l' => Ok (foldl Z.min x l')
  end.

Definition _round (value : float) (sample : list float) : result float :=
  exps ← mapM PyFloat.decimal_exponent sample;
  m ← py_min exps;
  let precision := Z.abs m in
  Ok (np_round value precision).

(** *** Geometries

    The types the service tells apart, by the type id of the geometry
    library: 1 line string, 3 polygon, 5 and 6 their collections; every
    other geometry keeps only its type id. *)
Definition point : Type := float * float.

Inductive geometry : Type :=
| LineString (coords : list point)
| Polygon (rings : list (list point))
| MultiLineString (parts : list (list point))
| MultiPolygon (parts : list (list (list point)))
| OtherGeometry (type_id : Z).

Definition get_type_id (g : geometry) : Z :=
  match g with
  | LineString _ => 1
  | Polygon _ => 3
  | MultiLineString _ => 5
  | MultiPolygon _ => 6
  | OtherGeometry t => t
  end.

(** [pg.linestrings(coords)]: a line needs two coordinates. *)
Definition linestrings (coords : list point) : result (list point) :=
  if (length coords <? 2)%nat then Raise ValueError else Ok coords.

Definition point_eqb (p q : point) : bool :=
  PrimFloat.eqb p.1 q.1 && PrimFloat.eqb p.2 q.2.

(** [pg.polygons(coords)]: the coordinates make the shell, closed by
    its first point when it is open; a shell needs four points. *)
Definition polygons (coords : list point) : result (list (list point)) :=
  match coords with
  | [] => Raise ValueError
  | p :: _ =>
      let ring := if point_eqb p (List.last coords p) then coords
                  else coords ++ [p] in
      if (length ring <? 4)%nat then Raise ValueError else Ok [ring]
  end.

(** *** Dataframes *)

Record frame : Type := {
  columns : list string;
  rows : list (list value);
  geometry_column : option (list geometry)
}.

Definition len (df : frame) : Z := Z.of_nat (length (rows df)).

(** [l[lo:hi]] with the bounds clamped as the interpreter does. *)
Definition py_slice {A} (l : list A) (lo hi : Z) : list A :=
  let n := Z.of_nat (length l) in
  let norm i := if i <? 0 then Z.max (i + n) 0 else Z.min i n in
  let lo := norm lo in
  let hi := norm hi in
  take (Z.to_nat (hi - lo)) (drop (Z.to_nat lo) l).

(** [df[lo:hi].trim()] *)
Definition slice (df : frame) (lo hi : Z) : frame :=
  {| columns := columns df;
     rows := py_slice (rows df) lo hi;
     geometry_column := (fun g => py_slice g lo hi) <$> geometry_column df |}.

(** [DataFrameConcatenated(dfs)] and [GeoDataFrameConcatenated(dfs)]:
    the frames one after the other, under the columns of the first. *)
Definition concatenated (geo : bool) (dfs : list frame) : frame :=
  {| columns := match dfs with d :: _ => columns d | [] => [] end;
     rows := d ← dfs; rows d;
     geometry_column :=
       if geo then Some (d ← dfs; default [] (geometry_column d)) else None |}.

(** *** The accessor class [Ipr] *)

(** [N]: one entry for every [N] records; [nmin = N/10]: below that
    number of records no entry is added. *)
Definition N : Z := 1000.
Definition nmin : float := (PyFloat.of_Z N / 10)%float.

(** The accessor object: its dataframe and the private key attribute. *)
Record ipr : Type := { _df : frame; __key : option string }.

Definition _has_geometry (self : ipr) : bool :=
  match geometry_column (_df self) with Some _ => true | None => false end.

(** [set_secret_key] *)
Definition set_secret_key (self : ipr) (key : string) : ipr :=
  {| _df := _df self; __key := Some key |}.

(** [getenv('SECRET_KEY', default=self.__key)]: the variable of the
    process environment wins over the attribute. *)
Definition resolve_key (environ : option string) (self : ipr) : option string :=
  match environ with
  | Some k => Some k
  | None => __key self
  end.

(** [s.encode()]: text is kept as its UTF-8 bytes. *)
Definition encode (s : string) : list byte := list_byte_of_string s.

(** The seed of [_random_state]: the digest of the identifier's bytes
    followed by the key's, read as one integer. *)
Definition seed_of (uuid key : string) : Z :=
  SHA512.digest_int (encode uuid ++ encode key).

Definition _random_state (environ : option string) (self : ipr) (uuid : string)
  : result MT19937.state :=
  match resolve_key environ self with
  | None => Raise InitializeException
  | Some key => Ok (SeedSequence.mt19937 (seed_of uuid key))
  end.

Definition _random_float (rs : MT19937.state) (a b : float) : float * MT19937.state :=
  if PrimFloat.eqb a b then (a, rs)
  else
    let '(a, b) := if PrimFloat.ltb b a then (b, a) else (a, b) in
    let '(u, rs) := RandomState.random_sample rs in
    ((u * (b - a) + a)%float, rs).

(** [math.ceil(a / b)] for a non-negative [a] and a positive [b]. *)
Definition ceil_div (a b : Z) : Z := (a + b - 1) / b.

Definition create_random_row (self : ipr) (rand_map : list Z) : result frame :=
  let df := _df self in
  let cols := columns df in
  vals ← mapM (fun '(i, col) =>
                 r ← getitem rand_map i;
                 row ← getitem (rows df) r;
                 v ← getitem row i;
                 transform_value v r)
              (imap (fun i col => (Z.of_nat i, col)) cols);
  geom ← match geometry_column df with
          | Some g => idx ← getitem rand_map (-1); Ok (Some (py_slice g idx (idx + 1)))
          | None => Ok None
          end;
  Ok {| columns := cols;
        rows := match cols, geom with [], None => [] | _, _ => [vals] end;
        geometry_column := geom |}.

(** The chunks [(lower, upper)] of [N] records that hold at least
    [nmin] of them. *)
Definition chunks (n : Z) : list (Z * Z) :=
  omap (fun i =>
          let lower := i * N in
          let upper := Z.min ((i + 1) * N) n in
          if PrimFloat.ltb (PyFloat.of_Z (upper - lower)) nmin then None
          else Some (lower, upper))
       (range 0 (ceil_div n N)).

Fixpoint rows_of_chunks (self : ipr) (size : Z) (cs : list (Z * Z)) (rs : MT19937.state)
  : result (list frame) :=
  match cs with
  | [] => Ok []
  | (lower, upper) :: cs' =>
      '(rand_map, rs) ← RandomState.randint_size lower upper size rs;
      row ← create_random_row self rand_map;
      rows ← rows_of_chunks self size cs' rs;
      Ok (row :: rows)
  end.

Definition get_random_rows (environ : option string) (self : ipr) (uuid : string)
  : result (list frame) :=
  let df := _df self in
  rs ← _random_state environ self uuid;
  let size := Z.of_nat (length (columns df)) + (if _has_geometry self then 1 else 0) in
  rows_of_chunks self size (chunks (len df)) rs.

(** [random_indices]: one position in every chunk, drawn from the
    global generator [g] of the random library, which is not keyed. *)
Fixpoint indices_of_chunks (cs : list (Z * Z)) (g : MT19937.state)
  : result (list Z * MT19937.state) :=
  match cs with
  | [] => Ok ([], g)
  | (lower, upper) :: cs' =>
      '(i, g) ← RandomState.randint lower upper g;
      '(idxs, g) ← indices_of_chunks cs' g;
      Ok (i :: idxs, g)
  end.

Definition random_indices (self : ipr) (g : MT19937.state)
  : result (list Z * MT19937.state) :=
  indices_of_chunks (chunks (len (_df self))) g.

Definition embed_fictitious_entries
  (environ : option string) (g : MT19937.state) (self : ipr) (uuid : string)
  : result (frame * MT19937.state) :=
  let df := _df self in
  rows ← get_random_rows environ self uuid;
  '(indices, g) ← random_indices self g;
  '(offset, dfs) ←
    for_ (imap (fun i idx => (Z.of_nat i, idx)) indices)
      (fun '(i, idx) '(offset, dfs) =>
         row ← getitem rows i;
         Ok (idx, dfs ++ [slice df offset idx; row]))
      (0, []);
  let dfs := dfs ++ [slice df offset (len df)] in
  Ok (concatenated (_has_geometry self) dfs, g).

(** [a == b] on two cells, as a filter of a column reads it: numbers by
    value, strings by their text, and nothing equals a missing value. *)
Definition value_eqb (a b : value) : bool :=
  match a, b with
  | VInt x, VInt y => x =? y
  | VFloat x, VFloat y => PrimFloat.eqb x y
  | VInt x, VFloat y => PrimFloat.eqb (PyFloat.of_Z x) y
  | VFloat x, VInt y => PrimFloat.eqb x (PyFloat.of_Z y)
  | VStr x, VStr y => String.eqb x y
  | _, _ => false
  end.

(** Two cells count once in [nunique] when they hold the same thing. *)
Definition value_same (a b : value) : bool :=
  match a, b with
  | VNone, VNone => true
  | VFloat x, VFloat y =>
      PrimFloat.eqb x y || (negb (PrimFloat.eqb x x) && negb (PrimFloat.eqb y y))
  | _, _ => value_eqb a b
  end.

Fixpoint nunique (vs : list value) : Z :=
  match vs with
  | [] => 0
  | v :: vs' => (if existsb (value_same v) vs' then 0 else 1) + nunique vs'
  end.

(** [count()]: the cells that hold a value. *)
Definition is_present (v : value) : bool :=
  match v with
  | VNone => false
  | VFloat x => PrimFloat.eqb x x
  | _ => true
  end.

Definition count (vs : list value) : Z :=
  Z.of_nat (length (List.filter is_present vs)).

(** The position of a column name. *)
Fixpoint column_index (col : string) (cols : list string) : option nat :=
  match cols with
  | [] => None
  | c :: cols' => if String.eqb col c then Some O else S <$> column_index col cols'
  end.

Definition column_values (rws : list (list value)) (i : nat) : list value :=
  (fun r => default VNone (r !! i)) <$> rws.

(** [sorted(items, key=score, reverse=True)]: descending and stable. *)
Fixpoint insert_desc (x : string * float) (l : list (string * float))
  : list (string * float) :=
  match l with
  | [] => [x]
  | y :: l' =>
      if PrimFloat.ltb y.2 x.2 then x :: y :: l' else y :: insert_desc x l'
  end.

Definition sorted_desc (l : list (string * float)) : list (string * float) :=
  foldl (fun acc x => insert_desc x acc) [] l.

(** [_order_columns_by_sparsity]: when the dataframe is longer than the
    sample length, [picked] holds the positions the sampler of the
    dataframe library chose. *)
Definition _order_columns_by_sparsity (self : ipr) (sample_length : Z) (picked : list Z)
  : result (list string) :=
  let df := _df self in
  sample ← (if sample_length <? len df then mapM (getitem (rows df)) picked
             else Ok (rows df));
  let cols := columns df in
  let sparsity :=
    imap (fun i col =>
            let vs := column_values sample i in
            (col, (PyFloat.of_Z (nunique vs) / PyFloat.of_Z (count vs))%float)) cols in
  Ok ((sorted_desc sparsity).*1).

Definition contains (col : string) (cols : list string) : bool :=
  existsb (String.eqb col) cols.

(** The loop of [row_exists] over the columns of the row. *)
Fixpoint filter_by_columns (test_cols ordered : list string) (row0 : list value)
    (cols : list (Z * string)) (part : list (list value)) : result bool :=
  match cols with
  | [] => Ok (length part =? 1)%nat
  | (i, col) :: cols' =>
      if negb (contains col ordered)
      then filter_by_columns test_cols ordered row0 cols' part
      else
        v ← getitem row0 i;
        pos ← match column_index col test_cols with
               | Some p => Ok p
               | None => Raise KeyError
               end;
        let part := List.filter (fun r => value_eqb (default VNone (r !! pos)) v) part in
        if (length part =? 0)%nat then Ok false
        else filter_by_columns test_cols ordered row0 cols' part
  end.

Definition row_exists (picked : list Z) (self : ipr) (row : frame) : result bool :=
  let part := rows (_df self) in
  if negb (len row =? 1) then Raise AssertionError
  else
    ordered ← _order_columns_by_sparsity self 10000 picked;
    row0 ← getitem (rows row) 0;
    filter_by_columns (columns (_df self)) ordered row0
      (imap (fun i col => (Z.of_nat i, col)) (columns row)) part.

Fixpoint any_row_exists (picked : list Z) (test : ipr) (rws : list frame) : result bool :=
  match rws with
  | [] => Ok false
  | row :: rws' =>
      row_exists picked test row ≫= fun b : bool =>
      if b then Ok true else any_row_exists picked test rws'
  end.

Definition detect_fictitious_entries
  (environ : option string) (picked : list Z) (self test : ipr) (uuid : string)
  : result bool :=
  rws ← get_random_rows environ self uuid;
  any_row_exists picked test rws.

(** *** Geometries of a dataframe *)

(** [np.unique]: the values once each, ascending. *)
Fixpoint insert_unique (x : Z) (l : list Z) : list Z :=
  match l with
  | [] => [x]
  | y :: l' =>
      if x <? y then x :: y :: l'
      else if x =? y then y :: l'
      else y :: insert_unique x l'
  end.

Definition unique (l : list Z) : list Z := foldr insert_unique [] l.

(** [np.flatnonzero(df.predicates.has_type([1,3,5,6]).to_numpy())] *)
Definition has_type (g : geometry) : bool :=
  let t := get_type_id g in (t =? 1) || (t =? 3) || (t =? 5) || (t =? 6).

Definition candidates (gs : list geometry) : list Z :=
  omap (fun '(i, g) => if has_type g then Some i else None)
       (imap (fun i g => (Z.of_nat i, g)) gs).

Definition get_random_geometries (self : ipr) (rs : MT19937.state)
  : result (list Z * list geometry * MT19937.state) :=
  let multiplier := 10 in
  gs ← match geometry_column (_df self) with
        | Some gs => Ok gs
        | None => Raise TypeError
        end;
  let indices := candidates gs in
  let n := ceil_div (Z.of_nat (length indices)) N * multiplier in
  '(rand_map, rs) ← RandomState.randint_size 0 (Z.of_nat (length indices)) n rs;
  taken ← mapM (getitem indices) rand_map;
  let indices := unique taken in
  geometries ← mapM (getitem gs) indices;
  Ok (indices, geometries, rs).

(** The new point between the neighbours [a] and [b]. *)
Definition new_point (rs : MT19937.state) (a b : point)
  : result (point * MT19937.state) :=
  let '(xa, ya) := a in
  let '(xb, yb) := b in
  let '(x, y, rs) :=
    if PrimFloat.eqb xa xb then
      let '(y, rs) := _random_float rs ya yb in (xa, y, rs)
    else
      let '(x, rs) := _random_float rs xa xb in
      (x, ((yb - ya) * (x - xa) / (xb - xa) + ya)%float, rs) in
  x ← _round x [xa; xb];
  y ← _round y [ya; yb];
  Ok ((x, y), rs).

Fixpoint new_points (vertices : list point) (vert_ids : list Z) (rs : MT19937.state)
  : result (list (Z * point) * MT19937.state) :=
  match vert_ids with
  | [] => Ok ([], rs)
  | idx :: ids' =>
      a ← getitem vertices (idx - 1);
      b ← getitem vertices idx;
      '(p, rs) ← new_point rs a b;
      '(ps, rs) ← new_points vertices ids' rs;
      Ok ((idx, p) :: ps, rs)
  end.

(** The splice of the new points into the vertices. *)
Fixpoint extend (vertices : list point) (offset : Z) (new : list (Z * point))
  : list point :=
  match new with
  | [] => py_slice vertices offset (Z.of_nat (length vertices))
  | (idx, entry) :: new' =>
      py_slice vertices offset idx ++ [entry] ++ extend vertices idx new'
  end.

(** [vert_ids.sort()] *)
Definition sort (l : list Z) : list Z := merge_sort Z.le l.

(** The branch of [transform_geometry] for type ids 1 and 3, on the
    coordinates of the geometry. *)
Definition transform_vertices (vertices : list point) (rs : MT19937.state)
    (max_points : Z) : result (list point * MT19937.state) :=
  let n := Z.of_nat (length vertices) in
  let size := Z.min max_points (ceil_div n 6) in
  '(vert_ids, rs) ← RandomState.randint_size 1 n size rs;
  let vert_ids := sort vert_ids in
  '(new, rs) ← new_points vertices vert_ids rs;
  Ok (extend vertices 0 new, rs).

Definition transform_geometry (geom : geometry) (rs : MT19937.state)
  : result (geometry * MT19937.state) :=
  match geom with
  | LineString vertices =>
      '(extended, rs) ← transform_vertices vertices rs 5;
      ls ← linestrings extended;
      Ok (LineString ls, rs)
  | Polygon rings =>
      '(extended, rs) ← transform_vertices (concat rings) rs 5;
      pg ← polygons extended;
      Ok (Polygon pg, rs)
  | MultiLineString parts =>
      '(part_idx, rs) ← RandomState.randint 0 (Z.of_nat (length parts)) rs;
      part ← getitem parts part_idx;
      '(extended, rs) ← transform_vertices part rs 5;
      ls ← linestrings extended;
      parts ← setitem parts part_idx ls;
      Ok (MultiLineString parts, rs)
  | MultiPolygon parts =>
      '(part_idx, rs) ← RandomState.randint 0 (Z.of_nat (length parts)) rs;
      part ← getitem parts part_idx;
      '(extended, rs) ← transform_vertices (concat part) rs 5;
      pg ← polygons extended;
      parts ← setitem parts part_idx pg;
      Ok (MultiPolygon parts, rs)
  | OtherGeometry _ => Raise ValueError
  end.

(** The state of the loop of [embed_geometries]: the frames so far, the
    offset, the generator, and the loop variable [idx], unbound before
    the first round. *)
Record embed_state : Type := {
  dfs : list frame;
  offset : Z;
  gen : MT19937.state;
  idx_var : option Z
}.

Definition embed_step (df : frame) (rand_geoms : list geometry)
    (p : Z * Z) (st : embed_state) : result embed_state :=
  let '(i, idx) := p in
  let before := slice df (offset st) idx in
  g ← getitem rand_geoms i;
  '(geom, rs) ← transform_geometry g (gen st);
  let row := slice df idx (idx + 1) in
  let row := {| columns := columns row; rows := rows row;
                geometry_column := Some [geom] |} in
  Ok {| dfs := dfs st ++ [before; row]; offset := idx + 1; gen := rs;
        idx_var := Some idx |}.

Definition embed_geometries (environ : option string) (self : ipr) (uuid : string)
  : result frame :=
  if negb (_has_geometry self) then Raise TypeError
  else
    let df := _df self in
    rs ← _random_state environ self uuid;
    '(indices, rand_geoms, rs) ← get_random_geometries self rs;
    st ← for_ (imap (fun i idx => (Z.of_nat i, idx)) indices)
              (embed_step df rand_geoms)
              {| dfs := []; offset := 0; gen := rs; idx_var := None |};
    idx ← match idx_var st with Some idx => Ok idx | None => Raise NameError end;
    let dfs := if idx <? len df then dfs st ++ [slice df (offset st) (len df)]
               else dfs st in
    Ok (concatenated true dfs).

(** The predicate [equals] of the geometry library: whether two
    geometries cover the same points. *)
Class Geos : Type := { equals : geometry -> geometry -> bool }.

(** The loop of [detect_geometries]; [test.predicates] needs a
    dataframe with geometries. *)
Fixpoint detect_loop `{Geos} (test : frame) (rand_geoms : list geometry)
    (rs : MT19937.state) : result bool :=
  match rand_geoms with
  | [] => Ok false
  | geom :: rest =>
      '(geom, rs) ← transform_geometry geom rs;
      match geometry_column test with
      | None => Raise AttributeError
      | Some test_geoms =>
          if existsb (fun t => equals t geom) test_geoms then Ok true
          else detect_loop test rest rs
      end
  end.

Definition detect_geometries `{Geos} (environ : option string) (self : ipr)
    (test : frame) (uuid : string) : result bool :=
  if negb (_has_geometry self) then Raise AssertionError
  else
    rs ← _random_state environ self uuid;
    '(indices, rand_geoms, rs) ← get_random_geometries self rs;
    detect_loop test rand_geoms rs.

End Vector.

(** * Properties *)

(** ** Loops and indexing *)

Lemma for_app {A S} (xs ys : list A) (body : A -> S -> result S) (s : S) :
  for_ (xs ++ ys) body s = s' ← for_ xs body s; for_ ys body s'.
Proof.
  revert s. induction xs as [|x xs IH]; intros s; simpl; [reflexivity|].
  destruct (body x s) as [s1|e]; simpl; [apply IH | reflexivity].
Qed.

(** A nested pair of loops runs the body over the row-major list of pairs. *)
Lemma for_nested {A B S} (ys : list A) (xs : list B)
      (body : A -> B -> S -> result S) (s : S) :
  for_ ys (fun y s => for_ xs (fun x s => body y x s) s) s
  = for_ (y ← ys; x ← xs; [(y, x)]) (fun p s => body p.1 p.2 s) s.
Proof.
  revert s. induction ys as [|y ys IH]; intros s; [reflexivity|].
  cbn [for_ mbind list_bind]. rewrite for_app.
  assert (Hrow : forall s0, for_ xs (fun x s => body y x s) s0
             = for_ (x ← xs; [(y, x)]) (fun p s => body p.1 p.2 s) s0).
  { clear. induction xs as [|x xs IHx]; intros s0; [reflexivity|].
    cbn. destruct (body y x s0); cbn; [apply IHx | reflexivity]. }
  rewrite <- Hrow.
  destruct (for_ xs (fun x s => body y x s) s) as [s1|e]; cbn; [apply IH | reflexivity].
Qed.

Lemma elem_of_range a b x : x ∈ range a b <-> a <= x < b.
Proof. unfold range. rewrite elem_of_seqZ. lia. Qed.

Lemma py_index_mod len i :
  - len <= i < len -> py_index len i = Ok (Z.to_nat (i mod len)).
Proof.
  intros H. unfold py_index.
  destruct (Z.leb_spec 0 i); cbn.
  - destruct (Z.ltb_spec i len); [|lia]. rewrite Z.mod_small by lia. reflexivity.
  - destruct (Z.leb_spec (- len) i); [|lia]. destruct (Z.ltb_spec i 0); [|lia]. cbn.
    replace (i mod len) with (i + len); [reflexivity|].
    rewrite <- (Z.mod_small (i + len) len) by lia.
    rewrite <- (Z.mod_add i 1 len) by lia. f_equal. lia.
Qed.

Lemma getitem_nat {A} (l : list A) (i : nat) a :
  l !! i = Some a -> getitem l (Z.of_nat i) = Ok a.
Proof.
  intros H. pose proof (lookup_lt_Some _ _ _ H). unfold getitem.
  rewrite py_index_mod by lia. cbn.
  rewrite Z.mod_small by lia. rewrite Nat2Z.id, H. reflexivity.
Qed.

(** ** Square matrices and cell writes *)

Section Squares.
Context {A : Type}.
Implicit Types (m s : list (list A)) (n : nat).

Definition square n m : Prop :=
  length m = n /\ Forall (fun row => length row = n) m.

Definition cell m (r c : nat) : option A := m !! r ≫= (.!! c).

Lemma square_row n m r row : square n m -> m !! r = Some row -> length row = n.
Proof.
  intros [_ Hrows] Hr. exact (Forall_lookup_1 _ _ _ _ Hrows Hr).
Qed.

Lemma square_cell_is_Some n m r c :
  square n m -> (r < n)%nat -> (c < n)%nat -> is_Some (cell m r c).
Proof.
  intros Hsq Hr Hc. unfold cell.
  destruct (lookup_lt_is_Some_2 m r) as [row Hrow]; [destruct Hsq; lia|].
  rewrite Hrow. cbn. apply lookup_lt_is_Some_2.
  rewrite (square_row _ _ _ _ Hsq Hrow). exact Hc.
Qed.

Lemma square_ext n m s :
  square n m -> square n s ->
  (forall r c, (r < n)%nat -> (c < n)%nat -> cell m r c = cell s r c) ->
  m = s.
Proof.
  intros Hm Hs Hcells.
  apply (list_eq_same_length m s n); [exact (proj1 Hs) | exact (proj1 Hm) |].
  intros r row1 row2 Hr H1 H2.
  apply (list_eq_same_length row1 row2 n);
    [exact (square_row _ _ _ _ Hs H2) | exact (square_row _ _ _ _ Hm H1) |].
  intros c a b Hc Ha Hb. specialize (Hcells r c Hr Hc).
  unfold cell in Hcells. rewrite H1, H2 in Hcells. cbn in Hcells. congruence.
Qed.

Lemma getitem2_cell m (r c : nat) a :
  cell m r c = Some a -> getitem2 m (Z.of_nat r) (Z.of_nat c) = Ok a.
Proof.
  unfold cell, getitem2. destruct (m !! r) as [row|] eqn:Hrow; [|discriminate].
  cbn. intros Hc. rewrite (getitem_nat _ _ _ Hrow). cbn. apply getitem_nat, Hc.
Qed.

(** A write through (possibly negative) indices succeeds on a square
    array and changes the one cell it names. *)
Lemma setitem2_square n m (i j : Z) a :
  square n m -> - Z.of_nat n <= i < Z.of_nat n -> - Z.of_nat n <= j < Z.of_nat n ->
  exists m', setitem2 m i j a = Ok m' /\ square n m'
    /\ cell m' (Z.to_nat (i mod Z.of_nat n)) (Z.to_nat (j mod Z.of_nat n)) = Some a
    /\ (forall r c, (r, c) <> (Z.to_nat (i mod Z.of_nat n), Z.to_nat (j mod Z.of_nat n)) ->
                    cell m' r c = cell m r c).
Proof.
  intros Hsq Hi Hj. pose proof Hsq as [Hlen Hrows].
  assert (Hn : (0 < n)%nat) by lia.
  set (r0 := Z.to_nat (i mod Z.of_nat n)). set (c0 := Z.to_nat (j mod Z.of_nat n)).
  assert (Hr0 : (r0 < n)%nat) by (subst r0; pose proof (Z.mod_pos_bound i (Z.of_nat n)); lia).
  assert (Hc0 : (c0 < n)%nat) by (subst c0; pose proof (Z.mod_pos_bound j (Z.of_nat n)); lia).
  destruct (lookup_lt_is_Some_2 m r0) as [row Hrow]; [lia|].
  pose proof (square_row _ _ _ _ Hsq Hrow) as Hrowlen.
  exists (<[r0 := <[c0 := a]> row]> m).
  unfold setitem2, getitem, setitem. rewrite Hlen.
  rewrite (py_index_mod _ i Hi). cbn. fold r0. rewrite Hrow. cbn.
  rewrite Hrowlen, (py_index_mod _ j Hj). cbn. fold r0 c0.
  split; [reflexivity|]. split; [|split].
  - split; [rewrite length_insert; exact Hlen|].
    apply Forall_insert; [exact Hrows | rewrite length_insert; exact Hrowlen].
  - unfold cell. rewrite list_lookup_insert_eq by lia. cbn.
    apply list_lookup_insert_eq. lia.
  - intros r c Hne. unfold cell.
    destruct (decide (r = r0)) as [->|Hr].
    + rewrite list_lookup_insert_eq by lia. rewrite Hrow. cbn.
      apply list_lookup_insert_ne. congruence.
    + rewrite list_lookup_insert_ne by congruence. reflexivity.
Qed.
End Squares.

(** A loop whose body copies one source value into one destination cell. *)
Section Writes.
Context {A P : Type}.
Variables (n : nat) (src : P -> result A) (di dj : P -> Z).

Definition write_body (p : P) (s : list (list A)) : result (list (list A)) :=
  v ← src p; setitem2 s (di p) (dj p) v.

Definition dst (p : P) : nat * nat :=
  (Z.to_nat (di p mod Z.of_nat n), Z.to_nat (dj p mod Z.of_nat n)).

Lemma for_writes (val : P -> A) (ps : list P) (s : list (list A)) :
  square n s ->
  (forall p, p ∈ ps ->
     src p = Ok (val p) /\ - Z.of_nat n <= di p < Z.of_nat n
     /\ - Z.of_nat n <= dj p < Z.of_nat n) ->
  (forall p q, p ∈ ps -> q ∈ ps -> dst p = dst q -> val p = val q) ->
  exists s', for_ ps write_body s = Ok s' /\ square n s'
    /\ (forall p, p ∈ ps -> cell s' (dst p).1 (dst p).2 = Some (val p))
    /\ (forall r c, (forall p, p ∈ ps -> dst p <> (r, c)) -> cell s' r c = cell s r c).
Proof.
  revert s. induction ps as [|p0 ps IH]; intros s Hsq Hok Hinj.
  - exists s. split; [reflexivity|]. split; [exact Hsq|].
    split; [intros p Hp; inversion Hp | reflexivity].
  - destruct (Hok p0 ltac:(left)) as (Hsrc & Hi & Hj).
    destruct (setitem2_square n s (di p0) (dj p0) (val p0) Hsq Hi Hj)
      as (s1 & Hset & Hsq1 & Hhit & Hframe).
    destruct (IH s1 Hsq1) as (s' & Hrun & Hsq' & Hvals & Hrest).
    { intros p Hp. apply Hok. right. exact Hp. }
    { intros p q Hp Hq. apply Hinj; right; assumption. }
    exists s'. split; [|split; [exact Hsq'|split]].
    + cbn [for_].
      replace (write_body p0 s) with (Ok (A:=list (list A)) s1); [exact Hrun|].
      unfold write_body. rewrite Hsrc. cbn. symmetry. exact Hset.
    + intros p Hp. apply elem_of_cons in Hp as [->|Hp]; [|apply Hvals, Hp].
      destruct (decide (dst p0 ∈ (dst <$> ps))) as [Hin|Hout].
      * apply list_elem_of_fmap in Hin as (q & Hq & Hqin).
        rewrite Hq. rewrite (Hvals q Hqin). f_equal. symmetry.
        apply Hinj; [left | right; exact Hqin | exact Hq].
      * rewrite Hrest; [exact Hhit|].
        intros q Hq Heq. apply Hout. apply list_elem_of_fmap. exists q.
        split; [|exact Hq]. rewrite Heq. destruct (dst p0); reflexivity.
    + intros r c Hnone. rewrite Hrest.
      * apply Hframe. intros Heq. apply (Hnone p0); [left|]. symmetry. exact Heq.
      * intros p Hp. apply Hnone. right. exact Hp.
Qed.
End Writes.

(** ** The Arnold map on one-based coordinates *)

Definition arnold (N : Z) (p : Z * Z) : Z * Z :=
  let '(y, x) := p in
  (((x + 2 * y) mod N - 1) mod N + 1, ((x + y) mod N - 1) mod N + 1).

Definition arnold_inv (N : Z) (p : Z * Z) : Z * Z :=
  let '(y, x) := p in
  (((- x + y) mod N - 1) mod N + 1, ((2 * x - y) mod N - 1) mod N + 1).

Lemma mod_of_shift a b k N : 0 <= b < N -> a = b + k * N -> a mod N = b.
Proof. intros Hb ->. rewrite Z.mod_add by lia. apply Z.mod_small, Hb. Qed.

Lemma arnold_range N y x : 0 < N -> 
  1 <= (arnold N (y, x)).1 <= N /\ 1 <= (arnold N (y, x)).2 <= N.
Proof.
  intros HN. cbn.
  pose proof (Z.mod_pos_bound ((x + 2 * y) mod N - 1) N HN).
  pose proof (Z.mod_pos_bound ((x + y) mod N - 1) N HN). lia.
Qed.

Lemma arnold_inv_range N y x : 0 < N -> 
  1 <= (arnold_inv N (y, x)).1 <= N /\ 1 <= (arnold_inv N (y, x)).2 <= N.
Proof.
  intros HN. cbn.
  pose proof (Z.mod_pos_bound ((- x + y) mod N - 1) N HN).
  pose proof (Z.mod_pos_bound ((2 * x - y) mod N - 1) N HN). lia.
Qed.

Lemma arnold_inv_arnold N y x :
  1 <= y <= N -> 1 <= x <= N -> arnold_inv N (arnold N (y, x)) = (y, x).
Proof.
  intros Hy Hx. assert (HN : N <> 0) by lia. cbn.
  set (u := (x + 2 * y) mod N - 1). set (w := (x + y) mod N - 1).
  rewrite !Zminus_mod_idemp_l.
  f_equal.
  - enough ((- (w mod N + 1) + (u mod N + 1) - 1) mod N = y - 1) by lia.
    apply mod_of_shift with (k := w / N - u / N + (x + y) / N - (x + 2 * y) / N); [lia|].
    subst u w. rewrite !Z.mod_eq by lia. ring.
  - enough ((2 * (w mod N + 1) - (u mod N + 1) - 1) mod N = x - 1) by lia.
    apply mod_of_shift with
      (k := - 2 * (w / N) + u / N - 2 * ((x + y) / N) + (x + 2 * y) / N); [lia|].
    subst u w. rewrite !Z.mod_eq by lia. ring.
Qed.

Lemma arnold_arnold_inv N y x :
  1 <= y <= N -> 1 <= x <= N -> arnold N (arnold_inv N (y, x)) = (y, x).
Proof.
  intros Hy Hx. assert (HN : N <> 0) by lia. cbn.
  set (u := (- x + y) mod N - 1). set (w := (2 * x - y) mod N - 1).
  rewrite !Zminus_mod_idemp_l.
  f_equal.
  - enough (((w mod N + 1) + 2 * (u mod N + 1) - 1) mod N = y - 1) by lia.
    apply mod_of_shift with
      (k := - (w / N) - 2 * (u / N) - (2 * x - y) / N - 2 * ((- x + y) / N)); [lia|].
    subst u w. rewrite !Z.mod_eq by lia. ring.
  - enough (((w mod N + 1) + (u mod N + 1) - 1) mod N = x - 1) by lia.
    apply mod_of_shift with
      (k := - (w / N) - u / N - (2 * x - y) / N - (- x + y) / N); [lia|].
    subst u w. rewrite !Z.mod_eq by lia. ring.
Qed.

(** ** One pass of [scramble] and of [unscramble] *)

Definition coords (n : nat) : list (Z * Z) :=
  y ← range 1 (Z.of_nat n + 1); x ← range 1 (Z.of_nat n + 1); [(y, x)].

Lemma elem_of_coords n p :
  p ∈ coords n <-> (1 <= p.1 <= Z.of_nat n) /\ (1 <= p.2 <= Z.of_nat n).
Proof.
  unfold coords. rewrite list_elem_of_bind. split.
  - intros (y & Hp & Hy). apply list_elem_of_bind in Hp as (x & Hp & Hx).
    apply list_elem_of_singleton in Hp as ->. cbn.
    apply elem_of_range in Hy, Hx. lia.
  - intros [Hy Hx]. exists p.1. split; [|apply elem_of_range; lia].
    apply list_elem_of_bind. exists p.2. split; [|apply elem_of_range; lia].
    destruct p. apply list_elem_of_singleton. reflexivity.
Qed.

(** The cell of a matrix at one-based coordinates [(y, x)]. *)
Definition at1 {A} (m : list (list A)) (p : Z * Z) : option A :=
  cell m (Z.to_nat (p.1 - 1)) (Z.to_nat (p.2 - 1)).

Lemma square_falses n : square n (Raster.falses (Z.of_nat n)).
Proof.
  unfold Raster.falses. rewrite Nat2Z.id. split; [apply length_replicate|].
  apply Forall_replicate, length_replicate.
Qed.

Section Pass.
(** [idx N y x] is the pair of indices the loop body writes to. *)
Variable idx : Z -> Z -> Z -> Z * Z.
Variable inv : Z -> Z * Z -> Z * Z.

Definition permute_pass (m : Raster.matrix) : result Raster.matrix :=
  let N := Z.of_nat (length m) in
  for_ (range 1 (N + 1)) (fun y s =>
    for_ (range 1 (N + 1)) (fun x s =>
      v ← getitem2 m (y - 1) (x - 1);
      setitem2 s (idx N y x).1 (idx N y x).2 v) s) (Raster.falses N).

Definition target (N : Z) (p : Z * Z) : Z * Z :=
  ((idx N p.1 p.2).1 mod N + 1, (idx N p.1 p.2).2 mod N + 1).

Hypothesis idx_range : forall N y x, 0 < N ->
  - N <= (idx N y x).1 < N /\ - N <= (idx N y x).2 < N.
Hypothesis inv_target : forall N y x,
  1 <= y <= N -> 1 <= x <= N -> inv N (target N (y, x)) = (y, x).

Lemma permute_pass_spec n (m : Raster.matrix) :
  square n m ->
  exists s, permute_pass m = Ok s /\ square n s
    /\ forall p, p ∈ coords n -> at1 s (target (Z.of_nat n) p) = at1 m p.
Proof.
  intros Hsq. unfold permute_pass. rewrite (proj1 Hsq).
  set (N := Z.of_nat n).
  rewrite (for_nested _ _ (fun y x s =>
    v ← getitem2 m (y - 1) (x - 1); setitem2 s (idx N y x).1 (idx N y x).2 v)).
  fold (coords n).
  pose (val := fun p : Z * Z => default false (at1 m p)).
  destruct (for_writes n (fun p => getitem2 m (p.1 - 1) (p.2 - 1))
              (fun p => (idx N p.1 p.2).1) (fun p => (idx N p.1 p.2).2)
              val (coords n) (Raster.falses N) (square_falses n))
    as (s & Hrun & Hsqs & Hvals & _).
  - intros p Hp. apply elem_of_coords in Hp as [Hy Hx]. split.
    + destruct (square_cell_is_Some n m (Z.to_nat (p.1 - 1)) (Z.to_nat (p.2 - 1)) Hsq)
        as [a Ha]; [lia | lia |].
      unfold val, at1. rewrite Ha. cbn.
      rewrite <- (getitem2_cell _ _ _ _ Ha). f_equal; lia.
    + apply idx_range. lia.
  - intros p q Hp Hq Heq. f_equal.
    apply elem_of_coords in Hp as [Hpy Hpx], Hq as [Hqy Hqx].
    assert (HN : 0 < N) by lia.
    destruct p as [py px], q as [qy qx]. cbn in *.
    rewrite <- (inv_target N py px), <- (inv_target N qy qx) by lia.
    f_equal. unfold target, dst in *. cbn in *.
    pose proof (Z.mod_pos_bound (idx N py px).1 N HN).
    pose proof (Z.mod_pos_bound (idx N py px).2 N HN).
    pose proof (Z.mod_pos_bound (idx N qy qx).1 N HN).
    pose proof (Z.mod_pos_bound (idx N qy qx).2 N HN).
    injection Heq as Heq1 Heq2. unfold N in *. f_equal; lia.
  - exists s. split; [exact Hrun|]. split; [exact Hsqs|].
    intros p Hp. specialize (Hvals p Hp).
    assert (Hsome : is_Some (at1 m p)).
    { apply elem_of_coords in Hp as [Hy Hx]. apply (square_cell_is_Some n); [exact Hsq|lia|lia]. }
    destruct Hsome as [a Ha]. rewrite Ha. unfold val in Hvals. rewrite Ha in Hvals.
    cbn in Hvals. rewrite <- Hvals. unfold at1, target, dst. cbn. subst N.
    f_equal; lia.
Qed.
End Pass.

Fixpoint iterate_pass {A} (pass : A -> result A) (k : nat) (a : A) : result A :=
  match k with
  | O => pass a
  | S k' => a' ← pass a; iterate_pass pass k' a'
  end.

Lemma scramble_iterate m k :
  Raster.scramble m k = iterate_pass Raster.scramble_pass (Z.to_nat (k - 1)) m.
Proof.
  remember (Z.to_nat (k - 1)) as j eqn:Hj. revert m k Hj.
  induction j as [|j IH]; intros m k Hj; simp scramble; cbn [iterate_pass];
    destruct (Raster.scramble_pass m) as [s|e]; cbn; try reflexivity;
    destruct (Z_gt_dec (k - 1) 0); cbn; try lia; try reflexivity.
  apply IH. lia.
Qed.

Lemma unscramble_iterate s k :
  Raster.unscramble s k = iterate_pass Raster.unscramble_pass (Z.to_nat (k - 1)) s.
Proof.
  remember (Z.to_nat (k - 1)) as j eqn:Hj. revert s k Hj.
  induction j as [|j IH]; intros s k Hj; simp unscramble; cbn [iterate_pass];
    destruct (Raster.unscramble_pass s) as [m|e]; cbn; try reflexivity;
    destruct (Z_gt_dec (k - 1) 0); cbn; try lia; try reflexivity.
  apply IH. lia.
Qed.

(** Iterating once more at the front or at the back is the same. *)
Lemma iterate_pass_snoc {A} (pass : A -> result A) k a :
  iterate_pass pass (S k) a = a' ← iterate_pass pass k a; pass a'.
Proof.
  revert a. induction k as [|k IH]; intros a.
  - cbn. destruct (pass a); reflexivity.
  - transitivity (a' ← pass a; iterate_pass pass (S k) a'); [reflexivity|].
    transitivity (a' ← (a1 ← pass a; iterate_pass pass k a1); pass a'); [|reflexivity].
    destruct (pass a) as [a1|e]; [exact (IH a1) | reflexivity].
Qed.

Definition scramble_idx (N y x : Z) : Z * Z := ((x + 2 * y) mod N - 1, (x + y) mod N - 1).
Definition unscramble_idx (N y x : Z) : Z * Z := ((- x + y) mod N - 1, (2 * x - y) mod N - 1).

Lemma scramble_pass_spec n (m : Raster.matrix) :
  square n m ->
  exists s, Raster.scramble_pass m = Ok s /\ square n s
    /\ forall p, p ∈ coords n -> at1 s (arnold (Z.of_nat n) p) = at1 m p.
Proof.
  intros Hsq.
  destruct (permute_pass_spec scramble_idx arnold_inv) with (n := n) (m := m)
    as (s & Hrun & Hs & Hcells); try assumption.
  - intros N y x HN. unfold scramble_idx. cbn.
    pose proof (Z.mod_pos_bound (x + 2 * y) N HN).
    pose proof (Z.mod_pos_bound (x + y) N HN). lia.
  - intros N y x Hy Hx. apply (arnold_inv_arnold N y x Hy Hx).
  - exists s. split; [exact Hrun|]. split; [exact Hs|].
    intros [y x] Hp. apply (Hcells (y, x) Hp).
Qed.

Lemma unscramble_pass_spec n (s : Raster.matrix) :
  square n s ->
  exists m, Raster.unscramble_pass s = Ok m /\ square n m
    /\ forall p, p ∈ coords n -> at1 m (arnold_inv (Z.of_nat n) p) = at1 s p.
Proof.
  intros Hsq.
  destruct (permute_pass_spec unscramble_idx arnold) with (n := n) (m := s)
    as (m & Hrun & Hm & Hcells); try assumption.
  - intros N y x HN. unfold unscramble_idx. cbn.
    pose proof (Z.mod_pos_bound (- x + y) N HN).
    pose proof (Z.mod_pos_bound (2 * x - y) N HN). lia.
  - intros N y x Hy Hx. apply (arnold_arnold_inv N y x Hy Hx).
  - exists m. split; [exact Hrun|]. split; [exact Hm|].
    intros [y x] Hp. apply (Hcells (y, x) Hp).
Qed.

Lemma unscramble_scramble_pass n (m s : Raster.matrix) :
  square n m -> Raster.scramble_pass m = Ok s ->
  square n s /\ Raster.unscramble_pass s = Ok m.
Proof.
  intros Hm Hrun.
  destruct (scramble_pass_spec n m Hm) as (s' & Hrun' & Hs & Hfwd).
  rewrite Hrun in Hrun'. injection Hrun' as <-. split; [exact Hs|].
  destruct (unscramble_pass_spec n s Hs) as (u & Hu & Hsqu & Hbwd).
  rewrite Hu. f_equal. apply (square_ext n); [exact Hsqu | exact Hm |].
  intros r c Hr Hc.
  set (p := (Z.of_nat r + 1, Z.of_nat c + 1)).
  assert (Hp : p ∈ coords n) by (apply elem_of_coords; cbn; lia).
  assert (Hq : arnold (Z.of_nat n) p ∈ coords n).
  { apply elem_of_coords. apply (arnold_range (Z.of_nat n) p.1 p.2). lia. }
  specialize (Hbwd _ Hq). rewrite (Hfwd _ Hp) in Hbwd.
  unfold p in Hbwd at 1. rewrite arnold_inv_arnold in Hbwd by lia.
  unfold at1, p in Hbwd. cbn in Hbwd.
  replace (Z.to_nat (Z.of_nat r + 1 - 1)) with r in Hbwd by lia.
  replace (Z.to_nat (Z.of_nat c + 1 - 1)) with c in Hbwd by lia.
  exact Hbwd.
Qed.

Lemma iterate_scramble_square n k (m s : Raster.matrix) :
  square n m -> iterate_pass Raster.scramble_pass k m = Ok s ->
  square n s /\ iterate_pass Raster.unscramble_pass k s = Ok m.
Proof.
  revert m s. induction k as [|k IH]; intros m s Hm Hrun.
  - apply (unscramble_scramble_pass n m s Hm Hrun).
  - cbn [iterate_pass] in Hrun.
    destruct (Raster.scramble_pass m) as [s1|e] eqn:H1; [|discriminate].
    cbn in Hrun. destruct (unscramble_scramble_pass n m s1 Hm H1) as [Hs1 Hback].
    destruct (IH s1 s Hs1 Hrun) as [Hs Hiter].
    split; [exact Hs|]. rewrite iterate_pass_snoc, Hiter. exact Hback.
Qed.

Lemma iterate_scramble_total n k (m : Raster.matrix) :
  square n m -> exists s, iterate_pass Raster.scramble_pass k m = Ok s.
Proof.
  revert m. induction k as [|k IH]; intros m Hm;
    destruct (scramble_pass_spec n m Hm) as (s1 & H1 & Hs1 & _).
  - exists s1. exact H1.
  - cbn [iterate_pass]. rewrite H1. cbn. apply IH, Hs1.
Qed.

(** The round trip for any side and any iteration count, as the code
    treats it: a count below one still runs one pass on each side. *)
Lemma unscramble_scramble n k (m : Raster.matrix) :
  square n m ->
  exists s, Raster.scramble m k = Ok s /\ square n s /\ Raster.unscramble s k = Ok m.
Proof.
  intros Hm. rewrite scramble_iterate.
  destruct (iterate_scramble_total n (Z.to_nat (k - 1)) m Hm) as [s Hs].
  destruct (iterate_scramble_square n _ m s Hm Hs) as [Hsq Hback].
  exists s. rewrite unscramble_iterate. auto.
Qed.

(** C2: for every square binary matrix [m] of side [n] between 2 and 32
    and every iteration count [k] between 1 and 32, [scramble m k]
    returns a matrix [s], and [unscramble s k] returns [m]. *)
Theorem unscramble_scramble_2_32 (n : nat) (k : Z) (m : Raster.matrix) :
  (2 <= n <= 32)%nat -> 1 <= k <= 32 -> square n m ->
  exists s, Raster.scramble m k = Ok s /\ Raster.unscramble s k = Ok m.
Proof.
  intros _ _ Hm. destruct (unscramble_scramble n k m Hm) as (s & Hs & _ & Hu).
  exists s. split; assumption.
Qed.

Lemma unscramble_scramble_2_32_witness :
  exists s, Raster.scramble [[true; false; true]; [false; false; true]; [true; true; false]] 20 = Ok s
         /\ Raster.unscramble s 20 = Ok [[true; false; true]; [false; false; true]; [true; true; false]].
Proof.
  apply (unscramble_scramble_2_32 3 20); [lia | lia |].
  split; [reflexivity | repeat constructor].
Defined.

(** C3, as the code computes it: one pass over [[T,F],[F,T]] gives
    [[F,T],[F,T]], and one inverse pass restores the input. *)
Theorem scramble_2x2_once :
  Raster.scramble [[true; false]; [false; true]] 1 = Ok [[false; true]; [false; true]]
  /\ Raster.unscramble [[false; true]; [false; true]] 1 = Ok [[true; false]; [false; true]].
Proof. split; vm_compute; reflexivity. Qed.

Lemma scramble_2x2_not_antidiagonal :
  Raster.scramble [[true; false]; [false; true]] 1 <> Ok [[false; true]; [true; false]].
Proof. vm_compute. discriminate. Qed.

(** ** Digest test vectors *)

Example sha512_abc :
  SHA512.digest_int (list_byte_of_string "abc") =
  0xddaf35a193617abacc417349ae20413112e6fa4e89a97ea20a9eeee64b55d39a2192992a274fc1a836ba3c23a3feebbd454d4423643ce80e2a9ac94fa54ca49f.
Proof. vm_compute. reflexivity. Qed.

(** ** Generator test vectors *)

Example mt19937_first_output :
  (MT19937.next_uint32 (MT19937.mt19937_seed 5489)).1 = 3499211612.
Proof. vm_compute. reflexivity. Qed.

Example mt19937_seed0_double :
  (MT19937.next_double (MT19937.mt19937_seed 0)).1 = 0x1.18fe1565f12a8p-1%float.
Proof. vm_compute. reflexivity. Qed.

Example randint_seed42 :
  (fun r => match r with Ok (vs, _) => vs | Raise _ => [] end)
    (st ← RandomState.of_seed 42; RandomState.randint_size 0 100 10 st)
  = [51; 92; 14; 71; 60; 20; 82; 86; 74; 74].
Proof. vm_compute. reflexivity. Qed.

(** ** The visible watermark on a single pixel *)

Module Scenario.
Import Raster.

(** A band of one sample [v]; its statistics are those of that sample. *)
Definition band_1x1 (c : color) (v : Z) : band Z :=
  {| interpretation := c; samples := [[v]]; nodata := None;
     statistics := [PyFloat.of_Z v; PyFloat.of_Z v; PyFloat.of_Z v; 0%float];
     color_count := None |}.

(** The 1x1 RGBA raster with pixel (200, 200, 200, 255). *)
Definition raster_1x1 : dataset Z :=
  {| RasterXSize := 1; RasterYSize := 1;
     bands := [band_1x1 Red 200; band_1x1 Green 200; band_1x1 Blue 200;
               band_1x1 Alpha 255] |}.

(** The 1x1 watermark with pixel (0, 0, 0, 255). *)
Definition watermark_1x1 : image :=
  {| im_mode := RGBA; im_width := 1; im_height := 1; im_data := [[[0; 0; 0; 255]]] |}.

Definition options (gray : bool) : fit_options :=
  {| to_gray := gray; fit := "original"; position := "center";
     distance := (None, None) |}.

(** The pixel of a dataset at row [i] and column [j], band by band. *)
Definition pixel_at (ds : dataset Z) (i j : nat) : list (option Z) :=
  (fun b => samples b !! i ≫= (.!! j)) <$> bands ds.

(** The object the constructor makes of the raster. *)
Definition self_1x1 : Watermark Z :=
  {| raster := raster_1x1; mode := mode_RGBA;
     band_interpretation := [(Red, 1); (Green, 2); (Blue, 3); (Alpha, 4)];
     paletteCount := None |}.

(** The dataset of the prepared watermark, and one of its bands. *)
Definition wm_band (c : color) (v : Z) : band Z :=
  {| interpretation := c; samples := [[v]]; nodata := None; statistics := [];
     color_count := None |}.

Definition wm_1x1 : dataset Z :=
  {| RasterXSize := 1; RasterYSize := 1;
     bands := [wm_band Red 0; wm_band Green 0; wm_band Blue 0; wm_band Alpha 255] |}.

(** A filter to run the scenario with; no image changes size in it. *)
Definition nearest_pillow : Pillow := {| resample := nearest |}.

Definition run `{Pillow} (gray : bool) : result (dataset Z) :=
  self ← Watermark_init raster_1x1 raster_1x1 None;
  embed_image self watermark_1x1 1 (options gray).

End Scenario.

(** C5, as the code computes it: the black watermark pixel has
    [wm_value * alpha = 0], which is not above the threshold, so the
    blending leaves the pixel alone and it stays (200, 200, 200, 255)
    when the watermark keeps its colours. *)
Theorem embed_image_1x1 `{Raster.Pillow} :
  PrimFloat.ltb Raster.threshold (Raster.wm_fraction 0 * Raster.wm_fraction 255)%float = false
  /\ Scenario.run false = Ok Scenario.raster_1x1
  /\ Scenario.pixel_at Scenario.raster_1x1 0 0 = [Some 200; Some 200; Some 200; Some 255].
Proof. repeat split; vm_compute; reflexivity. Qed.

(** The same run with the watermark converted to gray stops at the
    lookup of the red band of the watermark. *)
Example embed_image_1x1_gray `{Raster.Pillow} : Scenario.run true = Raise KeyError.
Proof. vm_compute. reflexivity. Qed.

Lemma embed_image_1x1_not_black :
  (forall out r g b a,
     Scenario.run (H:=Scenario.nearest_pillow) false = Ok out ->
     Scenario.pixel_at out 0 0 = [Some r; Some g; Some b; Some a] ->
     1 < r /\ 1 < g /\ 1 < b)
  /\ forall out, Scenario.run (H:=Scenario.nearest_pillow) true <> Ok out.
Proof.
  split.
  - intros out r g b a Hrun Hpx. vm_compute in Hrun. injection Hrun as <-.
    vm_compute in Hpx. injection Hpx as <- <- <- <-. lia.
  - intros out Hrun. vm_compute in Hrun. discriminate.
Qed.

(** ** Lists built under the result monad *)

Lemma mapM_Ok {A B} (f : A -> result B) (l : list A) (l' : list B) :
  mapM f l = Ok l' ->
  length l' = length l
  /\ forall i x, l !! i = Some x -> exists y, l' !! i = Some y /\ f x = Ok y.
Proof.
  revert l'. induction l as [|a l IH]; intros l' Hm; cbn in Hm.
  - injection Hm as <-. split; [reflexivity|]. intros i x Hi. destruct i; discriminate.
  - destruct (f a) as [b|e] eqn:Hfa; cbn in Hm; [|discriminate].
    destruct (mapM f l) as [k|e] eqn:Hl; cbn in Hm; [|discriminate].
    injection Hm as <-. destruct (IH k eq_refl) as [Hlen Hall].
    split; [cbn; congruence|]. intros [|i] x Hi; cbn in *.
    + injection Hi as <-. eauto.
    + apply Hall, Hi.
Qed.

(** ** Float comparisons *)

Lemma SFcompare_antisym a b c :
  SFcompare a b = Some c -> SFcompare b a = Some (CompOpp c).
Proof.
  destruct a as [sa|sa| |sa ma ea], b as [sb|sb| |sb mb eb]; cbn;
    try discriminate; intros Hc; injection Hc as <-;
    try (destruct sa; reflexivity); try (destruct sb; reflexivity);
    try (destruct sa, sb; reflexivity).
  pose proof (Pos.compare_cont_antisym ma mb Eq) as Hp. cbn [CompOpp] in Hp.
  destruct sa, sb; try reflexivity;
    rewrite (Z.compare_antisym ea eb); destruct (ea ?= eb)%Z; cbn; try reflexivity;
    rewrite <- Hp; reflexivity.
Qed.

(** [x <= y] excludes [y < x]. *)
Lemma leb_not_ltb (x y : float) :
  PrimFloat.leb x y = true -> PrimFloat.ltb y x = false.
Proof.
  rewrite FloatAxioms.leb_spec, FloatAxioms.ltb_spec. unfold SFleb, SFltb.
  destruct (SFcompare (Prim2SF x) (Prim2SF y)) as [c|] eqn:Hc; [|discriminate].
  rewrite (SFcompare_antisym _ _ _ Hc). destruct c; cbn; congruence.
Qed.

(** ** The band dictionary of the constructor *)

Lemma dict_set_values (d : Raster.band_dict) c v :
  v ∉ d.*2 -> NoDup d.*2 ->
  NoDup (Raster.dict_set d c v).*2
  /\ forall w, w ∈ (Raster.dict_set d c v).*2 -> w = v \/ w ∈ d.*2.
Proof.
  induction d as [|[k' v'] d IH]; intros Hv Hnd; cbn.
  - split; [apply NoDup_singleton|]. intros w Hw.
    apply list_elem_of_singleton in Hw. auto.
  - cbn in Hv, Hnd. apply not_elem_of_cons in Hv as [Hne Hv].
    apply NoDup_cons in Hnd as [Hv' Hnd].
    destruct (Raster.color_eqb c k'); cbn.
    + split; [apply NoDup_cons; auto|].
      intros w Hw. apply elem_of_cons in Hw as [->|Hw]; [auto|].
      right. right. exact Hw.
    + destruct (IH Hv Hnd) as [IHnd IHin]. split.
      * apply NoDup_cons. split; [|exact IHnd].
        intros Hin. destruct (IHin _ Hin) as [->|Hin']; [congruence|contradiction].
      * intros w Hw. apply elem_of_cons in Hw as [->|Hw]; [right; left|].
        destruct (IHin _ Hw) as [->|Hin']; [auto|]. right. right. exact Hin'.
Qed.

Lemma band_dict_fold {P} (l : list (Raster.band P)) (k : nat) (d : Raster.band_dict) :
  NoDup d.*2 -> (forall w, w ∈ d.*2 -> 1 <= w <= Z.of_nat k) ->
  let d' := foldl (fun d '(i, b) =>
                     if Raster.named (Raster.interpretation b)
                     then Raster.dict_set d (Raster.interpretation b) i else d)
                  d (imap (fun i b => (Z.of_nat (k + i) + 1, b)) l) in
  NoDup d'.*2 /\ forall w, w ∈ d'.*2 -> 1 <= w <= Z.of_nat (k + length l).
Proof.
  revert k d. induction l as [|b l IH]; intros k d Hnd Hle; cbn.
  - split; [exact Hnd|]. intros w Hw. specialize (Hle w Hw). lia.
  - assert (Hstep : exists d1,
      d1 = (if Raster.named (Raster.interpretation b)
            then Raster.dict_set d (Raster.interpretation b) (Z.of_nat (k + 0) + 1)
            else d)
      /\ NoDup d1.*2 /\ forall w, w ∈ d1.*2 -> 1 <= w <= Z.of_nat (S k)).
    { eexists. split; [reflexivity|].
      destruct (Raster.named (Raster.interpretation b)).
      - destruct (dict_set_values d (Raster.interpretation b) (Z.of_nat (k + 0) + 1))
          as [Hnd1 Hin1]; [|exact Hnd|].
        + intros Hin. specialize (Hle _ Hin). lia.
        + split; [exact Hnd1|]. intros w Hw.
          destruct (Hin1 w Hw) as [->|Hw']; [lia|]. specialize (Hle _ Hw'). lia.
      - split; [exact Hnd|]. intros w Hw. specialize (Hle _ Hw). lia. }
    destruct Hstep as (d1 & -> & Hnd1 & Hle1).
    specialize (IH (S k) _ Hnd1 Hle1). cbn in IH.
    replace (k + S (length l))%nat with (S (k + length l)) by lia.
    erewrite imap_ext; [exact IH|].
    intros i x _. cbn. f_equal. lia.
Qed.

Lemma getBandInterpretation_NoDup {P} (ds : Raster.dataset P) m d :
  Raster.getBandInterpretation ds = Ok (m, d) ->
  NoDup d.*2 /\ forall w, w ∈ d.*2 -> 1 <= w <= Z.of_nat (length (Raster.bands ds)).
Proof.
  unfold Raster.getBandInterpretation. cbv zeta.
  set (d0 := foldl _ ([] : Raster.band_dict) _).
  assert (Hfold : NoDup d0.*2
            /\ forall w, w ∈ d0.*2 -> 1 <= w <= Z.of_nat (length (Raster.bands ds))).
  { apply (band_dict_fold (Raster.bands ds) 0 []); [apply NoDup_nil_2|].
    intros w Hw. inversion Hw. }
  destruct Hfold as [Hnd Hle].
  intros Hrun.
  destruct (Raster.dict_has d0 Raster.Gray); [injection Hrun as <- <-; auto|].
  destruct (_ && (length d0 =? 3)%nat).
  - destruct (_ && negb (existsb (fun kv => kv.2 =? 4) d0)) eqn:Hfour;
      [|injection Hrun as <- <-; auto].
    destruct (Raster.GetRasterBand ds 4) as [b|] eqn:Hb; cbn in Hrun; [|discriminate].
    destruct (getitem (Raster.statistics b) 1); cbn in Hrun; [|discriminate].
    destruct (_ && PrimFloat.ltb _ _); injection Hrun as <- <-; auto.
    apply andb_true_iff in Hfour as [Hcount Hnot].
    apply negb_true_iff in Hnot.
    destruct (dict_set_values d0 Raster.Alpha 4) as [Hnd' Hin']; [|exact Hnd|].
    + intros Hin. apply list_elem_of_fmap in Hin as ([c w] & Hw & Hin). cbn in Hw. subst w.
      assert (existsb (fun kv : Raster.color * Z => kv.2 =? 4) d0 = true); [|congruence].
      apply existsb_exists. exists (c, 4). split; [apply list_elem_of_In, Hin|reflexivity].
    + split; [exact Hnd'|]. intros w Hw.
      destruct (Hin' w Hw) as [->|Hw']; [|auto].
      apply Z.eqb_eq in Hcount. lia.
  - destruct (_ && (length d0 =? 4)%nat); [injection Hrun as <- <-; auto|].
    destruct (Raster.dict_has d0 Raster.Palette); [injection Hrun as <- <-; auto|discriminate].
Qed.

Lemma Watermark_init_NoDup {P} (opened expanded : Raster.dataset P) epsg self :
  Raster.Watermark_init opened expanded epsg = Ok self ->
  NoDup (Raster.band_interpretation self).*2.
Proof.
  unfold Raster.Watermark_init. destruct epsg; [discriminate|].
  destruct (Raster.getBandInterpretation opened) as [[m d]|] eqn:Hopen; cbn; [|discriminate].
  assert (Hplain : Ok {| Raster.raster := opened; Raster.mode := m;
                         Raster.band_interpretation := d; Raster.paletteCount := None |}
                   = Ok self -> NoDup (Raster.band_interpretation self).*2).
  { intros Heq. injection Heq as <-. cbn.
    apply (getBandInterpretation_NoDup _ _ _ Hopen). }
  destruct m; try exact Hplain.
  destruct (Raster.dict_get d Raster.Palette); cbn; [|discriminate].
  destruct (Raster.GetRasterBand opened _) as [b|]; cbn; [|discriminate].
  destruct (Raster.color_count b); cbn; [|discriminate].
  destruct (Raster.getBandInterpretation expanded) as [[m' d']|] eqn:Hexp; cbn; [|discriminate].
  intros Heq. injection Heq as <-. cbn.
  apply (getBandInterpretation_NoDup _ _ _ Hexp).
Qed.

(** ** The pixel loop of [embed_image] *)

Lemma getitem_Ok_nat {A} (l : list A) (i : nat) a :
  getitem l (Z.of_nat i) = Ok a -> l !! i = Some a.
Proof.
  unfold getitem, py_index.
  destruct (Z.leb_spec 0 (Z.of_nat i)); [|lia].
  destruct (Z.ltb_spec (Z.of_nat i) (Z.of_nat (length l))); cbn.
  - rewrite Nat2Z.id. destruct (l !! i); intros Hx; [congruence|discriminate Hx].
  - destruct (Z.leb_spec (- Z.of_nat (length l)) (Z.of_nat i));
      destruct (Z.ltb_spec (Z.of_nat i) 0); cbn; intros Hx; try discriminate Hx; lia.
Qed.

Lemma getitem2_Ok_nat {A} (m : list (list A)) (i j : nat) a :
  getitem2 m (Z.of_nat i) (Z.of_nat j) = Ok a -> cell m i j = Some a.
Proof.
  unfold getitem2, cell.
  destruct (getitem m (Z.of_nat i)) as [row|] eqn:Hrow; cbn; [|discriminate].
  rewrite (getitem_Ok_nat _ _ _ Hrow). cbn. apply getitem_Ok_nat.
Qed.

Section Frame.
Import Raster.
Context {P : Type} `{Dtype P}.

(** A watermark pixel not above the threshold leaves the sample. *)
Lemma blend_below is_alpha max_alpha max_value nd tr v a (px : P) :
  PrimFloat.leb (wm_fraction v * wm_fraction a) threshold = true ->
  blend is_alpha max_alpha max_value nd tr v a px = Ok px.
Proof.
  intros Hle. unfold blend. rewrite (leb_not_ltb _ _ Hle). reflexivity.
Qed.

Lemma blend_band_spec is_alpha max_alpha max_value nd tr wm_arr wm_alpha_arr
      (raster_arr arr : list (list P)) :
  blend_band is_alpha max_alpha max_value nd tr wm_arr wm_alpha_arr raster_arr = Ok arr ->
  length arr = length raster_arr
  /\ forall i row, raster_arr !! i = Some row ->
       exists row', arr !! i = Some row' /\ length row' = length row
         /\ forall j px, row !! j = Some px ->
              exists v a px', cell wm_arr i j = Some v /\ cell wm_alpha_arr i j = Some a
                /\ row' !! j = Some px'
                /\ blend is_alpha max_alpha max_value nd tr v a px = Ok px'.
Proof.
  intros Hrun. apply mapM_Ok in Hrun as [Hlen Hrows].
  rewrite length_imap in Hlen. split; [exact Hlen|].
  intros i row Hrow.
  destruct (Hrows i (Z.of_nat i, row)) as (row' & Hrow' & Hcols).
  { rewrite list_lookup_imap, Hrow. reflexivity. }
  cbn in Hcols. apply mapM_Ok in Hcols as [Hlen' Hcols].
  rewrite length_imap in Hlen'.
  exists row'. split; [exact Hrow'|]. split; [exact Hlen'|].
  intros j px Hpx.
  destruct (Hcols j (Z.of_nat j, px)) as (px' & Hpx' & Hblend).
  { rewrite list_lookup_imap, Hpx. reflexivity. }
  cbn in Hblend.
  destruct (getitem2 wm_arr (Z.of_nat i) (Z.of_nat j)) as [v|] eqn:Hv; cbn in Hblend;
    [|discriminate].
  destruct (getitem2 wm_alpha_arr (Z.of_nat i) (Z.of_nat j)) as [a|] eqn:Ha; cbn in Hblend;
    [|discriminate].
  exists v, a, px'. repeat split; auto using getitem2_Ok_nat.
Qed.

End Frame.

(** The band of number [no] in a dataset. *)
Definition band_no {P} (ds : Raster.dataset P) (no : Z) : option (Raster.band P) :=
  if 1 <=? no then Raster.bands ds !! Z.to_nat (no - 1) else None.

Lemma GetRasterBand_Ok {P} (ds : Raster.dataset P) no b :
  Raster.GetRasterBand ds no = Ok b ->
  band_no ds no = Some b /\ 1 <= no <= Z.of_nat (length (Raster.bands ds)).
Proof.
  unfold Raster.GetRasterBand, band_no.
  destruct (Z.leb_spec 1 no); cbn; [|discriminate].
  destruct (Z.leb_spec no (Z.of_nat (length (Raster.bands ds)))); [|discriminate].
  intros Hg. replace (no - 1) with (Z.of_nat (Z.to_nat (no - 1))) in Hg by lia.
  apply getitem_Ok_nat in Hg. split; [exact Hg | lia].
Qed.

Lemma WriteArray_spec {P} (ds ds' : Raster.dataset P) no arr :
  Raster.WriteArray ds no arr = Ok ds' ->
  Raster.RasterXSize ds' = Raster.RasterXSize ds
  /\ Raster.RasterYSize ds' = Raster.RasterYSize ds
  /\ length (Raster.bands ds') = length (Raster.bands ds)
  /\ (exists b', band_no ds' no = Some b' /\ Raster.samples b' = arr)
  /\ forall no', no' <> no -> band_no ds' no' = band_no ds no'.
Proof.
  unfold Raster.WriteArray.
  destruct (Raster.GetRasterBand ds no) as [b|] eqn:Hb; cbn; [|discriminate].
  apply GetRasterBand_Ok in Hb as [Hb Hno].
  unfold setitem. rewrite py_index_mod by lia. cbn.
  rewrite Z.mod_small by lia. intros Hds. injection Hds as <-. cbn.
  split; [reflexivity|]. split; [reflexivity|].
  split; [apply length_insert|]. split.
  - eexists. unfold band_no. cbn. destruct (Z.leb_spec 1 no); [|lia].
    split; [apply list_lookup_insert_eq; lia | reflexivity].
  - intros no' Hne. unfold band_no. cbn. destruct (Z.leb_spec 1 no'); [|reflexivity].
    apply list_lookup_insert_ne. lia.
Qed.

Section EmbedLoop.
Import Raster.
Context {P : Type} `{Dtype P}.
Variables (self : Watermark P) (wm : dataset Z) (wm_bi : band_dict) (tr : float).

(** What the round for colour [c] and band number [no] writes: the
    band [b'] whose samples are the blend of the raster band with the
    watermark bands of that colour and of alpha. *)
Definition written (c : color) (no : Z) (b' : band P) : Prop :=
  exists b wb ab wm_no a_no max_value max_alpha,
    band_no (raster self) no = Some b
    /\ dict_get wm_bi c = Ok wm_no /\ band_no wm wm_no = Some wb
    /\ dict_get wm_bi Alpha = Ok a_no /\ band_no wm a_no = Some ab
    /\ blend_band (color_eqb c Alpha) max_alpha max_value (nodata b) tr
         (samples wb) (samples ab) (samples b) = Ok (samples b').

Lemma embed_band_spec c no (merged merged' : dataset P) :
  embed_band self wm wm_bi tr (c, no) merged = Ok merged' ->
  RasterXSize merged' = RasterXSize merged
  /\ RasterYSize merged' = RasterYSize merged
  /\ length (bands merged') = length (bands merged)
  /\ (exists b', band_no merged' no = Some b' /\ written c no b')
  /\ forall no', no' <> no -> band_no merged' no' = band_no merged no'.
Proof.
  unfold embed_band.
  destruct (GetRasterBand (raster self) no) as [b|] eqn:Hb; cbn; [|discriminate].
  destruct (getitem (statistics b) 1) as [max_value|]; cbn; [|discriminate].
  destruct (dict_get wm_bi c) as [wm_no|] eqn:Hwm; cbn; [|discriminate].
  destruct (GetRasterBand wm wm_no) as [wb|] eqn:Hwb; cbn; [|discriminate].
  destruct (dict_get wm_bi Alpha) as [a_no|] eqn:Hal; cbn; [|discriminate].
  destruct (GetRasterBand wm a_no) as [ab|] eqn:Hab; cbn; [|discriminate].
  destruct (if color_eqb c Alpha then _ else _) as [max_alpha|]; cbn; [|discriminate].
  destruct (blend_band _ _ _ _ _ _ _ _) as [arr|] eqn:Harr; cbn; [|discriminate].
  intros Hw. apply WriteArray_spec in Hw as (Hx & Hy & Hlen & (b' & Hb' & Hs) & Hother).
  repeat (split; [assumption|]). split; [|exact Hother].
  exists b'. split; [exact Hb'|].
  exists b, wb, ab, wm_no, a_no, max_value, max_alpha. subst arr.
  apply GetRasterBand_Ok in Hb as [Hb _], Hwb as [Hwb _], Hab as [Hab _].
  repeat split; assumption.
Qed.

Lemma embed_loop (bi : band_dict) (merged out : dataset P) :
  NoDup bi.*2 ->
  for_ bi (embed_band self wm wm_bi tr) merged = Ok out ->
  RasterXSize out = RasterXSize merged
  /\ RasterYSize out = RasterYSize merged
  /\ length (bands out) = length (bands merged)
  /\ (forall no, no ∉ bi.*2 -> band_no out no = band_no merged no)
  /\ forall c no, (c, no) ∈ bi -> exists b', band_no out no = Some b' /\ written c no b'.
Proof.
  revert merged. induction bi as [|[c0 no0] bi IH]; intros merged Hnd Hrun;
    cbn [for_] in Hrun.
  - injection Hrun as <-. do 3 (split; [reflexivity|]).
    split; [intros; reflexivity|]. intros c no Hin. inversion Hin.
  - destruct (embed_band self wm wm_bi tr (c0, no0) merged) as [m1|] eqn:Hstep;
      [|discriminate]. change (for_ bi (embed_band self wm wm_bi tr) m1 = Ok out) in Hrun.
    apply embed_band_spec in Hstep as (Hx1 & Hy1 & Hl1 & (b1 & Hb1 & Hw1) & Ho1).
    cbn in Hnd. apply NoDup_cons in Hnd as [Hfresh Hnd].
    destruct (IH m1 Hnd Hrun) as (Hx & Hy & Hl & Hout & Hin).
    split; [congruence|]. split; [congruence|]. split; [congruence|]. split.
    + intros no Hno. cbn in Hno. apply not_elem_of_cons in Hno as [Hne Hno].
      rewrite (Hout no Hno). apply Ho1, Hne.
    + intros c no Hcn. apply elem_of_cons in Hcn as [Heq|Hcn].
      * injection Heq as -> ->. exists b1. split; [|exact Hw1].
        rewrite (Hout no0 Hfresh). exact Hb1.
      * apply (Hin c no Hcn).
Qed.
End EmbedLoop.

(** C4: when the visible embedder accepts a raster and a watermark, the
    output has the width and the height of the input and as many bands,
    every band keeps its number of rows and the length of each row, and
    in every band the embedder processes, a sample at a position where
    the prepared watermark has [wm_value * alpha <= 0.1] is the sample
    of the input at that position. *)
Theorem embed_image_frame `{Raster.Pillow} {P : Type} `{Raster.Dtype P}
    (opened expanded : Raster.dataset P) (epsg : option Z) (self : Raster.Watermark P)
    (watermark : Raster.image) (transparency : float) (opts : Raster.fit_options)
    (wm : Raster.dataset Z) (wm_mode : Raster.raster_mode) (wm_bi : Raster.band_dict)
    (out : Raster.dataset P) :
  Raster.Watermark_init opened expanded epsg = Ok self ->
  Raster.translateWM self watermark opts = Ok wm ->
  Raster.getBandInterpretation wm = Ok (wm_mode, wm_bi) ->
  Raster.embed_image self watermark transparency opts = Ok out ->
  Raster.RasterXSize out = Raster.RasterXSize (Raster.raster self)
  /\ Raster.RasterYSize out = Raster.RasterYSize (Raster.raster self)
  /\ length (Raster.bands out) = length (Raster.bands (Raster.raster self))
  /\ (forall no b b',
        band_no (Raster.raster self) no = Some b -> band_no out no = Some b' ->
        length (Raster.samples b') = length (Raster.samples b)
        /\ forall i row row', Raster.samples b !! i = Some row ->
             Raster.samples b' !! i = Some row' -> length row' = length row)
  /\ forall c no wm_no a_no b wb ab i j px v a,
       (c, no) ∈ Raster.band_interpretation self ->
       band_no (Raster.raster self) no = Some b ->
       Raster.dict_get wm_bi c = Ok wm_no -> band_no wm wm_no = Some wb ->
       Raster.dict_get wm_bi Raster.Alpha = Ok a_no -> band_no wm a_no = Some ab ->
       cell (Raster.samples b) i j = Some px ->
       cell (Raster.samples wb) i j = Some v ->
       cell (Raster.samples ab) i j = Some a ->
       PrimFloat.leb (Raster.wm_fraction v * Raster.wm_fraction a) Raster.threshold = true ->
       exists b', band_no out no = Some b' /\ cell (Raster.samples b') i j = Some px.
Proof.
  intros Hinit Hwm Hbi Hrun. unfold Raster.embed_image in Hrun.
  rewrite Hwm in Hrun. cbn in Hrun. rewrite Hbi in Hrun. cbn in Hrun.
  destruct (for_ _ _ _) as [merged|] eqn:Hloop; cbn in Hrun; [|discriminate].
  destruct (Raster.paletteCount self); [discriminate|]. injection Hrun as <-.
  apply embed_loop in Hloop as (Hx & Hy & Hlen & Hout & Hin);
    [|exact (Watermark_init_NoDup _ _ _ _ Hinit)].
  split; [exact Hx|]. split; [exact Hy|]. split; [exact Hlen|]. split.
  - intros no b b' Hb Hb'.
    destruct (decide (no ∈ (Raster.band_interpretation self).*2)) as [Hno|Hno].
    + apply list_elem_of_fmap in Hno as ([c no'] & Heq & Hcn). cbn in Heq. subst no'.
      destruct (Hin c no Hcn) as (b1 & Hb1 & Hw).
      assert (b1 = b') by congruence. subst b1.
      destruct Hw as (b0 & wb & ab & wm_no & a_no & mv & ma & Hb0 & _ & _ & _ & _ & Hblend).
      assert (b0 = b) by congruence. subst b0.
      apply blend_band_spec in Hblend as [Hl Hrows]. split; [exact Hl|].
      intros i row row' Hrow Hrow'.
      destruct (Hrows i row Hrow) as (row1 & Hrow1 & Hl1 & _). congruence.
    + rewrite (Hout no Hno) in Hb'. assert (b' = b) by congruence. subst b'.
      split; [reflexivity|]. intros i row row' Hrow Hrow'. congruence.
  - intros c no wm_no a_no b wb ab i j px v a Hcn Hb Hc Hwb Ha Hab Hpx Hv Hal Hle.
    destruct (Hin c no Hcn) as (b' & Hb' & Hw). exists b'. split; [exact Hb'|].
    destruct Hw as (b0 & wb0 & ab0 & wm_no0 & a_no0 & mv & ma
                    & Hb0 & Hc0 & Hwb0 & Ha0 & Hab0 & Hblend).
    assert (b0 = b) by congruence. subst b0.
    assert (wm_no0 = wm_no) by congruence. subst wm_no0.
    assert (a_no0 = a_no) by congruence. subst a_no0.
    assert (wb0 = wb) by congruence. subst wb0.
    assert (ab0 = ab) by congruence. subst ab0.
    apply blend_band_spec in Hblend as [_ Hrows].
    unfold cell in Hpx. destruct (Raster.samples b !! i) as [row|] eqn:Hrow; [|discriminate].
    cbn in Hpx. destruct (Hrows i row Hrow) as (row' & Hrow' & _ & Hcols).
    destruct (Hcols j px Hpx) as (v' & a' & px' & Hv' & Ha' & Hpx' & Hblend).
    assert (v' = v) by congruence. assert (a' = a) by congruence. subst v' a'.
    rewrite (blend_below _ _ _ _ _ _ _ _ Hle) in Hblend. injection Hblend as <-.
    unfold cell. rewrite Hrow'. exact Hpx'.
Qed.

Lemma embed_image_frame_witness :
  exists b', band_no Scenario.raster_1x1 1 = Some b'
             /\ cell (Raster.samples b') 0 0 = Some 200.
Proof.
  refine (proj2 (proj2 (proj2 (proj2
    (embed_image_frame (H:=Scenario.nearest_pillow)
       Scenario.raster_1x1 Scenario.raster_1x1 None Scenario.self_1x1
       Scenario.watermark_1x1 1 (Scenario.options false) Scenario.wm_1x1
       Raster.mode_RGBA [(Raster.Red, 1); (Raster.Green, 2); (Raster.Blue, 3); (Raster.Alpha, 4)]
       Scenario.raster_1x1 _ _ _ _))))
    Raster.Red 1 1 4 (Scenario.band_1x1 Raster.Red 200)
    (Scenario.wm_band Raster.Red 0) (Scenario.wm_band Raster.Alpha 255)
    0%nat 0%nat 200 0 255 _ _ _ _ _ _ _ _ _ _);
    try (vm_compute; reflexivity).
  left.
Defined.

(** ** The text of an integer *)

Lemma length_string_of_list_ascii (l : list ascii) :
  String.length (string_of_list_ascii l) = length l.
Proof. induction l as [|c l IH]; cbn; congruence. Qed.

Lemma digits_rev_length (d : nat) :
  forall (fuel : nat) (n : Z),
    (d < fuel)%nat -> 0 <= n < 10 ^ Z.of_nat (S d) -> (d = 0%nat \/ 10 ^ Z.of_nat d <= n) ->
    length (PyStr.digits_rev fuel n) = S d.
Proof.
  induction d as [|d IH]; intros fuel n Hfuel Hn Hlow;
    (destruct fuel as [|fuel]; [lia|]); cbn [PyStr.digits_rev].
  - destruct (Z.ltb_spec n 10); [reflexivity|]. change (10 ^ Z.of_nat 1) with 10 in Hn. lia.
  - assert (Hp : 10 ^ Z.of_nat (S d) = 10 * 10 ^ Z.of_nat d).
    { rewrite Nat2Z.inj_succ, Z.pow_succ_r by lia. reflexivity. }
    assert (Hp' : 10 ^ Z.of_nat (S (S d)) = 10 * 10 ^ Z.of_nat (S d)).
    { rewrite (Nat2Z.inj_succ (S d)), Z.pow_succ_r by lia. reflexivity. }
    assert (Hpos : 0 < 10 ^ Z.of_nat d) by (apply Z.pow_pos_nonneg; lia).
    destruct Hlow as [Hlow|Hlow]; [discriminate|].
    destruct (Z.ltb_spec n 10); [lia|]. cbn [length]. f_equal.
    apply IH; [lia| |].
    + split; [apply Z.div_pos; lia|].
      apply Z.div_lt_upper_bound; lia.
    + right. apply Z.div_le_lower_bound; lia.
Qed.

(** A positive integer with [d] digits has a text of [d] characters. *)
Lemma str_int_length (v d : Z) :
  1 <= d -> 10 ^ (d - 1) <= v < 10 ^ d ->
  Z.of_nat (String.length (PyStr.str_int v)) = d.
Proof.
  intros Hd Hv.
  assert (Hpos : 0 < 10 ^ (d - 1)) by (apply Z.pow_pos_nonneg; lia).
  unfold PyStr.str_int. destruct (Z.ltb_spec v 0); [lia|].
  rewrite length_string_of_list_ascii, length_rev, Z.abs_eq by lia.
  rewrite (digits_rev_length (Z.to_nat (d - 1))).
  - lia.
  - assert (d - 1 <= Z.log2 v); [|lia].
    transitivity (Z.log2 (2 ^ (d - 1))); [rewrite Z.log2_pow2; lia|].
    apply Z.log2_le_mono. transitivity (10 ^ (d - 1)); [|lia].
    apply Z.pow_le_mono_l. lia.
  - replace (Z.of_nat (S (Z.to_nat (d - 1)))) with d by lia. lia.
  - right. replace (Z.of_nat (Z.to_nat (d - 1))) with (d - 1) by lia. lia.
Qed.

(** ** Bounded draws *)

Lemma retry_Some {A} (fuel : positive) (draw : MT19937.state -> option A * MT19937.state)
      st a st' :
  RandomState.retry fuel draw st = (Some a, st') ->
  exists st0, draw st0 = (Some a, st').
Proof.
  revert st. induction fuel as [f IH|f IH|]; intros st; cbn.
  - destruct (draw st) as [[a1|] st1] eqn:Hd.
    + intros Heq. injection Heq as <- <-. eauto.
    + destruct (RandomState.retry f draw st1) as [[a2|] st2] eqn:Hr.
      * intros Heq. injection Heq as <- <-. apply (IH st1), Hr.
      * apply IH.
  - destruct (RandomState.retry f draw st) as [[a1|] st1] eqn:Hr.
    + intros Heq. injection Heq as <- <-. apply (IH st), Hr.
    + apply IH.
  - eauto.
Qed.

Lemma masked_Some next rng st val st' :
  0 < rng ->
  RandomState.masked next rng (RandomState.gen_mask rng) st = (Some val, st') ->
  0 <= val <= rng.
Proof.
  intros Hrng. unfold RandomState.masked. destruct (next st) as [v st1].
  destruct (Z.leb_spec (Z.land v (RandomState.gen_mask rng)) rng); [|discriminate].
  intros Heq. injection Heq as <- <-. split; [|assumption].
  apply Z.land_nonneg. right. unfold RandomState.gen_mask.
  rewrite Z.ones_equiv. pose proof (Z.log2_nonneg rng).
  assert (0 < 2 ^ (Z.log2 rng + 1)) by (apply Z.pow_pos_nonneg; lia). lia.
Qed.

(** A bounded draw that returns stays within its range, whatever the
    state of the generator. *)
Lemma random_bounded_uint64_range off rng st v st' :
  0 <= off -> 0 <= rng -> off + rng < 2 ^ 64 ->
  rng <> 0xFFFFFFFF -> rng <> 0xFFFFFFFFFFFFFFFF ->
  RandomState.random_bounded_uint64 off rng st = Ok (v, st') ->
  off <= v <= off + rng.
Proof.
  intros Hoff Hrng Hsum H32 H64. unfold RandomState.random_bounded_uint64.
  destruct (Z.eqb_spec rng 0) as [->|Hnz].
  { intros Heq. injection Heq as <- <-. lia. }
  assert (Hfin : forall next,
    match RandomState.retry RandomState.retry_limit
            (RandomState.masked next rng (RandomState.gen_mask rng)) st with
    | (Some val, st0) => Ok (MT19937.u64 (off + val), st0)
    | (None, _) => Raise Unfinished
    end = Ok (v, st') -> off <= v <= off + rng).
  { intros next.
    destruct (RandomState.retry _ _ st) as [[val|] st0] eqn:Hr; [|discriminate].
    apply retry_Some in Hr as [st1 Hr]. apply masked_Some in Hr; [|lia].
    intros Heq. injection Heq as <- <-. unfold MT19937.u64.
    rewrite Z.mod_small by lia. lia. }
  destruct (rng <=? 0xFFFFFFFF).
  - destruct (Z.eqb_spec rng 0xFFFFFFFF); [contradiction|]. apply Hfin.
  - destruct (Z.eqb_spec rng 0xFFFFFFFFFFFFFFFF); [contradiction|]. apply Hfin.
Qed.

Lemma random_bounded_uint64_Raise off rng st e :
  RandomState.random_bounded_uint64 off rng st = Raise e -> e = Unfinished.
Proof.
  unfold RandomState.random_bounded_uint64.
  destruct (rng =? 0); [discriminate|].
  destruct (rng <=? 0xFFFFFFFF).
  - destruct (rng =? 0xFFFFFFFF).
    + destruct (MT19937.next_uint32 st). discriminate.
    + destruct (RandomState.retry _ _ st) as [[val|] st0]; [discriminate|congruence].
  - destruct (rng =? 0xFFFFFFFFFFFFFFFF).
    + destruct (MT19937.next_uint64 st). discriminate.
    + destruct (RandomState.retry _ _ st) as [[val|] st0]; [discriminate|congruence].
Qed.

Lemma check_bounds_Ok low high :
  0 <= low < high -> high <= 2 ^ 63 ->
  RandomState.check_bounds low high = Ok (low, high - 1 - low).
Proof.
  intros Hlh Hhi. unfold RandomState.check_bounds.
  destruct (Z.ltb_spec low (- 2 ^ 63)); [lia|].
  destruct (Z.gtb_spec (high - 1) (2 ^ 63 - 1)); [lia|].
  destruct (Z.gtb_spec low (high - 1)); [lia|].
  unfold MT19937.u64. rewrite Z.mod_small by lia. reflexivity.
Qed.

(** [randint(low, high)] on valid bounds: a returned value lies in
    [[low, high)], and the only other outcome is the cut of the loop. *)
Lemma randint_range low high st :
  0 <= low < high -> high <= 2 ^ 63 -> high - 1 - low <> 0xFFFFFFFF ->
  match RandomState.randint low high st with
  | Ok (r, _) => low <= r < high
  | Raise e => e = Unfinished
  end.
Proof.
  intros Hlh Hhi H32. unfold RandomState.randint.
  rewrite (check_bounds_Ok low high Hlh Hhi). cbn.
  destruct (RandomState.random_bounded_uint64 low (high - 1 - low) st) as [[v st']|e] eqn:Hr;
    cbn.
  - apply random_bounded_uint64_range in Hr; try lia.
    unfold RandomState.int64_of_uint64. destruct (Z.ltb_spec v (2 ^ 63)); lia.
  - apply (random_bounded_uint64_Raise _ _ _ _ Hr).
Qed.

(** ** [transform_value] on integers *)







(** Every positive integer has a number of digits. *)
Lemma digits_exist (v : Z) :
  1 <= v -> exists d, 1 <= d /\ 10 ^ (d - 1) <= v < 10 ^ d.
Proof.
  intros Hv.
  assert (Hbound : forall n : nat, forall v, 1 <= v < 10 ^ Z.of_nat n ->
            exists d, 1 <= d /\ 10 ^ (d - 1) <= v < 10 ^ d).
  { induction n as [|n IH]; intros w Hw.
    - change (10 ^ Z.of_nat 0) with 1 in Hw. lia.
    - destruct (Z_lt_le_dec w (10 ^ Z.of_nat n)) as [Hlt|Hge].
      + apply IH. lia.
      + exists (Z.of_nat (S n)). split; [lia|].
        replace (Z.of_nat (S n) - 1) with (Z.of_nat n) by lia. lia. }
  apply (Hbound (Z.to_nat v)). split; [lia|].
  rewrite Z2Nat.id by lia.
  assert (Hlt : v < 2 ^ v) by (apply Z.pow_gt_lin_r; lia).
  assert (2 ^ v <= 10 ^ v) by (apply Z.pow_le_mono_l; lia). lia.
Qed.






(** The call of the specification's scenario returns, with four digits. *)
Example transform_value_1234_42 :
  Vector.transform_value (Vector.VInt 1234) 42 = Ok (Vector.VInt 8270).
Proof. vm_compute. reflexivity. Qed.


(** ** [transform_value] on strings *)

(** The reading of the specification (section 4.7), to compare with
    [Vector.transform_value] on strings: the text cut into its
    matches and the characters between them, and every match replaced
    where it stands, the i-th one under the seed [seed + i]. *)
Fixpoint spec_pieces (cur : option string) (s : string) : list (bool * string) :=
  match s with
  | EmptyString => match cur with Some m => [(true, m)] | None => [] end
  | String c s' =>
      match cur with
      | Some m =>
          if PyStr.is_digit c then spec_pieces (Some (m ++ String c EmptyString)%string) s'
          else (true, m) :: (false, String c EmptyString) :: spec_pieces None s'
      | None =>
          if Vector.is_nonzero_digit c then spec_pieces (Some (String c EmptyString)) s'
          else (false, String c EmptyString) :: spec_pieces None s'
      end
  end.

Fixpoint spec_replace_pieces (seed i : Z) (ps : list (bool * string)) : result string :=
  match ps with
  | [] => Ok EmptyString
  | (false, t) :: ps' => rest ← spec_replace_pieces seed i ps'; Ok (t ++ rest)%string
  | (true, m) :: ps' =>
      n ← PyStr.int_of_str m;
      t ← Vector.transform_int n (seed + i);
      rest ← spec_replace_pieces seed (i + 1) ps';
      Ok (PyStr.str_int t ++ rest)%string
  end.

Definition spec_transform_str (s : string) (seed : Z) : result string :=
  spec_replace_pieces seed 0 (spec_pieces None s).

(** C7 at two inputs.  In ["1 1"] under seed 1 the two matches get 6
    and 9, yet the first replacement rewrites both and the second finds
    nothing left; in ["12 2"] under seed 6 the matches get 20 and 5, and
    the second replacement also rewrites the 2 of the 20. *)
Theorem transform_value_str_replaces_all :
  (Vector.transform_int 1 1 = Ok 6 /\ Vector.transform_int 1 2 = Ok 9
   /\ spec_transform_str "1 1" 1 = Ok "6 9"%string
   /\ Vector.transform_value (Vector.VStr "1 1") 1 = Ok (Vector.VStr "6 6"))
  /\ (Vector.transform_int 12 6 = Ok 20 /\ Vector.transform_int 2 7 = Ok 5
      /\ spec_transform_str "12 2" 6 = Ok "20 5"%string
      /\ Vector.transform_value (Vector.VStr "12 2") 6 = Ok (Vector.VStr "50 5")).
Proof. repeat split; vm_compute; reflexivity. Qed.

(** ** The keyed generator *)

(** A request for draws, and what it returns. *)
Inductive request : Type :=
| Randint (low high : Z)
| RandintSize (low high size : Z)
| RandomSample.

Inductive drawn : Type :=
| DInt (z : Z)
| DInts (l : list Z)
| DFloat (f : float).

Definition draw (r : request) (rs : MT19937.state) : result (drawn * MT19937.state) :=
  match r with
  | Randint low high => '(z, rs) ← RandomState.randint low high rs; Ok (DInt z, rs)
  | RandintSize low high size =>
      '(l, rs) ← RandomState.randint_size low high size rs; Ok (DInts l, rs)
  | RandomSample => let '(f, rs) := RandomState.random_sample rs in Ok (DFloat f, rs)
  end.

(** The draws a list of requests gets, in order, from one generator. *)
Fixpoint draws (reqs : list request) (rs : MT19937.state) : result (list drawn) :=
  match reqs with
  | [] => Ok []
  | r :: reqs' =>
      '(d, rs) ← draw r rs;
      ds ← draws reqs' rs;
      Ok (d :: ds)
  end.


(** ** Digests are below [2^512] *)







(** ** More inputs than digests *)






(** ** The digest has eight words, and the seed tells digests apart *)









(** Two marker ids under one secret that the generator tells apart:
    other seeds, and other first draws. *)
Example random_state_tells_apart :
  Vector.seed_of "a" "k" <> Vector.seed_of "b" "k"
  /\ (rs ← Vector._random_state (Some "k"%string)
              {| Vector._df := {| Vector.columns := []; Vector.rows := [];
                                  Vector.geometry_column := None |};
                 Vector.__key := None |} "a"; draws [Randint 0 1000] rs)
     <> (rs ← Vector._random_state (Some "k"%string)
                {| Vector._df := {| Vector.columns := []; Vector.rows := [];
                                    Vector.geometry_column := None |};
                   Vector.__key := None |} "b"; draws [Randint 0 1000] rs).
Proof. split; vm_compute; discriminate. Qed.


(** ** Fictitious entries *)

(** A row of the suspect equals the one-row frame [row] on the columns
    both have. *)
Definition match_one (test_cols : list string) (row0 r : list Vector.value)
    (p : nat * string) : bool :=
  match Vector.column_index p.2 test_cols with
  | Some pos =>
      Vector.value_eqb (default Vector.VNone (r !! pos))
                       (default Vector.VNone (row0 !! p.1))
  | None => true
  end.

Definition row_matches (test_cols row_cols : list string) (row0 r : list Vector.value) : bool :=
  forallb (match_one test_cols row0 r) (imap (fun i col => (i, col)) row_cols).

Definition count_matches (test row : Vector.frame) : nat :=
  length (List.filter
            (row_matches (Vector.columns test) (Vector.columns row)
                         (default [] (Vector.rows row !! 0%nat)))
            (Vector.rows test)).

Lemma filter_andb {A} (f g : A -> bool) (l : list A) :
  List.filter (fun a => f a && g a) l = List.filter g (List.filter f l).
Proof.
  induction l as [|a l IH]; cbn; [reflexivity|].
  destruct (f a); cbn; [destruct (g a); cbn; congruence | exact IH].
Qed.

Lemma filter_true {A} (l : list A) : List.filter (fun _ => true) l = l.
Proof. induction l as [|a l IH]; cbn; congruence. Qed.

Lemma contains_elem_of col cols : Vector.contains col cols = true <-> col ∈ cols.
Proof.
  unfold Vector.contains. rewrite existsb_exists. split.
  - intros (c & Hin & Heq). apply String.eqb_eq in Heq. subst c.
    apply list_elem_of_In, Hin.
  - intros Hin. exists col. split; [apply list_elem_of_In, Hin | apply String.eqb_refl].
Qed.

Lemma column_index_elem_of col cols :
  col ∈ cols <-> is_Some (Vector.column_index col cols).
Proof.
  induction cols as [|c cols IH]; cbn.
  - split; [intros Hin; inversion Hin | intros [x Hx]; discriminate].
  - destruct (String.eqb_spec col c) as [->|Hne].
    + split; [eauto | intros _; left].
    + rewrite elem_of_cons, IH, fmap_is_Some. split; [intros [?|?]; [contradiction|auto] | auto].
Qed.

(** The order by sparsity holds the columns of the dataframe. *)
Lemma insert_desc_perm x l : Vector.insert_desc x l ≡ₚ x :: l.
Proof.
  induction l as [|y l IH]; cbn; [reflexivity|].
  destruct (PrimFloat.ltb y.2 x.2); [reflexivity|].
  rewrite IH. apply Permutation_swap.
Qed.

Lemma sorted_desc_perm l : Vector.sorted_desc l ≡ₚ l.
Proof.
  unfold Vector.sorted_desc.
  enough (Hgen : forall acc, foldl (fun acc x => Vector.insert_desc x acc) acc l ≡ₚ acc ++ l)
    by apply (Hgen []).
  induction l as [|x l IH]; intros acc; cbn; [rewrite app_nil_r; reflexivity|].
  rewrite IH, insert_desc_perm. cbn. apply Permutation_middle.
Qed.

Lemma fst_imap_pair {A B} (f : nat -> A -> B) (l : list A) :
  (imap (fun i a => (a, f i a)) l).*1 = l.
Proof.
  revert f. induction l as [|a l IH]; intros f; cbn; [reflexivity|].
  f_equal. apply (IH (fun i => f (S i))).
Qed.

Lemma order_columns_perm self n picked ordered :
  Vector._order_columns_by_sparsity self n picked = Ok ordered ->
  ordered ≡ₚ Vector.columns (Vector._df self).
Proof.
  unfold Vector._order_columns_by_sparsity.
  destruct (if n <? Vector.len (Vector._df self) then _ else _) as [sample|]; cbn;
    [|discriminate].
  intros Heq. injection Heq as <-. rewrite sorted_desc_perm, fst_imap_pair. reflexivity.
Qed.

Lemma filter_by_columns_Ok test_cols ordered row0 (ncols : list (nat * string)) part :
  (forall col, Vector.contains col ordered = true
               <-> is_Some (Vector.column_index col test_cols)) ->
  Forall (fun p : nat * string => (p.1 < length row0)%nat) ncols ->
  Vector.filter_by_columns test_cols ordered row0
    ((fun p : nat * string => (Z.of_nat p.1, p.2)) <$> ncols) part
  = Ok (length (List.filter (fun r => forallb (match_one test_cols row0 r) ncols) part)
        =? 1)%nat.
Proof.
  intros Hord Hlen. revert part.
  induction Hlen as [|[i col] ncols Hi _ IH]; intros part; cbn.
  - rewrite filter_true. reflexivity.
  - cbn in Hi. destruct (Vector.contains col ordered) eqn:Hc; cbn.
    + destruct (lookup_lt_is_Some_2 row0 i Hi) as [v Hv].
      rewrite (getitem_nat _ _ _ Hv). cbn.
      destruct (proj1 (Hord col) Hc) as [pos Hpos]. rewrite Hpos. cbn.
      rewrite (filter_andb (fun r => match_one test_cols row0 r (i, col))
                           (fun r => forallb (match_one test_cols row0 r) ncols)).
      assert (Hsame : List.filter (fun r => match_one test_cols row0 r (i, col)) part
                      = List.filter (fun r => Vector.value_eqb (default Vector.VNone (r !! pos)) v)
                                    part).
      { apply filter_ext. intros r. unfold match_one. cbn. rewrite Hpos, Hv. reflexivity. }
      rewrite Hsame.
      destruct (length (List.filter _ part) =? 0)%nat eqn:Hz.
      * apply Nat.eqb_eq in Hz. apply length_zero_iff_nil in Hz. rewrite Hz. reflexivity.
      * apply IH.
    + rewrite IH. f_equal. f_equal. f_equal.
      apply filter_ext. intros r. unfold match_one at 2. cbn.
      destruct (Vector.column_index col test_cols) as [pos|] eqn:Hpos; [|reflexivity].
      assert (Vector.contains col ordered = true) by (apply Hord; eauto). congruence.
Qed.

Lemma imap_Z_of_nat {A} (l : list A) (k : nat) :
  imap (fun i a => (Z.of_nat (k + i), a)) l
  = (fun p : nat * A => (Z.of_nat p.1, p.2)) <$> imap (fun i a => ((k + i)%nat, a)) l.
Proof.
  revert k. induction l as [|a l IH]; intros k; cbn; [reflexivity|].
  f_equal. specialize (IH (S k)).
  erewrite imap_ext; [erewrite (imap_ext _ (fun i a => ((S k + i)%nat, a))); [exact IH|]|].
  - intros i x _. cbn. f_equal. lia.
  - intros i x _. cbn. f_equal. lia.
Qed.

Lemma imap_pair_bound {A} (l : list A) (n : nat) :
  (length l <= n)%nat ->
  Forall (fun p : nat * A => (p.1 < n)%nat) (imap (fun i a => (i, a)) l).
Proof.
  intros Hn. apply Forall_lookup_2. intros i [j a] Hi.
  rewrite list_lookup_imap in Hi.
  destruct (l !! i) as [x|] eqn:Hx; [|discriminate].
  cbn in Hi. injection Hi as <- <-. cbn.
  apply lookup_lt_Some in Hx. lia.
Qed.

Lemma mapM_getitem_Ok {A} (l : list A) (picked : list Z) :
  Forall (fun i => - Z.of_nat (length l) <= i < Z.of_nat (length l)) picked ->
  exists sample, mapM (getitem l) picked = Ok sample.
Proof.
  induction 1 as [|i picked Hi _ [sample IH]]; cbn; [eauto|].
  assert (exists a, getitem l i = Ok a) as [a Ha].
  { unfold getitem, py_index.
    destruct (Z.leb_spec 0 i); destruct (Z.ltb_spec i (Z.of_nat (length l)));
      cbn; try lia.
    - destruct (lookup_lt_is_Some_2 l (Z.to_nat i)) as [a Ha]; [lia|].
      rewrite Ha. eauto.
    - destruct (Z.leb_spec (- Z.of_nat (length l)) i); [|lia].
      destruct (Z.ltb_spec i 0); [|lia]. cbn.
      destruct (lookup_lt_is_Some_2 l (Z.to_nat (i + Z.of_nat (length l)))) as [a Ha];
        [lia|].
      rewrite Ha. eauto. }
  rewrite Ha, IH. cbn. eauto.
Qed.

(** The sampler of the dataframe library is only asked when the
    dataframe is longer than the sample; its picks are positions. *)
Definition picks_ok (picked : list Z) (df : Vector.frame) : Prop :=
  10000 < Vector.len df ->
  Forall (fun i => - Vector.len df <= i < Vector.len df) picked.

Lemma order_columns_Ok self picked :
  picks_ok picked (Vector._df self) ->
  exists ordered, Vector._order_columns_by_sparsity self 10000 picked = Ok ordered.
Proof.
  intros Hp. unfold Vector._order_columns_by_sparsity.
  destruct (Z.ltb_spec 10000 (Vector.len (Vector._df self))) as [Hlt|Hge].
  - destruct (mapM_getitem_Ok (Vector.rows (Vector._df self)) picked (Hp Hlt))
      as [sample ->]. cbn. eauto.
  - cbn. eauto.
Qed.

(** A one-row dataframe with a cell for each of its columns. *)
Definition one_row (row : Vector.frame) : Prop :=
  exists vals, Vector.rows row = [vals]
               /\ length vals = length (Vector.columns row).

(** [row_exists] returns whether exactly one row of the dataframe
    equals the given row on the columns both have. *)
Lemma row_exists_spec picked test row :
  picks_ok picked (Vector._df test) -> one_row row ->
  Vector.row_exists picked test row
  = Ok (count_matches (Vector._df test) row =? 1)%nat.
Proof.
  intros Hp (vals & Hrows & Hvals). unfold Vector.row_exists.
  unfold Vector.len at 1. rewrite Hrows. cbn.
  destruct (order_columns_Ok test picked Hp) as [ordered Hord]. rewrite Hord. cbn.
  apply order_columns_perm in Hord.
  pose proof (imap_Z_of_nat (Vector.columns row) 0) as Himap. cbn in Himap.
  change (negb (Z.of_nat 1 =? 1)) with false.
  change (getitem [vals] 0) with (Ok vals). cbn.
  rewrite Himap.
  rewrite filter_by_columns_Ok.
  - unfold count_matches, row_matches. rewrite Hrows. reflexivity.
  - intros col. rewrite contains_elem_of, Hord. apply column_index_elem_of.
  - apply imap_pair_bound. lia.
Qed.

Lemma any_row_exists_spec picked test rws :
  picks_ok picked (Vector._df test) -> Forall one_row rws ->
  Vector.any_row_exists picked test rws
  = Ok (existsb (fun row => (count_matches (Vector._df test) row =? 1)%nat) rws).
Proof.
  intros Hp. induction 1 as [|row rws Hrow _ IH]; cbn; [reflexivity|].
  rewrite (row_exists_spec _ _ _ Hp Hrow). cbn.
  destruct (count_matches (Vector._df test) row =? 1)%nat; cbn; [reflexivity|exact IH].
Qed.

(** The synthetic rows of a dataframe that has a column are one-row
    dataframes. *)
Lemma create_random_row_one_row self rand_map row :
  Vector.columns (Vector._df self) <> [] ->
  Vector.create_random_row self rand_map = Ok row -> one_row row.
Proof.
  intros Hcols. unfold Vector.create_random_row.
  destruct (mapM _ _) as [vals|] eqn:Hvals; [|discriminate].
  apply mapM_Ok in Hvals as [Hlen _]. rewrite length_imap in Hlen.
  destruct (Vector.geometry_column (Vector._df self)) as [g|];
    [destruct (getitem rand_map (-1)) as [idx|]|]; cbn; try discriminate.
  - intros Heq. injection Heq as <-. exists vals. cbn.
    destruct (Vector.columns (Vector._df self)); [contradiction|]. auto.
  - intros Heq. injection Heq as <-. exists vals. cbn.
    destruct (Vector.columns (Vector._df self)); [contradiction|]. auto.
Qed.

Lemma rows_of_chunks_one_row self size cs rs rws :
  Vector.columns (Vector._df self) <> [] ->
  Vector.rows_of_chunks self size cs rs = Ok rws -> Forall one_row rws.
Proof.
  intros Hcols. revert rs rws. induction cs as [|[lower upper] cs IH]; intros rs rws; cbn.
  - intros Heq. injection Heq as <-. constructor.
  - destruct (RandomState.randint_size lower upper size rs) as [[rand_map rs']|];
      cbn; [|discriminate].
    destruct (Vector.create_random_row self rand_map) as [row|] eqn:Hrow;
      cbn; [|discriminate].
    destruct (Vector.rows_of_chunks self size cs rs') as [rws'|] eqn:Hrws;
      cbn; [|discriminate].
    intros Heq. injection Heq as <-. constructor.
    + eapply create_random_row_one_row; eauto.
    + eapply IH; eauto.
Qed.

(** Below a hundred records there is no chunk, so nothing is drawn. *)
Lemma chunks_small n : 0 <= n < 100 -> Vector.chunks n = [].
Proof.
  intros Hn.
  assert (Hall : forallb (fun n => match Vector.chunks n with [] => true | _ => false end)
                         (seqZ 0 100) = true) by (vm_compute; reflexivity).
  rewrite forallb_forall in Hall.
  specialize (Hall n). destruct (Vector.chunks n); [reflexivity|].
  assert (false = true); [|discriminate].
  apply Hall. apply list_elem_of_In, elem_of_seqZ. lia.
Qed.

Lemma py_slice_all {A} (l : list A) :
  Vector.py_slice l 0 (Z.of_nat (length l)) = l.
Proof.
  unfold Vector.py_slice. cbv zeta.
  change (0 <? 0) with false. cbv iota.
  destruct (Z.ltb_spec (Z.of_nat (length l)) 0); [lia|].
  replace (Z.to_nat (Z.min 0 (Z.of_nat (length l)))) with 0%nat by lia.
  replace (Z.to_nat (_ - _)) with (length l) by lia.
  apply firstn_all.
Qed.

Lemma get_random_rows_small environ self uuid rws :
  Vector.len (Vector._df self) < 100 ->
  Vector.get_random_rows environ self uuid = Ok rws -> rws = [].
Proof.
  intros Hlen. unfold Vector.get_random_rows.
  destruct (Vector._random_state environ self uuid) as [rs|]; cbn; [|discriminate].
  rewrite chunks_small by (unfold Vector.len in *; lia). cbn.
  intros Heq. injection Heq as <-. reflexivity.
Qed.

(** Dataframes of one column: a short one, one of a hundred distinct
    numbers, one of a hundred equal texts, and a one-row dataframe that
    shares no column with them. *)
Module Entries.

Definition short : Vector.frame :=
  {| Vector.columns := ["a"%string]; Vector.rows := [[Vector.VInt 5]];
     Vector.geometry_column := None |}.

Definition hundred : Vector.frame :=
  {| Vector.columns := ["a"%string];
     Vector.rows := (fun i => [Vector.VInt (1000 + i)]) <$> seqZ 0 100;
     Vector.geometry_column := None |}.

Definition alike : Vector.frame :=
  {| Vector.columns := ["name"%string];
     Vector.rows := replicate 100 [Vector.VStr "x"];
     Vector.geometry_column := None |}.

Definition unrelated : Vector.frame :=
  {| Vector.columns := ["zzz"%string]; Vector.rows := [[Vector.VStr "q"]];
     Vector.geometry_column := None |}.

Definition accessor (df : Vector.frame) : Vector.ipr :=
  {| Vector._df := df; Vector.__key := Some "k"%string |}.

(** The state of the global generator when the embedding starts. *)
Definition g0 : MT19937.state := MT19937.mt19937_seed 0.

(** Embedding, then detection on what was embedded. *)
Definition round_trip (df : Vector.frame) : result bool :=
  '(out, _) ← Vector.embed_fictitious_entries None g0 (accessor df) "U";
  Vector.detect_fictitious_entries None [] (accessor df) (accessor out) "U".

End Entries.

(** C8 (amended). For a dataframe with at least one column and a key,
    [detect_fictitious_entries] returns, and its answer is true exactly
    when one of the synthetic rows derived from the dataframe, the
    marker id and the key equals exactly one row of the tested dataframe
    on the columns the two share.  A dataframe of fewer than a hundred
    rows has no synthetic row: the embedding returns its rows unchanged
    and every detection for it answers false. *)
Theorem detect_fictitious_entries_spec environ picked self test uuid rws :
  Vector.columns (Vector._df self) <> [] ->
  picks_ok picked (Vector._df test) ->
  Vector.get_random_rows environ self uuid = Ok rws ->
  Vector.detect_fictitious_entries environ picked self test uuid
  = Ok (existsb (fun row => (count_matches (Vector._df test) row =? 1)%nat) rws)
  /\ (Vector.len (Vector._df self) < 100 ->
      rws = []
      /\ forall g, exists out,
           Vector.embed_fictitious_entries environ g self uuid = Ok (out, g)
           /\ Vector.rows out = Vector.rows (Vector._df self)).
Proof.
  intros Hcols Hp Hget. split.
  - unfold Vector.detect_fictitious_entries. rewrite Hget. cbn.
    apply any_row_exists_spec; [exact Hp|].
    unfold Vector.get_random_rows in Hget.
    destruct (Vector._random_state environ self uuid) as [rs|]; cbn in Hget;
      [|discriminate].
    eapply rows_of_chunks_one_row; eauto.
  - intros Hlen. pose proof (get_random_rows_small _ _ _ _ Hlen Hget) as ->.
    split; [reflexivity|]. intros g.
    unfold Vector.embed_fictitious_entries, Vector.random_indices.
    rewrite Hget. cbn.
    rewrite chunks_small by (unfold Vector.len in *; lia). cbn.
    eexists. split; [reflexivity|]. cbn.
    rewrite app_nil_r. apply py_slice_all.
Qed.

Lemma detect_fictitious_entries_spec_witness :
  Vector.detect_fictitious_entries None [] (Entries.accessor Entries.hundred)
    (Entries.accessor Entries.unrelated) "U"
  = Ok (existsb (fun row => (count_matches Entries.unrelated row =? 1)%nat)
          [{| Vector.columns := ["a"%string]; Vector.rows := [[Vector.VInt 1610]];
              Vector.geometry_column := None |}]).
Proof.
  apply (detect_fictitious_entries_spec None [] (Entries.accessor Entries.hundred)
           (Entries.accessor Entries.unrelated) "U").
  - intros Hx; discriminate Hx.
  - intros Hx; vm_compute in Hx; discriminate Hx.
  - vm_compute; reflexivity.
Defined.

(** On a hundred distinct numbers the embedded entry is found again. *)
Example round_trip_hundred : Entries.round_trip Entries.hundred = Ok true.
Proof. vm_compute. reflexivity. Qed.

(** Both halves of the claim fail: a short dataframe, and one whose
    rows are all alike, are not detected after the embedding; an
    unrelated dataframe of one row is detected. *)
Lemma detect_fictitious_entries_fails :
  Entries.round_trip Entries.short = Ok false
  /\ Entries.round_trip Entries.alike = Ok false
  /\ Vector.detect_fictitious_entries None [] (Entries.accessor Entries.hundred)
       (Entries.accessor Entries.unrelated) "U" = Ok true.
Proof. vm_compute. auto. Qed.

(** ** Embedded geometries *)

Lemma snd_imap_pair {A B} (f : nat -> B) (l : list A) :
  (imap (fun i a => (f i, a)) l).*2 = l.
Proof.
  revert f. induction l as [|a l IH]; intros f; cbn; [reflexivity|].
  f_equal. apply (IH (fun i => f (S i))).
Qed.

Lemma py_slice_take_drop {A} (l : list A) (lo hi : Z) :
  0 <= lo <= hi -> hi <= Z.of_nat (length l) ->
  Vector.py_slice l lo hi = take (Z.to_nat hi - Z.to_nat lo) (drop (Z.to_nat lo) l).
Proof.
  intros Hlo Hhi. unfold Vector.py_slice. cbv zeta.
  destruct (Z.ltb_spec lo 0); [lia|]. destruct (Z.ltb_spec hi 0); [lia|].
  rewrite !Z.min_l by lia. f_equal. lia.
Qed.

Lemma length_py_slice {A} (l : list A) (lo hi : Z) :
  0 <= lo <= hi -> hi <= Z.of_nat (length l) ->
  length (Vector.py_slice l lo hi) = (Z.to_nat hi - Z.to_nat lo)%nat.
Proof.
  intros Hlo Hhi. rewrite py_slice_take_drop by assumption.
  rewrite length_take, length_drop. lia.
Qed.

Lemma take_py_slice {A} (l : list A) (lo hi : Z) :
  0 <= lo <= hi -> hi <= Z.of_nat (length l) ->
  take (Z.to_nat lo) l ++ Vector.py_slice l lo hi = take (Z.to_nat hi) l.
Proof.
  intros Hlo Hhi. rewrite py_slice_take_drop by assumption.
  rewrite take_take_drop. f_equal. lia.
Qed.

Lemma lookup_py_slice {A} (l : list A) (lo hi : Z) (i : nat) :
  0 <= lo <= hi -> hi <= Z.of_nat (length l) ->
  (i < Z.to_nat hi - Z.to_nat lo)%nat ->
  Vector.py_slice l lo hi !! i = l !! (Z.to_nat lo + i)%nat.
Proof.
  intros Hlo Hhi Hi. rewrite py_slice_take_drop by assumption.
  rewrite lookup_take_lt by assumption. apply lookup_drop.
Qed.

(** Positions in ascending order, each once, between two bounds. *)
Fixpoint ascending (lo : Z) (l : list Z) (hi : Z) : Prop :=
  match l with
  | [] => True
  | x :: l' => lo <= x < hi /\ ascending (x + 1) l' hi
  end.

Lemma ascending_weaken lo lo' l hi :
  lo' <= lo -> ascending lo l hi -> ascending lo' l hi.
Proof. destruct l as [|x l]; cbn; [auto|]. intros Hle [Hx Hl]. split; [lia|exact Hl]. Qed.

Lemma insert_unique_ascending lo x l hi :
  lo <= x < hi -> ascending lo l hi -> ascending lo (Vector.insert_unique x l) hi.
Proof.
  revert lo. induction l as [|y l IH]; intros lo Hx; cbn.
  - auto.
  - intros [Hy Hl]. destruct (Z.ltb_spec x y).
    + cbn. repeat split; try lia. exact Hl.
    + destruct (Z.eqb_spec x y).
      * cbn. auto.
      * cbn. split; [exact Hy|]. apply IH; [lia|exact Hl].
Qed.

Lemma unique_ascending l hi :
  Forall (fun x => 0 <= x < hi) l -> ascending 0 (Vector.unique l) hi.
Proof.
  induction 1 as [|x l Hx _ IH]; cbn; [exact I|].
  apply insert_unique_ascending; assumption.
Qed.

Lemma candidates_range gs x :
  x ∈ Vector.candidates gs -> 0 <= x < Z.of_nat (length gs).
Proof.
  unfold Vector.candidates. rewrite list_elem_of_omap.
  intros ([i g] & Hin & Hsome).
  apply elem_of_lookup_imap in Hin as (j & g' & Heq & Hj).
  injection Heq as -> ->. apply lookup_lt_Some in Hj.
  destruct (Vector.has_type g'); [|discriminate]. injection Hsome as <-. lia.
Qed.

Lemma getitem_elem_of {A} (l : list A) (i : Z) (a : A) :
  getitem l i = Ok a -> a ∈ l.
Proof.
  unfold getitem. destruct (py_index _ i) as [n|]; cbn; [|discriminate].
  destruct (l !! n) as [b|] eqn:Hb; [|discriminate].
  intros Heq. injection Heq as <-. eapply list_elem_of_lookup_2, Hb.
Qed.

Lemma mapM_getitem_elem_of {A} (l : list A) (ixs : list Z) (taken : list A) :
  mapM (getitem l) ixs = Ok taken -> Forall (fun a => a ∈ l) taken.
Proof.
  intros Hm. apply mapM_Ok in Hm as [Hlen Hall].
  apply Forall_lookup_2. intros i a Ha.
  destruct (lookup_lt_is_Some_2 ixs i) as [x Hx].
  { rewrite <- Hlen. eapply lookup_lt_Some, Ha. }
  destruct (Hall i x Hx) as (y & Hy & Hget).
  assert (y = a) as -> by congruence.
  eapply getitem_elem_of, Hget.
Qed.

(** The features [get_random_geometries] selects: positions of the
    geometry column in ascending order, each with its geometry. *)
Lemma get_random_geometries_spec self rs indices geoms rs' :
  Vector.get_random_geometries self rs = Ok (indices, geoms, rs') ->
  exists gs, Vector.geometry_column (Vector._df self) = Some gs
             /\ ascending 0 indices (Z.of_nat (length gs))
             /\ length geoms = length indices.
Proof.
  unfold Vector.get_random_geometries.
  destruct (Vector.geometry_column (Vector._df self)) as [gs|]; [|discriminate].
  cbn. destruct (RandomState.randint_size _ _ _ rs) as [[rand_map rs1]|];
    [|discriminate].
  cbn. destruct (mapM (getitem (Vector.candidates gs)) rand_map) as [taken|] eqn:Htaken;
    [|discriminate].
  cbn. destruct (mapM (getitem gs) (Vector.unique taken)) as [geometries|] eqn:Hgeoms;
    [|discriminate].
  cbn. intros Heq. injection Heq as <- <- <-.
  exists gs. split; [reflexivity|]. split.
  - apply unique_ascending. apply mapM_getitem_elem_of in Htaken.
    eapply Forall_impl; [exact Htaken|]. intros x Hx. apply candidates_range, Hx.
  - apply mapM_Ok in Hgeoms as [Hlen _]. exact Hlen.
Qed.

Lemma bind_two {A B} (f : A -> list B) (a b : A) : [a; b] ≫= f = f a ++ f b.
Proof. cbn. rewrite app_nil_r. reflexivity. Qed.

Lemma bind_one {A B} (f : A -> list B) (a : A) : [a] ≫= f = f a.
Proof. cbn. apply app_nil_r. Qed.

Section Embedded.
Variable df : Vector.frame.
Variable gs : list Vector.geometry.
Variable selected : list Z.
Hypothesis Hgs : Vector.geometry_column df = Some gs.
Hypothesis Hlen : length gs = length (Vector.rows df).

Definition geoms_of (d : Vector.frame) : list Vector.geometry :=
  default [] (Vector.geometry_column d).

(** What holds of the frames gathered so far: they are the rows below
    the offset, with the geometries of the rows not selected. *)
Definition embed_inv (st : Vector.embed_state) : Prop :=
  0 <= Vector.offset st <= Vector.len df
  /\ (Vector.dfs st ≫= Vector.rows)
     = take (Z.to_nat (Vector.offset st)) (Vector.rows df)
  /\ length (Vector.dfs st ≫= geoms_of) = Z.to_nat (Vector.offset st)
  /\ (forall i, Z.of_nat i ∉ selected -> (i < Z.to_nat (Vector.offset st))%nat ->
                (Vector.dfs st ≫= geoms_of) !! i = gs !! i)
  /\ (forall d, head (Vector.dfs st) = Some d -> Vector.columns d = Vector.columns df)
  /\ (forall idx, Vector.idx_var st = Some idx -> idx < Vector.len df).

Lemma geoms_of_slice lo hi : geoms_of (Vector.slice df lo hi) = Vector.py_slice gs lo hi.
Proof. unfold geoms_of, Vector.slice. cbn. rewrite Hgs. reflexivity. Qed.

Lemma embed_step_inv rand_geoms i idx st st' :
  embed_inv st -> Vector.offset st <= idx < Vector.len df -> idx ∈ selected ->
  Vector.embed_step df rand_geoms (i, idx) st = Ok st' ->
  embed_inv st' /\ Vector.offset st' = idx + 1.
Proof.
  intros (Hoff & Hrows & Hglen & Hgeo & Hcols & Hidx) Hrange Hsel.
  unfold Vector.embed_step.
  destruct (getitem rand_geoms i) as [g|]; [|discriminate]. cbn.
  destruct (Vector.transform_geometry g (Vector.gen st)) as [[geom rs]|]; [|discriminate].
  cbn. intros Heq. injection Heq as <-. cbn. split; [|reflexivity].
  unfold embed_inv.
  cbn [Vector.offset Vector.dfs Vector.idx_var Vector.gen].
  unfold Vector.len in *.
  assert (Hg1 : length (Vector.py_slice gs (Vector.offset st) idx)
                = (Z.to_nat idx - Z.to_nat (Vector.offset st))%nat)
    by (apply length_py_slice; lia).
  repeat split.
  - lia.
  - lia.
  - rewrite bind_app, Hrows, bind_two. cbn [Vector.rows Vector.slice].
    rewrite app_assoc.
    rewrite take_py_slice by lia. apply take_py_slice; lia.
  - rewrite bind_app, length_app, Hglen, bind_two.
    rewrite geoms_of_slice, length_app, Hg1. cbn. lia.
  - intros j Hj Hlt. rewrite bind_app, bind_two, geoms_of_slice.
    destruct (decide (j < Z.to_nat (Vector.offset st))%nat) as [Hlow|Hhigh].
    + rewrite lookup_app_l by lia. apply Hgeo; assumption.
    + rewrite lookup_app_r by lia. rewrite Hglen.
      assert (Hne : Z.of_nat j <> idx) by (intros <-; contradiction).
      rewrite lookup_app_l by (rewrite Hg1; lia).
      rewrite lookup_py_slice by lia. f_equal. lia.
  - intros d. destruct (Vector.dfs st) as [|d0 ds] eqn:Hdfs; cbn.
    + intros Heq. injection Heq as <-. reflexivity.
    + intros Heq. injection Heq as <-. apply Hcols. reflexivity.
  - intros idx' Heq. injection Heq as <-. lia.
Qed.

Lemma embed_loop_inv rand_geoms ps st st' :
  embed_inv st ->
  ascending (Vector.offset st) ps.*2 (Vector.len df) ->
  (forall idx, idx ∈ ps.*2 -> idx ∈ selected) ->
  for_ ps (Vector.embed_step df rand_geoms) st = Ok st' ->
  embed_inv st'.
Proof.
  revert st. induction ps as [|[i idx] ps IH]; intros st Hinv Hasc Hsel; cbn [for_].
  - intros Heq. injection Heq as <-. exact Hinv.
  - destruct (Vector.embed_step df rand_geoms (i, idx) st) as [st1|] eqn:Hstep;
      [|discriminate].
    cbn [mbind result_bind]. cbn in Hasc. destruct Hasc as [Hidx Hasc].
    apply embed_step_inv in Hstep as [Hinv1 Hoff1]; [|assumption..|].
    + apply IH; [exact Hinv1| rewrite Hoff1; exact Hasc|].
      intros idx' Hin. apply Hsel. cbn. right. exact Hin.
    + apply Hsel. cbn. left.
Qed.

Lemma embed_inv_init rs :
  embed_inv {| Vector.dfs := []; Vector.offset := 0; Vector.gen := rs;
               Vector.idx_var := None |}.
Proof.
  unfold embed_inv, Vector.len. cbn. repeat split; try lia; try discriminate.
Qed.

(** The frames, closed by the rest of the dataframe, are the dataframe
    with other geometries in the selected rows. *)
Lemma embed_inv_final st :
  embed_inv st ->
  let out := Vector.concatenated true
               (Vector.dfs st ++ [Vector.slice df (Vector.offset st) (Vector.len df)]) in
  Vector.columns out = Vector.columns df
  /\ Vector.rows out = Vector.rows df
  /\ exists gs', Vector.geometry_column out = Some gs'
                 /\ length gs' = length gs
                 /\ forall i, Z.of_nat i ∉ selected -> gs' !! i = gs !! i.
Proof.
  intros (Hoff & Hrows & Hglen & Hgeo & Hcols & Hidx) out. subst out.
  unfold Vector.concatenated.
  cbn [Vector.columns Vector.rows Vector.geometry_column].
  change (fun d => Vector.rows d) with Vector.rows.
  unfold Vector.len in *.
  assert (Hg1 : length (Vector.py_slice gs (Vector.offset st)
                          (Z.of_nat (length (Vector.rows df))))
                = (Z.to_nat (Z.of_nat (length (Vector.rows df)))
                   - Z.to_nat (Vector.offset st))%nat)
    by (apply length_py_slice; lia).
  split; [|split].
  - destruct (Vector.dfs st) as [|d ds]; cbn; [reflexivity|].
    apply Hcols. reflexivity.
  - rewrite bind_app, Hrows, bind_one. cbn [Vector.rows Vector.slice].
    rewrite take_py_slice by lia. apply take_ge. lia.
  - eexists. split; [reflexivity|].
    change (fun d => default [] (Vector.geometry_column d)) with geoms_of.
    rewrite bind_app, bind_one, geoms_of_slice. split.
    + rewrite length_app, Hglen, Hg1. lia.
    + intros j Hj.
      destruct (decide (j < Z.to_nat (Vector.offset st))%nat) as [Hlow|Hhigh].
      * rewrite lookup_app_l by lia. apply Hgeo; assumption.
      * rewrite lookup_app_r by lia. rewrite Hglen.
        destruct (decide (j < length gs)%nat) as [Hin|Hout].
        -- rewrite lookup_py_slice by lia. f_equal. lia.
        -- rewrite !lookup_ge_None_2; [reflexivity|lia|rewrite Hg1; lia].
Qed.

End Embedded.

(** A dataframe of three features, of which the first and the last are
    lines. *)
Module Roads.

Definition road : Vector.frame :=
  {| Vector.columns := ["name"%string];
     Vector.rows := [[Vector.VStr "a"]; [Vector.VStr "b"]; [Vector.VStr "c"]];
     Vector.geometry_column :=
       Some [Vector.LineString [(0%float, 0%float); (4%float, 2%float)];
             Vector.OtherGeometry 0;
             Vector.LineString [(1%float, 1%float); (1%float, 5%float);
                                (3%float, 5%float)]] |}.

Definition self : Vector.ipr :=
  {| Vector._df := road; Vector.__key := Some "k"%string |}.

End Roads.

(** ** More on the Arnold scramble *)

Lemma scramble_unscramble_pass n (s m : Raster.matrix) :
  square n s -> Raster.unscramble_pass s = Ok m ->
  square n m /\ Raster.scramble_pass m = Ok s.
Proof.
  intros Hs Hrun.
  destruct (unscramble_pass_spec n s Hs) as (m' & Hrun' & Hm & Hbwd).
  rewrite Hrun in Hrun'. injection Hrun' as <-. split; [exact Hm|].
  destruct (scramble_pass_spec n m Hm) as (u & Hu & Hsqu & Hfwd).
  rewrite Hu. f_equal. apply (square_ext n); [exact Hsqu | exact Hs |].
  intros r c Hr Hc.
  set (p := (Z.of_nat r + 1, Z.of_nat c + 1)).
  assert (Hp : p ∈ coords n) by (apply elem_of_coords; cbn; lia).
  assert (Hq : arnold_inv (Z.of_nat n) p ∈ coords n).
  { apply elem_of_coords. apply (arnold_inv_range (Z.of_nat n) p.1 p.2). lia. }
  specialize (Hfwd _ Hq). rewrite (Hbwd _ Hp) in Hfwd.
  unfold p in Hfwd at 1. rewrite arnold_arnold_inv in Hfwd by lia.
  unfold at1, p in Hfwd. cbn in Hfwd.
  replace (Z.to_nat (Z.of_nat r + 1 - 1)) with r in Hfwd by lia.
  replace (Z.to_nat (Z.of_nat c + 1 - 1)) with c in Hfwd by lia.
  exact Hfwd.
Qed.

Lemma iterate_unscramble_square n k (s m : Raster.matrix) :
  square n s -> iterate_pass Raster.unscramble_pass k s = Ok m ->
  square n m /\ iterate_pass Raster.scramble_pass k m = Ok s.
Proof.
  revert s m. induction k as [|k IH]; intros s m Hs Hrun.
  - apply (scramble_unscramble_pass n s m Hs Hrun).
  - cbn [iterate_pass] in Hrun.
    destruct (Raster.unscramble_pass s) as [m1|e] eqn:H1; [|discriminate].
    cbn in Hrun. destruct (scramble_unscramble_pass n s m1 Hs H1) as [Hm1 Hback].
    destruct (IH m1 m Hm1 Hrun) as [Hm Hiter].
    split; [exact Hm|]. rewrite iterate_pass_snoc, Hiter. exact Hback.
Qed.

Lemma iterate_unscramble_total n k (s : Raster.matrix) :
  square n s -> exists m, iterate_pass Raster.unscramble_pass k s = Ok m.
Proof.
  revert s. induction k as [|k IH]; intros s Hs;
    destruct (unscramble_pass_spec n s Hs) as (m1 & H1 & Hm1 & _).
  - exists m1. exact H1.
  - cbn [iterate_pass]. rewrite H1. cbn. apply IH, Hm1.
Qed.

(** X1: for an iteration count from 1 to 32, [unscramble] does not
    fail on a square matrix of any side, its result is square of the
    same side, and [scramble] with the same count takes the result back
    to the matrix: the inverse transformation is undone by the
    transformation as well. *)
Theorem scramble_unscramble n k (s : Raster.matrix) :
  1 <= k <= 32 ->
  square n s ->
  exists m, Raster.unscramble s k = Ok m /\ square n m /\ Raster.scramble m k = Ok s.
Proof.
  intros _ Hs. rewrite unscramble_iterate.
  destruct (iterate_unscramble_total n (Z.to_nat (k - 1)) s Hs) as [m Hm].
  destruct (iterate_unscramble_square n _ s m Hs Hm) as [Hsq Hback].
  exists m. rewrite scramble_iterate. auto.
Qed.

Lemma scramble_unscramble_witness :
  exists m, Raster.unscramble [[true; false; true]; [false; false; true]; [true; true; false]] 7 = Ok m
         /\ square 3 m
         /\ Raster.scramble m 7 = Ok [[true; false; true]; [false; false; true]; [true; true; false]].
Proof.
  apply (scramble_unscramble 3 7).
  - lia.
  - split; [reflexivity | repeat constructor].
Defined.

Lemma iterate_pass_add {A} (pass : A -> result A) j k a :
  (a' ← iterate_pass pass j a; iterate_pass pass k a') = iterate_pass pass (S (j + k)) a.
Proof.
  revert a. induction j as [|j IH]; intros a.
  - cbn. reflexivity.
  - cbn [iterate_pass Nat.add]. destruct (pass a) as [a1|e]; [|reflexivity].
    cbn. apply IH.
Qed.

(** X2: scrambling with [a] iterations and then with [b] is scrambling
    with their sum, for counts from 1 on whose sum is at most 32.  This
    holds on every matrix, the ones on which a pass raises included. *)
Theorem scramble_scramble m a b :
  1 <= a -> 1 <= b -> a + b <= 32 ->
  (s ← Raster.scramble m a; Raster.scramble s b) = Raster.scramble m (a + b).
Proof.
  intros Ha Hb _.
  rewrite (scramble_iterate m a), (scramble_iterate m (a + b)).
  replace (Z.to_nat (a + b - 1))
    with (S (Z.to_nat (a - 1) + Z.to_nat (b - 1))) by lia.
  rewrite <- iterate_pass_add.
  destruct (iterate_pass Raster.scramble_pass (Z.to_nat (a - 1)) m) as [s|e];
    [|reflexivity].
  cbn. apply scramble_iterate.
Qed.

Lemma scramble_scramble_witness :
  (s ← Raster.scramble [[true; false]; [false; true]] 3; Raster.scramble s 4)
  = Raster.scramble [[true; false]; [false; true]] (3 + 4).
Proof. apply (scramble_scramble [[true; false]; [false; true]] 3 4); lia. Defined.

(** A loop whose body keeps an invariant and never raises. *)
Lemma for_inv {A S} (I : S -> Prop) (ps : list A) (body : A -> S -> result S) (s : S) :
  I s ->
  (forall p s, p ∈ ps -> I s -> exists s', body p s = Ok s' /\ I s') ->
  exists s', for_ ps body s = Ok s' /\ I s'.
Proof.
  revert s. induction ps as [|p ps IH]; intros s Hs Hbody; cbn [for_].
  - eauto.
  - destruct (Hbody p s) as (s1 & H1 & Hs1); [left | exact Hs |].
    rewrite H1. cbn. apply IH; [exact Hs1|].
    intros q s0 Hq. apply Hbody. right. exact Hq.
Qed.

Lemma range_split a k b : a <= k <= b -> range a b = range a k ++ range k b.
Proof.
  intros Hk. unfold range.
  replace (b - a) with ((k - a) + (b - k)) by lia.
  rewrite seqZ_app by lia. do 2 f_equal; lia.
Qed.

Lemma range_cons a b : a < b -> range a b = a :: range (a + 1) b.
Proof.
  intros Hab. unfold range. rewrite seqZ_cons by lia. do 2 f_equal; lia.
Qed.

Lemma getitem_out {A} (l : list A) : getitem l (Z.of_nat (length l)) = Raise IndexError.
Proof.
  unfold getitem, py_index.
  destruct (Z.leb_spec 0 (Z.of_nat (length l))); [|lia].
  destruct (Z.ltb_spec (Z.of_nat (length l)) (Z.of_nat (length l))); [lia|].
  destruct (Z.leb_spec (- Z.of_nat (length l)) (Z.of_nat (length l))); cbn.
  - destruct (Z.ltb_spec (Z.of_nat (length l)) 0); [lia|reflexivity].
  - reflexivity.
Qed.

(** X3: on an array with fewer columns than rows, [scramble] raises
    IndexError, whatever the iteration count: the loops run over
    [len(matrix)] in both directions, and the first row is read one
    cell past its end. *)
Theorem scramble_narrow (m : Raster.matrix) (c : nat) (k : Z) :
  Forall (fun row => length row = c) m -> (c < length m)%nat ->
  Raster.scramble m k = Raise IndexError.
Proof.
  intros Hrows Hc.
  assert (Hpass : Raster.scramble_pass m = Raise IndexError).
  { destruct m as [|row0 m']; [cbn in Hc; lia|].
    unfold Raster.scramble_pass. cbv zeta. set (N := Z.of_nat (length (row0 :: m'))).
    assert (Hrow0 : length row0 = c) by (inversion Hrows; assumption).
    assert (HN : 0 < N) by (unfold N; cbn [length]; lia).
    assert (HcN : Z.of_nat c < N) by (unfold N; lia).
    match goal with
    | |- for_ _ ?body _ = _ => set (inner := body)
    end.
    rewrite (range_cons 1 (N + 1)); [|lia].
    cbn [for_].
    enough (Hinner : inner 1 (Raster.falses N) = Raise IndexError)
      by (rewrite Hinner; reflexivity).
    unfold inner.
    rewrite (range_split 1 (Z.of_nat c + 1) (N + 1)); [|lia].
    rewrite for_app.
    destruct (for_inv (square (length (row0 :: m'))) (range 1 (Z.of_nat c + 1))
                (fun x scrambled =>
                   v ← getitem2 (row0 :: m') (1 - 1) (x - 1);
                   setitem2 scrambled ((x + 2 * 1) mod N - 1) ((x + 1) mod N - 1) v)
                (Raster.falses N)) as (s1 & Hs1 & _).
    - apply square_falses.
    - intros x s Hx Hs. apply elem_of_range in Hx.
      destruct (lookup_lt_is_Some_2 row0 (Z.to_nat (x - 1))) as [v Hv]; [lia|].
      assert (Hget : getitem2 (row0 :: m') (1 - 1) (x - 1) = Ok v).
      { replace (1 - 1) with (Z.of_nat 0) by reflexivity.
        replace (x - 1) with (Z.of_nat (Z.to_nat (x - 1))) by lia.
        apply getitem2_cell. unfold cell. cbn. exact Hv. }
      rewrite Hget. cbn [mbind result_bind].
      pose proof (Z.mod_pos_bound (x + 2 * 1) N HN).
      pose proof (Z.mod_pos_bound (x + 1) N HN).
      destruct (setitem2_square (length (row0 :: m')) s
                  ((x + 2 * 1) mod N - 1) ((x + 1) mod N - 1) v Hs)
        as (s' & Hset & Hsq' & _); [fold N; lia | fold N; lia |].
      exists s'. split; assumption.
    - rewrite Hs1. cbn [mbind result_bind].
      rewrite (range_cons (Z.of_nat c + 1) (N + 1)); [|lia].
      cbn [for_].
      assert (Hget : getitem2 (row0 :: m') (1 - 1) (Z.of_nat c + 1 - 1)
                     = Raise IndexError).
      { unfold getitem2. cbn. replace (Z.of_nat c + 1 - 1) with (Z.of_nat (length row0)) by lia.
        apply getitem_out. }
      rewrite Hget. reflexivity. }
  simp scramble. rewrite Hpass. reflexivity.
Qed.

Lemma scramble_narrow_witness :
  Raster.scramble [[true; false]; [false; true]; [true; true]] 1 = Raise IndexError.
Proof.
  apply (scramble_narrow _ 2%nat); [repeat constructor | cbn; lia].
Defined.

(** ** Margins and canvas of the visible watermark *)

(** X4: for the four corner positions [_calcMargins] returns margins
    that add up to the difference of the sizes in each direction, one
    of each pair being zero, so that the canvas [_resizeCanvas] makes
    of an image of that size has exactly the size of the wall. *)
Theorem calcMargins_corner (W H w h : Z) (position : string) (im : Raster.image) :
  position ∈ ["topleft"; "topright"; "bottomright"; "bottomleft"]%string ->
  Raster.im_width im = w -> Raster.im_height im = h ->
  exists mt mr mb ml,
    Raster._calcMargins (W, H) (w, h) position = Ok (mt, mr, mb, ml)
    /\ ml + mr = W - w /\ mt + mb = H - h
    /\ (ml = 0 \/ mr = 0) /\ (mt = 0 \/ mb = 0)
    /\ Raster.im_width (Raster._resizeCanvas im (mt, mr, mb, ml)) = W
    /\ Raster.im_height (Raster._resizeCanvas im (mt, mr, mb, ml)) = H.
Proof.
  intros Hpos Hw Hh.
  repeat (apply elem_of_cons in Hpos as [->|Hpos]); [| | | |inversion Hpos].
  - exists 0, (W - w), (H - h), 0. cbn. repeat split; auto; lia.
  - exists 0, 0, (H - h), (W - w). cbn. repeat split; auto; lia.
  - exists (H - h), 0, 0, (W - w). cbn. repeat split; auto; lia.
  - exists (H - h), (W - w), 0, 0. cbn. repeat split; auto; lia.
Qed.

Lemma calcMargins_corner_witness :
  exists mt mr mb ml,
    Raster._calcMargins (10, 8) (3, 2) "bottomright" = Ok (mt, mr, mb, ml)
    /\ ml + mr = 10 - 3 /\ mt + mb = 8 - 2
    /\ (ml = 0 \/ mr = 0) /\ (mt = 0 \/ mb = 0)
    /\ Raster.im_width (Raster._resizeCanvas
                          (Raster.Image_new Raster.LA (3, 2) [7; 255]) (mt, mr, mb, ml)) = 10
    /\ Raster.im_height (Raster._resizeCanvas
                           (Raster.Image_new Raster.LA (3, 2) [7; 255]) (mt, mr, mb, ml)) = 8.
Proof.
  apply (calcMargins_corner 10 8 3 2 "bottomright"
           (Raster.Image_new Raster.LA (3, 2) [7; 255])).
  - do 2 right. left.
  - reflexivity.
  - reflexivity.
Defined.

(** [round(d / 2)] as the interpreter computes it: the half of an even
    number, and for an odd one the even neighbour of the half. *)
Definition half_even (d : Z) : Z := if Z.even d then d / 2 else 2 * ((d + 1) / 4).

Definition round_half (d : Z) : result Z :=
  h ← Raster.truediv d 2; Raster.py_round h.

Lemma round_half_spec d : 0 <= d < 4096 -> round_half d = Ok (half_even d).
Proof.
  intros Hd.
  assert (Hall : forallb (fun d => match round_half d with
                                   | Ok r => r =? half_even d
                                   | Raise _ => false
                                   end) (seqZ 0 4096) = true)
    by (vm_compute; reflexivity).
  rewrite forallb_forall in Hall. specialize (Hall d).
  destruct (round_half d) as [r|e].
  - f_equal. apply Z.eqb_eq, Hall, list_elem_of_In, elem_of_seqZ. lia.
  - assert (false = true); [|discriminate].
    apply Hall, list_elem_of_In, elem_of_seqZ. lia.
Qed.

Lemma half_even_double d :
  2 * half_even d = match d mod 4 with 1 => d - 1 | 3 => d + 1 | _ => d end.
Proof.
  pose proof (Z.mod_pos_bound d 4 ltac:(lia)) as Hm.
  pose proof (Z.div_mod d 4 ltac:(lia)) as Hd.
  set (q := d / 4) in *. set (r := d mod 4) in *.
  unfold half_even. rewrite Hd.
  rewrite Z.even_add, Z.even_mul. cbn [Z.even orb].
  assert (r = 0 \/ r = 1 \/ r = 2 \/ r = 3) as [Hr|[Hr|[Hr|Hr]]] by lia;
    rewrite Hr; cbn [Z.even Bool.eqb].
  - rewrite <- (Z.div_unique (4 * q + 0) 2 (2 * q) 0) by lia. lia.
  - rewrite <- (Z.div_unique (4 * q + 1 + 1) 4 q 2) by lia. lia.
  - rewrite <- (Z.div_unique (4 * q + 2) 2 (2 * q + 1) 0) by lia. lia.
  - rewrite <- (Z.div_unique (4 * q + 3 + 1) 4 (q + 1) 0) by lia. lia.
Qed.

Lemma round_pair d :
  0 <= d < 4096 ->
  (h ← Raster.truediv d 2; m ← Raster.py_round h; Ok (m, m))
  = Ok (half_even d, half_even d).
Proof.
  intros Hd. pose proof (round_half_spec d Hd) as Hr. unfold round_half in Hr.
  destruct (Raster.truediv d 2) as [q|]; [|discriminate].
  cbn [mbind result_bind] in Hr |- *. rewrite Hr. reflexivity.
Qed.

(** X5: for the position [center] the two margins of a direction are
    both [round(d / 2)], [d] being the difference of the sizes, and the
    rounding goes to the even neighbour: the canvas has the width of
    the wall when [d] is even, is one pixel narrower when [d] is 1
    modulo 4 and one pixel wider when [d] is 3 modulo 4. *)
Theorem calcMargins_center (W H w h : Z) :
  0 <= W - w < 4096 -> 0 <= H - h < 4096 ->
  Raster._calcMargins (W, H) (w, h) "center"
  = Ok (half_even (H - h), half_even (W - w), half_even (H - h), half_even (W - w))
  /\ w + half_even (W - w) + half_even (W - w)
     = match (W - w) mod 4 with 1 => W - 1 | 3 => W + 1 | _ => W end.
Proof.
  intros HW HH. split.
  - unfold Raster._calcMargins.
    change (negb (existsb (String.eqb "center") Raster.possible_positions)) with false.
    change (Raster.str_in "left" "center") with false.
    change (Raster.str_in "right" "center") with false.
    change (Raster.str_in "top" "center") with false.
    change (Raster.str_in "bottom" "center") with false.
    cbv iota. cbn [fst snd].
    rewrite (round_pair (W - w) HW), (round_pair (H - h) HH). reflexivity.
  - pose proof (half_even_double (W - w)) as Hd.
    destruct ((W - w) mod 4) as [|[[]|[]|]|]; lia.
Qed.

Lemma calcMargins_center_witness :
  Raster._calcMargins (10, 8) (9, 5) "center"
  = Ok (half_even (8 - 5), half_even (10 - 9), half_even (8 - 5), half_even (10 - 9))
  /\ 9 + half_even (10 - 9) + half_even (10 - 9)
     = match (10 - 9) mod 4 with 1 => 10 - 1 | 3 => 10 + 1 | _ => 10 end.
Proof. apply (calcMargins_center 10 8 9 5); lia. Defined.

(** An image whose rows of pixels have the size it declares. *)
Definition well_formed (im : Raster.image) : Prop :=
  0 <= Raster.im_width im /\ 0 <= Raster.im_height im
  /\ length (Raster.im_data im) = Z.to_nat (Raster.im_height im)
  /\ Forall (fun row => length row = Z.to_nat (Raster.im_width im)) (Raster.im_data im).

(** X6: with margins that are not negative, [_resizeCanvas] returns a
    well-formed image of the same mode, larger by the margins, that
    holds every pixel of the image moved right by the left margin and
    down by the top margin, and the zero background everywhere else. *)
Theorem resizeCanvas_pixels (im : Raster.image) (mt mr mb ml : Z) :
  well_formed im -> 0 <= mt -> 0 <= mr -> 0 <= mb -> 0 <= ml ->
  let out := Raster._resizeCanvas im (mt, mr, mb, ml) in
  well_formed out
  /\ Raster.im_mode out = Raster.im_mode im
  /\ Raster.im_width out = Raster.im_width im + mr + ml
  /\ Raster.im_height out = Raster.im_height im + mt + mb
  /\ forall i j : nat,
       Z.of_nat i < Raster.im_height out -> Z.of_nat j < Raster.im_width out ->
       cell (Raster.im_data out) i j
       = if (mt <=? Z.of_nat i) && (Z.of_nat i <? mt + Raster.im_height im)
            && (ml <=? Z.of_nat j) && (Z.of_nat j <? ml + Raster.im_width im)
         then cell (Raster.im_data im) (i - Z.to_nat mt) (j - Z.to_nat ml)
         else Some (Raster._getBackground (Raster.im_mode im)).
Proof.
  intros (Hw & Hh & Hrows & Hcols) Hmt Hmr Hmb Hml out. subst out.
  unfold Raster._resizeCanvas, Raster.paste, Raster.Image_new, well_formed.
  cbn [Raster.im_mode Raster.im_width Raster.im_height Raster.im_data fst snd].
  set (bg := Raster._getBackground (Raster.im_mode im)).
  set (W := Raster.im_width im + mr + ml). set (H := Raster.im_height im + mt + mb).
  split; [|split; [reflexivity|split; [reflexivity|split; [reflexivity|]]]].
  - split; [lia|]. split; [lia|]. split.
    + rewrite length_imap, length_replicate. reflexivity.
    + apply Forall_lookup_2. intros i row Hi.
      rewrite list_lookup_imap in Hi.
      destruct (replicate (Z.to_nat H) (replicate (Z.to_nat W) bg) !! i) as [r0|] eqn:Hr0;
        [|discriminate].
      apply lookup_replicate in Hr0 as [-> _]. cbn in Hi. injection Hi as <-.
      rewrite length_imap, length_replicate. reflexivity.
  - intros i j Hi Hj. unfold cell at 1.
    rewrite list_lookup_imap, lookup_replicate_2 by lia. cbn [fmap option_fmap option_map mbind option_bind].
    rewrite list_lookup_imap, lookup_replicate_2 by lia. cbn [fmap option_fmap option_map].
    destruct (Z.leb_spec mt (Z.of_nat i)); cbn [andb].
    2:{ destruct (Z.leb_spec 0 (Z.of_nat i - mt)); [lia|]. reflexivity. }
    destruct (Z.leb_spec 0 (Z.of_nat i - mt)); [|lia]. cbn [andb].
    destruct (Z.ltb_spec (Z.of_nat i) (mt + Raster.im_height im)); cbn [andb].
    2:{ rewrite (lookup_ge_None_2 (Raster.im_data im)) by lia.
        destruct (0 <=? Z.of_nat j - ml); reflexivity. }
    destruct (lookup_lt_is_Some_2 (Raster.im_data im) (Z.to_nat (Z.of_nat i - mt)))
      as [srow Hsrow]; [lia|].
    pose proof (Forall_lookup_1 _ _ _ _ Hcols Hsrow) as Hlen. cbn beta in Hlen.
    rewrite Hsrow.
    destruct (Z.leb_spec ml (Z.of_nat j)); cbn [andb].
    2:{ destruct (Z.leb_spec 0 (Z.of_nat j - ml)); [lia|]. reflexivity. }
    destruct (Z.leb_spec 0 (Z.of_nat j - ml)); [|lia].
    unfold cell.
    replace (i - Z.to_nat mt)%nat with (Z.to_nat (Z.of_nat i - mt)) by lia.
    replace (j - Z.to_nat ml)%nat with (Z.to_nat (Z.of_nat j - ml)) by lia.
    rewrite Hsrow. cbn [mbind option_bind].
    destruct (Z.ltb_spec (Z.of_nat j) (ml + Raster.im_width im)).
    + destruct (lookup_lt_is_Some_2 srow (Z.to_nat (Z.of_nat j - ml))) as [px Hpx]; [lia|].
      rewrite Hpx. reflexivity.
    + rewrite (lookup_ge_None_2 srow) by lia. reflexivity.
Qed.

Lemma resizeCanvas_pixels_witness :
  let out := Raster._resizeCanvas (Raster.Image_new Raster.LA (2, 1) [7; 255]) (1, 0, 0, 2) in
  Raster.im_width out = 4 /\ Raster.im_height out = 2
  /\ cell (Raster.im_data out) 1 2 = Some [7; 255]
  /\ cell (Raster.im_data out) 0 2 = Some [0; 0].
Proof.
  destruct (resizeCanvas_pixels (Raster.Image_new Raster.LA (2, 1) [7; 255]) 1 0 0 2)
    as (_ & _ & Hw & Hh & Hpx); try lia.
  - repeat split; cbn; try lia. repeat constructor.
  - split; [exact Hw|]. split; [exact Hh|]. split.
    + rewrite (Hpx 1%nat 2%nat) by (cbn; lia). reflexivity.
    + rewrite (Hpx 0%nat 2%nat) by (cbn; lia). reflexivity.
Defined.

(** ** The tiled watermark *)

(** Two images of one mode and one size, row by row. *)
Definition same_shape (a b : Raster.image) : Prop :=
  Raster.im_mode a = Raster.im_mode b
  /\ Raster.im_width a = Raster.im_width b
  /\ Raster.im_height a = Raster.im_height b
  /\ length <$> Raster.im_data a = length <$> Raster.im_data b.

Lemma paste_same_shape canvas im x y : same_shape (Raster.paste canvas im x y) canvas.
Proof.
  unfold same_shape, Raster.paste. cbn. repeat split.
  apply list_eq. intros i. rewrite !list_lookup_fmap, list_lookup_imap.
  destruct (Raster.im_data canvas !! i) as [row|]; cbn; [|reflexivity].
  rewrite length_imap. reflexivity.
Qed.

Lemma tile_loop_ends fuel tiled wm W H dx dy x y :
  0 < W -> 0 <= Raster.im_width wm -> 0 <= Raster.im_height wm ->
  0 < dx -> 0 < dy -> 0 < x ->
  (if y <? H then (H - y) * W + (W - Z.min x W) else 0) < Z.of_nat fuel ->
  exists out, Raster.tile_loop fuel tiled wm W H dx dy x y = Ok out
              /\ same_shape out tiled.
Proof.
  intros HW Hw Hh Hdx Hdy. revert tiled x y.
  induction fuel as [|fuel IH]; intros tiled x y Hx Hfuel.
  - destruct (Z.ltb_spec y H); [nia|lia].
  - cbn [Raster.tile_loop]. destruct (Z.ltb_spec y H) as [Hy|Hy].
    + set (s := Raster.im_width wm + dx). set (t := Raster.im_height wm + dy).
      assert (Hs : 1 <= s) by (unfold s; lia).
      assert (Ht : 1 <= t) by (unfold t; lia).
      destruct (Z.gtb_spec (x + s) W) as [Hgt|Hle].
      * destruct (IH (Raster.paste tiled wm x y) (x + s - W) (y + t)) as (out & Hout & Hsh).
        -- lia.
        -- destruct (Z.ltb_spec (y + t) H); nia.
        -- exists out. split; [exact Hout|].
           destruct Hsh as (H1 & H2 & H3 & H4).
           destruct (paste_same_shape tiled wm x y) as (P1 & P2 & P3 & P4).
           repeat split; congruence.
      * destruct (IH (Raster.paste tiled wm x y) (x + s) y) as (out & Hout & Hsh).
        -- lia.
        -- destruct (Z.ltb_spec y H); [|lia]. lia.
        -- exists out. split; [exact Hout|].
           destruct Hsh as (H1 & H2 & H3 & H4).
           destruct (paste_same_shape tiled wm x y) as (P1 & P2 & P3 & P4).
           repeat split; congruence.
    + exists tiled. repeat split.
Qed.

(** X7: with [fit='tile'] and distances that are positive and below
    the raster's sizes, [prepareWatermark] returns: the tiling loop
    ends, and the image has the width and the height of the raster,
    whatever the size of the watermark; it is in mode LA when
    [to_gray] holds and in the mode of the watermark otherwise. *)
Theorem prepareWatermark_tile `{Raster.Pillow} {P : Type} (self : Raster.Watermark P)
    (wm : Raster.image) (opts : Raster.fit_options) (dx dy : Z) :
  Raster.fit opts = "tile"%string ->
  Raster.distance opts = (Some dx, Some dy) ->
  0 < dx < Raster.RasterXSize (Raster.raster self) ->
  0 < dy < Raster.RasterYSize (Raster.raster self) ->
  0 <= Raster.im_width wm -> 0 <= Raster.im_height wm ->
  exists out,
    Raster.prepareWatermark self wm opts = Ok out
    /\ Raster.im_width out = Raster.RasterXSize (Raster.raster self)
    /\ Raster.im_height out = Raster.RasterYSize (Raster.raster self)
    /\ Raster.im_mode out = (if Raster.to_gray opts then Raster.LA else Raster.im_mode wm)
    /\ length (Raster.im_data out) = Z.to_nat (Raster.RasterYSize (Raster.raster self))
    /\ Forall (fun row => length row = Z.to_nat (Raster.RasterXSize (Raster.raster self)))
              (Raster.im_data out).
Proof.
  intros Hfit Hdist Hdx Hdy Hw Hh. unfold Raster.prepareWatermark.
  rewrite Hfit, Hdist.
  set (W := Raster.RasterXSize (Raster.raster self)) in *.
  set (Hr := Raster.RasterYSize (Raster.raster self)) in *.
  change (String.eqb "tile" "stretch") with false.
  change (String.eqb "tile" "height") with false.
  change (String.eqb "tile" "width") with false.
  change (String.eqb "tile" "original") with false.
  change (String.eqb "tile" "tile") with true. cbv iota.
  destruct (Z.geb_spec dx W); [lia|]. destruct (Z.geb_spec dy Hr); [lia|].
  destruct (Z.leb_spec dx 0); [lia|]. destruct (Z.leb_spec dy 0); [lia|].
  cbn [orb].
  set (canvas := Raster.Image_new (Raster.im_mode wm) (W, Hr)
                   (Raster._getBackground (Raster.im_mode wm))).
  destruct (tile_loop_ends (S (Z.to_nat ((W + 1) * (Hr + 1)))) canvas wm W Hr dx dy dx dy)
    as (tiled & Htiled & Hm & Hwd & Hht & Hrows); try lia.
  { destruct (Z.ltb_spec dy Hr); nia. }
  rewrite Htiled. cbn [mbind result_bind].
  assert (Hlen : length <$> Raster.im_data canvas
                 = replicate (Z.to_nat Hr) (Z.to_nat W)).
  { unfold canvas, Raster.Image_new. cbn. rewrite fmap_replicate, length_replicate.
    reflexivity. }
  rewrite Hlen in Hrows.
  assert (Hdata : length (Raster.im_data tiled) = Z.to_nat Hr
                  /\ Forall (fun row => length row = Z.to_nat W) (Raster.im_data tiled)).
  { split.
    - rewrite <- (length_fmap length), Hrows, length_replicate. reflexivity.
    - apply Forall_lookup_2. intros i row Hi.
      assert (Hl : (length <$> Raster.im_data tiled) !! i = Some (length row))
        by (rewrite list_lookup_fmap, Hi; reflexivity).
      rewrite Hrows in Hl. apply lookup_replicate in Hl as [Hl _]. exact Hl. }
  destruct Hdata as [Hd1 Hd2].
  eexists. split; [reflexivity|].
  destruct (Raster.to_gray opts); cbn.
  - repeat split; try assumption.
    + rewrite length_fmap. exact Hd1.
    + apply Forall_fmap. eapply Forall_impl; [exact Hd2|].
      intros row Hrow. cbn. rewrite length_fmap. exact Hrow.
  - repeat split; assumption.
Qed.

Lemma prepareWatermark_tile_witness :
  exists out,
    Raster.prepareWatermark (H := Scenario.nearest_pillow)
      {| Raster.raster := {| Raster.RasterXSize := 7; Raster.RasterYSize := 5;
                             Raster.bands := ([] : list (Raster.band Z)) |};
         Raster.mode := Raster.grayscale; Raster.band_interpretation := [];
         Raster.paletteCount := None |}
      Scenario.watermark_1x1
      {| Raster.to_gray := true; Raster.fit := "tile"; Raster.position := "center";
         Raster.distance := (Some 2, Some 1) |} = Ok out
    /\ Raster.im_width out = 7 /\ Raster.im_height out = 5.
Proof.
  destruct (prepareWatermark_tile (H := Scenario.nearest_pillow)
              {| Raster.raster := {| Raster.RasterXSize := 7; Raster.RasterYSize := 5;
                                     Raster.bands := ([] : list (Raster.band Z)) |};
                 Raster.mode := Raster.grayscale; Raster.band_interpretation := [];
                 Raster.paletteCount := None |}
              Scenario.watermark_1x1
              {| Raster.to_gray := true; Raster.fit := "tile"; Raster.position := "center";
                 Raster.distance := (Some 2, Some 1) |} 2 1)
    as (out & Hout & Hw & Hh & _); try reflexivity; try (cbn; lia).
  exists out. auto.
Defined.

(** ** Band interpretation *)

Lemma color_eqb_eq a b : Raster.color_eqb a b = true <-> a = b.
Proof. destruct a, b; cbn; split; intros Hx; congruence. Qed.

Lemma dict_set_elem (d : Raster.band_dict) c v c' v' :
  (c', v') ∈ Raster.dict_set d c v -> (c', v') = (c, v) \/ (c', v') ∈ d.
Proof.
  induction d as [|[k w] d IH]; cbn.
  - intros Hin. apply list_elem_of_singleton in Hin. auto.
  - destruct (Raster.color_eqb c k).
    + intros Hin. apply elem_of_cons in Hin as [Hin|Hin]; [auto|].
      right. right. exact Hin.
    + intros Hin. apply elem_of_cons in Hin as [Hin|Hin]; [right; rewrite Hin; left|].
      destruct (IH Hin) as [Heq|Hd]; [auto|]. right. right. exact Hd.
Qed.

Lemma dict_has_set (d : Raster.band_dict) c v c' :
  Raster.dict_has (Raster.dict_set d c v) c' = Raster.color_eqb c' c || Raster.dict_has d c'.
Proof.
  unfold Raster.dict_has. induction d as [|[k w] d IH]; cbn.
  - rewrite orb_false_r. reflexivity.
  - destruct (Raster.color_eqb c k) eqn:Hck; cbn.
    + apply color_eqb_eq in Hck as <-.
      destruct (Raster.color_eqb c' c); reflexivity.
    + rewrite IH. destruct (Raster.color_eqb c' k), (Raster.color_eqb c' c); reflexivity.
Qed.

Lemma dict_has_get (d : Raster.band_dict) c :
  Raster.dict_has d c = true -> exists v, Raster.dict_get d c = Ok v /\ (c, v) ∈ d.
Proof.
  unfold Raster.dict_has. induction d as [|[k w] d IH]; cbn; [discriminate|].
  destruct (Raster.color_eqb c k) eqn:Hck; cbn.
  - intros _. apply color_eqb_eq in Hck as <-. exists w. split; [reflexivity|left].
  - intros Hd. destruct (IH Hd) as (v & Hv & Hin). exists v. split; [exact Hv|].
    right. exact Hin.
Qed.

(** The dictionary the loop of [getBandInterpretation] builds. *)
Definition bandInterp_of {P} (l : list (Raster.band P)) : Raster.band_dict :=
  foldl (fun d '(i, b) =>
           if Raster.named (Raster.interpretation b)
           then Raster.dict_set d (Raster.interpretation b) i else d)
        [] (imap (fun i b => (Z.of_nat i + 1, b)) l).

Lemma bandInterp_of_snoc {P} (l : list (Raster.band P)) b :
  bandInterp_of (l ++ [b])
  = if Raster.named (Raster.interpretation b)
    then Raster.dict_set (bandInterp_of l) (Raster.interpretation b)
           (Z.of_nat (length l) + 1)
    else bandInterp_of l.
Proof.
  unfold bandInterp_of. rewrite imap_app, foldl_app. cbn.
  rewrite Nat.add_0_r. reflexivity.
Qed.

Lemma bandInterp_of_spec {P} (l : list (Raster.band P)) :
  (forall c i, (c, i) ∈ bandInterp_of l ->
     1 <= i /\ exists b, l !! Z.to_nat (i - 1) = Some b /\ Raster.interpretation b = c)
  /\ (forall c, Raster.dict_has (bandInterp_of l) c = true
                <-> Raster.named c = true
                    /\ exists b, b ∈ l /\ Raster.interpretation b = c).
Proof.
  induction l as [|b l [IH1 IH2]] using rev_ind.
  - split.
    + intros c i Hin. inversion Hin.
    + intros c. cbn. split; [discriminate|]. intros [_ (b & Hb & _)]. inversion Hb.
  - rewrite bandInterp_of_snoc. split.
    + intros c i Hin.
      assert (Hold : (c, i) ∈ bandInterp_of l ->
                1 <= i /\ exists b0, (l ++ [b]) !! Z.to_nat (i - 1) = Some b0
                                     /\ Raster.interpretation b0 = c).
      { intros Hd. destruct (IH1 c i Hd) as (Hi & b0 & Hb0 & Hc).
        split; [exact Hi|]. exists b0. split; [|exact Hc].
        rewrite lookup_app_l; [exact Hb0|]. eapply lookup_lt_Some, Hb0. }
      destruct (Raster.named (Raster.interpretation b)); [|auto].
      apply dict_set_elem in Hin as [Heq|Hd]; [|auto].
      injection Heq as -> ->. split; [lia|]. exists b. split; [|reflexivity].
      replace (Z.to_nat (Z.of_nat (length l) + 1 - 1)) with (length l) by lia.
      rewrite lookup_app_r by lia. rewrite Nat.sub_diag. reflexivity.
    + intros c. destruct (Raster.named (Raster.interpretation b)) eqn:Hn.
      * rewrite dict_has_set, orb_true_iff, IH2, color_eqb_eq. split.
        -- intros [->|[Hc (b0 & Hb0 & Hi)]].
           ++ split; [exact Hn|]. exists b. split; [|reflexivity].
              apply elem_of_app. right. left.
           ++ split; [exact Hc|]. exists b0. split; [|exact Hi].
              apply elem_of_app. left. exact Hb0.
        -- intros [Hc (b0 & Hb0 & Hi)]. apply elem_of_app in Hb0 as [Hb0|Hb0].
           ++ right. split; [exact Hc|]. exists b0. auto.
           ++ apply list_elem_of_singleton in Hb0 as ->. left. symmetry. exact Hi.
      * rewrite IH2. split.
        -- intros [Hc (b0 & Hb0 & Hi)]. split; [exact Hc|]. exists b0.
           split; [|exact Hi]. apply elem_of_app. left. exact Hb0.
        -- intros [Hc (b0 & Hb0 & Hi)]. split; [exact Hc|]. exists b0.
           split; [|exact Hi]. apply elem_of_app in Hb0 as [Hb0|Hb0]; [exact Hb0|].
           apply list_elem_of_singleton in Hb0 as ->. congruence.
Qed.

Lemma getBandInterpretation_unfold {P} (ds : Raster.dataset P) :
  Raster.getBandInterpretation ds
  = let count := Z.of_nat (length (Raster.bands ds)) in
    let bandInterp := bandInterp_of (Raster.bands ds) in
    let has := Raster.dict_has bandInterp in
    let n := length bandInterp in
    if has Raster.Gray then Ok (Raster.grayscale, bandInterp)
    else if has Raster.Red && has Raster.Green && has Raster.Blue && (n =? 3)%nat then
      if (count =? 4) && negb (existsb (fun kv => kv.2 =? 4) bandInterp) then
        b ← Raster.GetRasterBand ds 4;
        max_value ← getitem (Raster.statistics b) 1;
        if Raster.color_eqb (Raster.interpretation b) Raster.Undefined
           && PrimFloat.ltb max_value 256
        then Ok (Raster.mode_RGBA, Raster.dict_set bandInterp Raster.Alpha 4)
        else Ok (Raster.mode_RGB, bandInterp)
      else Ok (Raster.mode_RGB, bandInterp)
    else if has Raster.Red && has Raster.Green && has Raster.Blue && has Raster.Alpha
            && (n =? 4)%nat
    then Ok (Raster.mode_RGBA, bandInterp)
    else if has Raster.Palette then Ok (Raster.mode_Palette, bandInterp)
    else Raise NotImplementedError.
Proof. reflexivity. Qed.

Lemma bandInterp_band_no {P} (ds : Raster.dataset P) c i :
  (c, i) ∈ bandInterp_of (Raster.bands ds) ->
  exists b, band_no ds i = Some b /\ Raster.interpretation b = c.
Proof.
  intros Hin. destruct (proj1 (bandInterp_of_spec (Raster.bands ds)) c i Hin)
    as (Hi & b & Hb & Hc).
  exists b. unfold band_no. destruct (Z.leb_spec 1 i); [auto|lia].
Qed.

(** X8: when [getBandInterpretation] returns, the mode is grayscale
    exactly when some band of the dataset is gray, whatever other bands
    there are; and every entry of the dictionary names a band of the
    dataset that has the entry's colour, but for the entry Alpha = 4
    added for a fourth band of undefined colour, in which case the mode
    is RGBA. *)
Theorem getBandInterpretation_spec {P} (ds : Raster.dataset P) m d :
  Raster.getBandInterpretation ds = Ok (m, d) ->
  (m = Raster.grayscale
   <-> exists b, b ∈ Raster.bands ds /\ Raster.interpretation b = Raster.Gray)
  /\ forall c i, (c, i) ∈ d ->
       exists b, band_no ds i = Some b
                 /\ (Raster.interpretation b = c
                     \/ (c = Raster.Alpha /\ i = 4
                         /\ Raster.interpretation b = Raster.Undefined
                         /\ m = Raster.mode_RGBA)).
Proof.
  rewrite getBandInterpretation_unfold. cbv zeta.
  set (d0 := bandInterp_of (Raster.bands ds)).
  pose proof (proj2 (bandInterp_of_spec (Raster.bands ds)) Raster.Gray) as Hgray.
  fold d0 in Hgray.
  assert (Hplain : forall c i, (c, i) ∈ d0 ->
            exists b, band_no ds i = Some b
                      /\ (Raster.interpretation b = c
                          \/ (c = Raster.Alpha /\ i = 4
                              /\ Raster.interpretation b = Raster.Undefined
                              /\ m = Raster.mode_RGBA))).
  { intros c i Hin. destruct (bandInterp_band_no ds c i Hin) as (b & Hb & Hc). eauto. }
  destruct (Raster.dict_has d0 Raster.Gray) eqn:Hg.
  - intros Heq. injection Heq as <- <-. split; [|exact Hplain].
    split; [intros _; apply Hgray; reflexivity | reflexivity].
  - assert (Hno : forall m', m' <> Raster.grayscale ->
              (m' = Raster.grayscale
               <-> exists b, b ∈ Raster.bands ds
                             /\ Raster.interpretation b = Raster.Gray)).
    { intros m' Hm'. split; [contradiction|]. intros Hex.
      assert (false = true); [|discriminate]. apply Hgray. split; [reflexivity|exact Hex]. }
    destruct (_ && (length d0 =? 3)%nat).
    + destruct (_ && negb (existsb (fun kv => kv.2 =? 4) d0)).
      * destruct (Raster.GetRasterBand ds 4) as [b|] eqn:Hb; cbn [mbind result_bind];
          [|discriminate].
        destruct (getitem (Raster.statistics b) 1); cbn [mbind result_bind];
          [|discriminate].
        destruct (_ && PrimFloat.ltb _ _) eqn:Hund.
        -- intros Heq. injection Heq as <- <-. split; [apply Hno; discriminate|].
           intros c i Hin. apply dict_set_elem in Hin as [Heq|Hin]; [|auto].
           injection Heq as -> ->. apply GetRasterBand_Ok in Hb as [Hb _].
           exists b. split; [exact Hb|]. right.
           apply andb_true_iff in Hund as [Hund _]. apply color_eqb_eq in Hund. auto.
        -- intros Heq. injection Heq as <- <-. split; [apply Hno; discriminate|exact Hplain].
      * intros Heq. injection Heq as <- <-. split; [apply Hno; discriminate|exact Hplain].
    + destruct (_ && (length d0 =? 4)%nat).
      * intros Heq. injection Heq as <- <-. split; [apply Hno; discriminate|exact Hplain].
      * destruct (Raster.dict_has d0 Raster.Palette); [|discriminate].
        intros Heq. injection Heq as <- <-. split; [apply Hno; discriminate|exact Hplain].
Qed.

Lemma getBandInterpretation_spec_witness :
  (Raster.mode_RGBA = Raster.grayscale
   <-> exists b, b ∈ Raster.bands Scenario.raster_1x1
                 /\ Raster.interpretation b = Raster.Gray)
  /\ forall c i, (c, i) ∈ [(Raster.Red, 1); (Raster.Green, 2); (Raster.Blue, 3);
                           (Raster.Alpha, 4)] ->
       exists b, band_no Scenario.raster_1x1 i = Some b
                 /\ (Raster.interpretation b = c
                     \/ (c = Raster.Alpha /\ i = 4
                         /\ Raster.interpretation b = Raster.Undefined
                         /\ Raster.mode_RGBA = Raster.mode_RGBA)).
Proof.
  apply (getBandInterpretation_spec Scenario.raster_1x1). reflexivity.
Defined.

Lemma dict_has_false {P} (l : list (Raster.band P)) c :
  (forall b, b ∈ l -> Raster.interpretation b <> c) ->
  Raster.dict_has (bandInterp_of l) c = false.
Proof.
  intros Hnone. destruct (Raster.dict_has (bandInterp_of l) c) eqn:Hh; [|reflexivity].
  apply (proj2 (bandInterp_of_spec l)) in Hh as [_ (b & Hb & Hc)].
  destruct (Hnone b Hb Hc).
Qed.

(** X9: a dataset without a gray band and without a colour-mapped
    band, in which red, green or blue is missing, is refused with
    NotImplementedError; so is a dataset without bands. *)
Theorem getBandInterpretation_unsupported {P} (ds : Raster.dataset P) (c : Raster.color) :
  (forall b, b ∈ Raster.bands ds ->
     Raster.interpretation b <> Raster.Gray /\ Raster.interpretation b <> Raster.Palette
     /\ Raster.interpretation b <> c) ->
  c ∈ [Raster.Red; Raster.Green; Raster.Blue] ->
  Raster.getBandInterpretation ds = Raise NotImplementedError.
Proof.
  intros Hnone Hc. rewrite getBandInterpretation_unfold. cbv zeta.
  rewrite (dict_has_false _ Raster.Gray) by (intros b Hb; apply (Hnone b Hb)).
  rewrite (dict_has_false _ Raster.Palette) by (intros b Hb; apply (Hnone b Hb)).
  assert (Hmiss : Raster.dict_has (bandInterp_of (Raster.bands ds)) c = false)
    by (apply dict_has_false; intros b Hb; apply (Hnone b Hb)).
  repeat (apply elem_of_cons in Hc as [->|Hc]); [| | |inversion Hc];
    rewrite Hmiss; cbn [andb]; rewrite ?andb_false_r; reflexivity.
Qed.

Lemma getBandInterpretation_unsupported_witness :
  Raster.getBandInterpretation
    {| Raster.RasterXSize := 1; Raster.RasterYSize := 1;
       Raster.bands := [Scenario.band_1x1 Raster.Red 1; Scenario.band_1x1 Raster.Green 2] |}
  = Raise NotImplementedError.
Proof.
  apply (getBandInterpretation_unsupported _ Raster.Blue).
  - intros b Hb. repeat (apply elem_of_cons in Hb as [->|Hb]); [| |inversion Hb];
      cbn; repeat split; discriminate.
  - do 2 right. left.
Defined.

(** X10: a colour-mapped raster cannot be watermarked visibly.  The
    constructor records the number of colours of its palette; after
    the loop over the bands [embed_image] then calls, to apply the
    palette again, a name that is bound nowhere, so that no call of
    [embed_image] on such an object returns. *)
Theorem embed_image_palette `{Raster.Pillow} {P : Type} `{Raster.Dtype P}
    (opened expanded : Raster.dataset P) (d : Raster.band_dict)
    (self : Raster.Watermark P) (watermark : Raster.image) (transparency : float)
    (opts : Raster.fit_options) :
  Raster.getBandInterpretation opened = Ok (Raster.mode_Palette, d) ->
  Raster.Watermark_init opened expanded None = Ok self ->
  (exists n, Raster.paletteCount self = Some n)
  /\ exists e, Raster.embed_image self watermark transparency opts = Raise e.
Proof.
  intros Hmode Hinit. unfold Raster.Watermark_init in Hinit.
  rewrite Hmode in Hinit. cbn [mbind result_bind] in Hinit.
  destruct (Raster.dict_get d Raster.Palette) as [no|]; cbn [mbind result_bind] in Hinit;
    [|discriminate].
  destruct (Raster.GetRasterBand opened no) as [b|]; cbn [mbind result_bind] in Hinit;
    [|discriminate].
  destruct (Raster.color_count b) as [n|]; cbn [mbind result_bind] in Hinit;
    [|discriminate].
  destruct (Raster.getBandInterpretation expanded) as [[m' d']|];
    cbn [mbind result_bind] in Hinit; [|discriminate].
  injection Hinit as <-. split; [exists n; reflexivity|].
  unfold Raster.embed_image.
  destruct (Raster.translateWM _ watermark opts) as [wm|e]; [|eauto].
  cbn [mbind result_bind].
  destruct (Raster.getBandInterpretation wm) as [[wm_mode wm_bi]|e]; [|eauto].
  cbn [mbind result_bind].
  destruct (for_ _ _ _) as [merged|e]; [|eauto].
  cbn. eauto.
Qed.

Module Paletted.

(** A raster of one colour-mapped band with a palette of 256 colours. *)
Definition opened : Raster.dataset Z :=
  {| Raster.RasterXSize := 1; Raster.RasterYSize := 1;
     Raster.bands := [{| Raster.interpretation := Raster.Palette;
                         Raster.samples := [[3]]; Raster.nodata := None;
                         Raster.statistics := []; Raster.color_count := Some 256 |}] |}.

(** The object the constructor makes of it and of its expansion. *)
Definition self : Raster.Watermark Z :=
  {| Raster.raster := Scenario.raster_1x1; Raster.mode := Raster.mode_RGBA;
     Raster.band_interpretation :=
       [(Raster.Red, 1); (Raster.Green, 2); (Raster.Blue, 3); (Raster.Alpha, 4)];
     Raster.paletteCount := Some 256 |}.

End Paletted.

Lemma embed_image_palette_witness :
  (exists n, Raster.paletteCount Paletted.self = Some n)
  /\ exists e, Raster.embed_image (H := Scenario.nearest_pillow) Paletted.self
                 Scenario.watermark_1x1 1 (Scenario.options false) = Raise e.
Proof.
  apply (embed_image_palette (H := Scenario.nearest_pillow) Paletted.opened
           Scenario.raster_1x1 [(Raster.Palette, 1)]); reflexivity.
Defined.

Lemma getBandInterpretation_has {P} (ds : Raster.dataset P) m d :
  Raster.getBandInterpretation ds = Ok (m, d) ->
  match m with
  | Raster.grayscale => Raster.dict_has d Raster.Gray = true
  | Raster.mode_RGB | Raster.mode_RGBA =>
      Raster.dict_has d Raster.Red = true /\ Raster.dict_has d Raster.Green = true
      /\ Raster.dict_has d Raster.Blue = true
  | Raster.mode_Palette => True
  end.
Proof.
  rewrite getBandInterpretation_unfold. cbv zeta.
  set (d0 := bandInterp_of (Raster.bands ds)).
  destruct (Raster.dict_has d0 Raster.Gray) eqn:Hg;
    [intros Heq; injection Heq as <- <-; exact Hg|].
  destruct (Raster.dict_has d0 Raster.Red) eqn:Hr,
           (Raster.dict_has d0 Raster.Green) eqn:Hgr,
           (Raster.dict_has d0 Raster.Blue) eqn:Hb; cbn [andb];
    try (destruct (Raster.dict_has d0 Raster.Palette);
         [intros Heq; injection Heq as <- <-; exact I | discriminate]).
  destruct (length d0 =? 3)%nat.
  - destruct (_ && negb _).
    + destruct (Raster.GetRasterBand ds 4) as [b|]; cbn [mbind result_bind]; [|discriminate].
      destruct (getitem (Raster.statistics b) 1); cbn [mbind result_bind]; [|discriminate].
      destruct (_ && PrimFloat.ltb _ _); intros Heq; injection Heq as <- <-; auto.
      rewrite !dict_has_set, Hr, Hgr, Hb. cbn. auto.
    + intros Heq; injection Heq as <- <-; auto.
  - destruct (_ && (length d0 =? 4)%nat); [intros Heq; injection Heq as <- <-; auto|].
    destruct (Raster.dict_has d0 Raster.Palette);
      [intros Heq; injection Heq as <- <-; exact I | discriminate].
Qed.

Lemma dict_get_band {P} (ds : Raster.dataset P) m d c :
  Raster.getBandInterpretation ds = Ok (m, d) ->
  Raster.dict_has d c = true ->
  exists i b, Raster.dict_get d c = Ok i /\ band_no ds i = Some b.
Proof.
  intros Hrun Hhas. destruct (dict_has_get d c Hhas) as (i & Hget & Hin).
  destruct (getBandInterpretation_NoDup ds m d Hrun) as [_ Hrange].
  assert (Hi : 1 <= i <= Z.of_nat (length (Raster.bands ds))).
  { apply Hrange. apply list_elem_of_fmap. exists (c, i). auto. }
  destruct (lookup_lt_is_Some_2 (Raster.bands ds) (Z.to_nat (i - 1))) as [b Hb]; [lia|].
  exists i, b. split; [exact Hget|]. unfold band_no.
  destruct (Z.leb_spec 1 i); [exact Hb|lia].
Qed.

(** X11: on an object made by the constructor whose mode is not
    colour-mapped, [_get_color_bands_no] returns without KeyError: one
    band number in grayscale mode and three otherwise, each the number
    of a band of the raster of the object. *)
Theorem get_color_bands_no_Ok {P} (opened expanded : Raster.dataset P)
    (self : Raster.Watermark P) :
  Raster.Watermark_init opened expanded None = Ok self ->
  Raster.mode self <> Raster.mode_Palette ->
  exists nos,
    Raster._get_color_bands_no self = Ok nos
    /\ length nos = match Raster.mode self with Raster.grayscale => 1%nat | _ => 3%nat end
    /\ Forall (fun i => is_Some (band_no (Raster.raster self) i)) nos.
Proof.
  intros Hinit Hmode.
  assert (Hbi : Raster.getBandInterpretation (Raster.raster self)
                = Ok (Raster.mode self, Raster.band_interpretation self)).
  { unfold Raster.Watermark_init in Hinit.
    destruct (Raster.getBandInterpretation opened) as [[m d]|] eqn:Hopen;
      cbn [mbind result_bind] in Hinit; [|discriminate].
    destruct m; try (injection Hinit as <-; exact Hopen).
    destruct (Raster.dict_get d Raster.Palette) as [no|];
      cbn [mbind result_bind] in Hinit; [|discriminate].
    destruct (Raster.GetRasterBand opened no) as [b|];
      cbn [mbind result_bind] in Hinit; [|discriminate].
    destruct (Raster.color_count b); cbn [mbind result_bind] in Hinit; [|discriminate].
    destruct (Raster.getBandInterpretation expanded) as [[m' d']|] eqn:Hexp;
      cbn [mbind result_bind] in Hinit; [|discriminate].
    injection Hinit as <-. exact Hexp. }
  pose proof (getBandInterpretation_has _ _ _ Hbi) as Hhas.
  unfold Raster._get_color_bands_no.
  destruct (Raster.mode self); [| | |contradiction].
  - destruct (dict_get_band _ _ _ Raster.Gray Hbi Hhas) as (i & b & Hget & Hb).
    rewrite Hget. cbn. exists [i]. repeat split. repeat constructor. eauto.
  - destruct Hhas as (Hr & Hg & Hb).
    destruct (dict_get_band _ _ _ _ Hbi Hr) as (i1 & b1 & Hget1 & Hb1).
    destruct (dict_get_band _ _ _ _ Hbi Hg) as (i2 & b2 & Hget2 & Hb2).
    destruct (dict_get_band _ _ _ _ Hbi Hb) as (i3 & b3 & Hget3 & Hb3).
    cbn. rewrite Hget1, Hget2, Hget3. cbn. exists [i1; i2; i3].
    repeat split. repeat constructor; eauto.
  - destruct Hhas as (Hr & Hg & Hb).
    destruct (dict_get_band _ _ _ _ Hbi Hr) as (i1 & b1 & Hget1 & Hb1).
    destruct (dict_get_band _ _ _ _ Hbi Hg) as (i2 & b2 & Hget2 & Hb2).
    destruct (dict_get_band _ _ _ _ Hbi Hb) as (i3 & b3 & Hget3 & Hb3).
    cbn. rewrite Hget1, Hget2, Hget3. cbn. exists [i1; i2; i3].
    repeat split. repeat constructor; eauto.
Qed.

Lemma get_color_bands_no_Ok_witness :
  exists nos,
    Raster._get_color_bands_no Scenario.self_1x1 = Ok nos
    /\ length nos = 3%nat
    /\ Forall (fun i => is_Some (band_no Scenario.raster_1x1 i)) nos.
Proof.
  apply (get_color_bands_no_Ok Scenario.raster_1x1 Scenario.raster_1x1 Scenario.self_1x1).
  - reflexivity.
  - discriminate.
Defined.

(** ** The shape of a transformed string *)

Lemma string_length_app (a b : string) :
  String.length (a ++ b)%string = (String.length a + String.length b)%nat.
Proof. induction a as [|c a IH]; cbn; [reflexivity|]. rewrite IH. reflexivity. Qed.

Lemma prefix_length (p s : string) :
  String.prefix p s = true -> (String.length p <= String.length s)%nat.
Proof.
  revert s. induction p as [|c p IH]; intros s; [cbn; lia|].
  destruct s as [|d s]; cbn; [discriminate|].
  destruct (Ascii.ascii_dec c d); [|discriminate].
  intros Hp. specialize (IH s Hp). lia.
Qed.

(** A replacement by a text of the same length keeps the length. *)
Lemma replace_from_length (old new s : string) (skip : nat) :
  String.length new = String.length old -> (0 < String.length old)%nat ->
  String.length (Vector.replace_from skip old new s) = (String.length s - skip)%nat.
Proof.
  intros Hlen Hpos. revert skip. induction s as [|c s IH]; intros skip.
  - destruct skip; reflexivity.
  - cbn [Vector.replace_from]. destruct skip as [|k].
    + destruct (String.prefix old (String c s)) eqn:Hp.
      * apply prefix_length in Hp. cbn [String.length] in Hp |- *.
        rewrite string_length_app, IH. lia.
      * cbn [String.length]. rewrite IH. lia.
    + rewrite IH. reflexivity.
Qed.

(** A match of the pattern: a digit from 1 to 9, then digits. *)
Definition is_match (m : string) : Prop :=
  match m with
  | EmptyString => False
  | String c m' => Vector.is_nonzero_digit c = true /\ PyStr.all_digits m' = true
  end.

Lemma nonzero_is_digit c : Vector.is_nonzero_digit c = true -> PyStr.is_digit c = true.
Proof.
  unfold Vector.is_nonzero_digit, PyStr.is_digit. cbv zeta.
  rewrite !andb_true_iff, !Nat.leb_le. lia.
Qed.

Lemma all_digits_snoc m c :
  PyStr.all_digits m = true -> PyStr.is_digit c = true ->
  PyStr.all_digits (m ++ String c EmptyString) = true.
Proof.
  induction m as [|d m IH]; cbn; intros Hm Hc.
  - rewrite Hc. reflexivity.
  - apply andb_true_iff in Hm as [Hd Hm]. rewrite Hd. cbn. apply IH; assumption.
Qed.

Lemma findall_matches cur s :
  (forall m, cur = Some m -> is_match m) -> Forall is_match (Vector.findall cur s).
Proof.
  revert cur. induction s as [|c s IH]; intros cur Hcur; cbn.
  - destruct cur as [m|]; [|constructor]. constructor; [auto|constructor].
  - destruct cur as [m|].
    + destruct (PyStr.is_digit c) eqn:Hc.
      * apply IH. intros m' Heq. injection Heq as <-.
        specialize (Hcur m eq_refl). destruct m as [|d m]; [destruct Hcur|].
        destruct Hcur as [Hd Hm]. cbn. split; [exact Hd|].
        apply all_digits_snoc; assumption.
      * constructor; [auto|]. apply IH. discriminate.
    + destruct (Vector.is_nonzero_digit c) eqn:Hc.
      * apply IH. intros m' Heq. injection Heq as <-. cbn. auto.
      * apply IH. discriminate.
Qed.

Lemma digit_val_range c : PyStr.is_digit c = true -> 0 <= PyStr.digit_val c <= 9.
Proof.
  unfold PyStr.is_digit, PyStr.digit_val. cbv zeta.
  rewrite andb_true_iff, !Nat.leb_le. lia.
Qed.

Lemma digits_val_range acc s :
  PyStr.all_digits s = true ->
  acc * 10 ^ Z.of_nat (String.length s) <= PyStr.digits_val acc s
  < (acc + 1) * 10 ^ Z.of_nat (String.length s).
Proof.
  revert acc. induction s as [|c s IH]; intros acc; cbn [PyStr.all_digits PyStr.digits_val].
  - intros _. cbn. lia.
  - intros Hs. apply andb_true_iff in Hs as [Hc Hs].
    pose proof (digit_val_range c Hc) as Hd. specialize (IH (acc * 10 + PyStr.digit_val c) Hs).
    cbn [String.length]. rewrite Nat2Z.inj_succ, Z.pow_succ_r by lia.
    assert (0 < 10 ^ Z.of_nat (String.length s)) by (apply Z.pow_pos_nonneg; lia).
    nia.
Qed.

(** The integer a match denotes has as many digits as the match has
    characters. *)
Lemma int_of_match m :
  is_match m ->
  exists n, PyStr.int_of_str m = Ok n
            /\ 10 ^ (Z.of_nat (String.length m) - 1) <= n
               < 10 ^ Z.of_nat (String.length m).
Proof.
  destruct m as [|c m]; [intros []|]. intros [Hc Hm].
  assert (Hsign : c <> "-"%char /\ c <> "+"%char).
  { split; intros ->; discriminate Hc. }
  assert (Hbody : PyStr.int_of_str (String c m)
                  = Ok (PyStr.digits_val 0 (String c m))).
  { unfold PyStr.int_of_str.
    assert (Hsel : match String c m with
                   | String "-" s' => (true, s')
                   | String "+" s' => (false, s')
                   | _ => (false, String c m)
                   end = (false, String c m)).
    { destruct Hsign as [H1 H2].
      destruct c as [[] [] [] [] [] [] [] []]; try reflexivity; congruence. }
    rewrite Hsel. cbn [String.length PyStr.all_digits].
    rewrite (nonzero_is_digit c Hc), Hm. reflexivity. }
  eexists. split; [exact Hbody|].
  cbn [PyStr.digits_val String.length].
  pose proof (digits_val_range (0 * 10 + PyStr.digit_val c) m Hm) as Hr.
  assert (Hd : 1 <= PyStr.digit_val c <= 9).
  { unfold Vector.is_nonzero_digit in Hc. unfold PyStr.digit_val. cbv zeta in Hc.
    rewrite andb_true_iff, !Nat.leb_le in Hc. lia. }
  replace (Z.of_nat (S (String.length m)) - 1) with (Z.of_nat (String.length m)) by lia.
  rewrite Nat2Z.inj_succ, Z.pow_succ_r by lia.
  assert (0 < 10 ^ Z.of_nat (String.length m)) by (apply Z.pow_pos_nonneg; lia).
  nia.
Qed.

Lemma randint_Ok low high st r st' :
  0 <= low -> high - 1 - low <> 0xFFFFFFFF ->
  RandomState.randint low high st = Ok (r, st') -> low <= r < high.
Proof.
  intros Hlow H32 Hrun.
  destruct (Z_lt_le_dec low high) as [Hlt|Hge].
  - destruct (Z_le_gt_dec high (2 ^ 63)) as [Hhi|Hhi].
    + pose proof (randint_range low high st (conj Hlow Hlt) Hhi H32) as Hr.
      rewrite Hrun in Hr. exact Hr.
    + unfold RandomState.randint, RandomState.check_bounds in Hrun.
      destruct (Z.ltb_spec low (- 2 ^ 63)); [discriminate|].
      destruct (Z.gtb_spec (high - 1) (2 ^ 63 - 1)); [discriminate|lia].
  - unfold RandomState.randint, RandomState.check_bounds in Hrun.
    destruct (Z.ltb_spec low (- 2 ^ 63)); [discriminate|].
    destruct (Z.gtb_spec (high - 1) (2 ^ 63 - 1)); [discriminate|].
    destruct (Z.gtb_spec low (high - 1)); [discriminate|lia].
Qed.

Lemma decade_not_2_32 k : 1 <= k -> 10 ^ k - 1 - 10 ^ (k - 1) <> 0xFFFFFFFF.
Proof.
  intros Hk. replace (10 ^ k) with (10 * 10 ^ (k - 1))
    by (rewrite <- Z.pow_succ_r by lia; f_equal; lia).
  destruct (Z_lt_le_dec (k - 1) 10) as [Hs|Hl].
  - assert (Hc : k - 1 = 0 \/ k - 1 = 1 \/ k - 1 = 2 \/ k - 1 = 3 \/ k - 1 = 4
                 \/ k - 1 = 5 \/ k - 1 = 6 \/ k - 1 = 7 \/ k - 1 = 8 \/ k - 1 = 9) by lia.
    repeat (destruct Hc as [Hc|Hc]; [rewrite Hc; cbn; lia|]). rewrite Hc. cbn. lia.
  - assert (10 ^ 10 <= 10 ^ (k - 1)) by (apply Z.pow_le_mono_r; lia).
    change (10 ^ 10) with 10000000000 in *. lia.
Qed.

(** The transform of an integer of [k] digits, when it returns, has a
    text of [k] characters. *)
Lemma transform_int_length n seed t k :
  1 <= k -> 10 ^ (k - 1) <= n < 10 ^ k ->
  Vector.transform_int n seed = Ok t ->
  Z.of_nat (String.length (PyStr.str_int t)) = k.
Proof.
  intros Hk Hn. unfold Vector.transform_int.
  destruct (RandomState.of_seed seed) as [rs|]; [|discriminate].
  cbn [mbind result_bind]. unfold Vector.transform_int_with.
  rewrite (str_int_length n k Hk Hn).
  destruct (RandomState.randint (10 ^ (k - 1)) (10 ^ k) rs) as [[r st]|] eqn:Hr;
    [|discriminate].
  cbn. intros Heq. injection Heq as <-.
  apply randint_Ok in Hr.
  - apply str_int_length; assumption.
  - apply Z.pow_nonneg. lia.
  - apply decade_not_2_32, Hk.
Qed.

Lemma replace_loop_length seed (ms : list (Z * string)) (value out : string) :
  Forall (fun p : Z * string => is_match p.2) ms ->
  for_ ms (fun '(i, m) value =>
             n ← PyStr.int_of_str m;
             t ← Vector.transform_int n (seed + i);
             Ok (Vector.replace m (PyStr.str_int t) value)) value = Ok out ->
  String.length out = String.length value.
Proof.
  intros Hms. revert value. induction Hms as [|[i m] ms Hm _ IH]; intros value; cbn [for_].
  - intros Heq. injection Heq as <-. reflexivity.
  - cbn in Hm. destruct (int_of_match m Hm) as (n & Hn & Hrange).
    rewrite Hn. cbn [mbind result_bind].
    destruct (Vector.transform_int n (seed + i)) as [t|] eqn:Ht; [|discriminate].
    cbn [mbind result_bind]. intros Hrun. rewrite (IH _ Hrun).
    assert (Hpos : (0 < String.length m)%nat) by (destruct m; [destruct Hm|cbn; lia]).
    apply transform_int_length with (k := Z.of_nat (String.length m)) in Ht; [|lia|exact Hrange].
    unfold Vector.replace. rewrite replace_from_length; lia.
Qed.

(** X12: when [transform_value] returns on a string, the result is a
    string of the same length: every replacement puts a number of as
    many digits in the place of a match.  A digit run too long for the
    generator, or a seed it refuses, make the call raise instead. *)
Theorem transform_value_str_length (s : string) (seed : Z) (v : Vector.value) :
  Vector.transform_value (Vector.VStr s) seed = Ok v ->
  exists s', v = Vector.VStr s' /\ String.length s' = String.length s.
Proof.
  unfold Vector.transform_value.
  destruct (RandomState.of_seed seed) as [rs|]; [|discriminate].
  cbn [mbind result_bind].
  destruct (for_ _ _ s) as [out|] eqn:Hloop; [|discriminate].
  cbn. intros Heq. injection Heq as <-. exists out. split; [reflexivity|].
  apply replace_loop_length in Hloop; [exact Hloop|].
  apply Forall_lookup_2. intros j [i m] Hj.
  apply list_lookup_imap_Some in Hj as (m' & Hm' & Heq). injection Heq as -> ->.
  cbn. eapply Forall_lookup_1; [|exact Hm'].
  apply findall_matches. discriminate.
Qed.

Lemma transform_value_str_length_witness :
  exists s', Vector.VStr "50 5" = Vector.VStr s'
             /\ String.length s' = String.length "12 2".
Proof.
  apply (transform_value_str_length "12 2" 6). vm_compute. reflexivity.
Defined.

Lemma findall_none s :
  Forall (fun c => Vector.is_nonzero_digit c = false) (list_ascii_of_string s) ->
  Vector.findall None s = [].
Proof.
  induction s as [|c s IH]; cbn; [reflexivity|].
  intros Hs. apply Forall_cons in Hs as [Hc Hs]. rewrite Hc. apply IH, Hs.
Qed.

(** X13: a string without a digit from 1 to 9 is returned as it is
    under a seed from 0 to 2^32 - 1; under any other seed the call
    raises ValueError, for the generator is made before the value is
    looked at. *)
Theorem transform_value_str_plain (s : string) (seed : Z) :
  Forall (fun c => Vector.is_nonzero_digit c = false) (list_ascii_of_string s) ->
  Vector.transform_value (Vector.VStr s) seed
  = if (0 <=? seed) && (seed <? 2 ^ 32) then Ok (Vector.VStr s) else Raise ValueError.
Proof.
  intros Hs. unfold Vector.transform_value, RandomState.of_seed.
  destruct (Z.gtb_spec seed (2 ^ 32 - 1)), (Z.ltb_spec seed 0),
           (Z.leb_spec 0 seed), (Z.ltb_spec seed (2 ^ 32)); try lia; cbn; try reflexivity.
  rewrite (findall_none s Hs). reflexivity.
Qed.

Lemma transform_value_str_plain_witness :
  Vector.transform_value (Vector.VStr "Road 0, km 00") 7 = Ok (Vector.VStr "Road 0, km 00")
  /\ Vector.transform_value (Vector.VStr "Road 0, km 00") (-1) = Raise ValueError.
Proof.
  split.
  - apply (transform_value_str_plain "Road 0, km 00" 7). repeat constructor.
  - apply (transform_value_str_plain "Road 0, km 00" (-1)). repeat constructor.
Defined.

(** ** The shape of a transformed integer *)

Lemma str_int_nonempty v : (0 < String.length (PyStr.str_int v))%nat.
Proof.
  unfold PyStr.str_int.
  assert (Hd : forall fuel n, (0 < length (PyStr.digits_rev (S fuel) n))%nat).
  { intros fuel n. cbn [PyStr.digits_rev]. destruct (n <? 10); cbn; lia. }
  destruct (v <? 0); cbn [String.length]; [lia|].
  rewrite length_string_of_list_ascii, length_rev. apply Hd.
Qed.

(** X14: whenever [transform_value] returns on an integer, the result
    is a positive integer whose text is as long as the text of the
    argument, sign included: a negative integer becomes a positive one
    with one digit more, and 0 becomes a digit from 1 to 9. *)
Theorem transform_value_int_shape (v seed : Z) (w : Vector.value) :
  Vector.transform_value (Vector.VInt v) seed = Ok w ->
  exists r, w = Vector.VInt r /\ 0 < r
            /\ String.length (PyStr.str_int r) = String.length (PyStr.str_int v).
Proof.
  unfold Vector.transform_value.
  destruct (RandomState.of_seed seed) as [rs|]; [|discriminate].
  cbn [mbind result_bind]. unfold Vector.transform_int_with.
  pose proof (str_int_nonempty v) as Hpos.
  set (nod := Z.of_nat (String.length (PyStr.str_int v))) in *.
  destruct (RandomState.randint (10 ^ (nod - 1)) (10 ^ nod) rs) as [[r st]|] eqn:Hr;
    [|discriminate].
  cbn. intros Heq. injection Heq as <-. exists r. split; [reflexivity|].
  assert (Hnod : 1 <= nod) by (unfold nod; lia).
  apply randint_Ok in Hr; [|apply Z.pow_nonneg; lia|apply decade_not_2_32, Hnod].
  assert (0 < 10 ^ (nod - 1)) by (apply Z.pow_pos_nonneg; lia).
  split; [lia|]. apply Nat2Z.inj. apply (str_int_length r nod Hnod Hr).
Qed.

Lemma transform_value_int_shape_witness :
  exists r, Vector.VInt 974 = Vector.VInt r /\ 0 < r
            /\ String.length (PyStr.str_int r) = String.length (PyStr.str_int (-15)).
Proof.
  apply (transform_value_int_shape (-15) 3). vm_compute. reflexivity.
Defined.

(** ** Chunks and fictitious entries *)

(** The test [upper - lower < nmin] of the source, on floats, is the
    comparison with 100. *)
Lemma below_nmin k :
  0 <= k <= 1000 ->
  PrimFloat.ltb (PyFloat.of_Z k) Vector.nmin = (k <? 100).
Proof.
  intros Hk.
  assert (Hall : forallb (fun k => Bool.eqb (PrimFloat.ltb (PyFloat.of_Z k) Vector.nmin)
                                            (k <? 100)) (seqZ 0 1001) = true)
    by (vm_compute; reflexivity).
  rewrite forallb_forall in Hall. apply eqb_prop, Hall, list_elem_of_In, elem_of_seqZ. lia.
Qed.

Definition chunk_of (n i : Z) : option (Z * Z) :=
  let lower := i * Vector.N in
  let upper := Z.min ((i + 1) * Vector.N) n in
  if PrimFloat.ltb (PyFloat.of_Z (upper - lower)) Vector.nmin then None
  else Some (lower, upper).

Lemma chunks_unfold n : Vector.chunks n = omap (chunk_of n) (range 0 (Vector.ceil_div n Vector.N)).
Proof. reflexivity. Qed.

Lemma omap_total {A B} (f : A -> option B) (g : A -> B) (l : list A) :
  (forall x, x ∈ l -> f x = Some (g x)) -> omap f l = g <$> l.
Proof.
  induction l as [|a l IH]; intros Hf; cbn; [reflexivity|].
  rewrite (Hf a) by left. cbn. f_equal. apply IH. intros x Hx. apply Hf. right. exact Hx.
Qed.

(** The chunks of [n] records: one for every full thousand, and one
    more for the rest when that is a hundred records or more. *)
Lemma chunks_spec n :
  0 <= n ->
  Vector.chunks n
  = ((fun i => (i * 1000, (i + 1) * 1000)) <$> seqZ 0 (n / 1000))
    ++ (if 100 <=? n mod 1000 then [(n / 1000 * 1000, n)] else []).
Proof.
  intros Hn. rewrite chunks_unfold. unfold Vector.ceil_div, Vector.N, range.
  pose proof (Z.div_mod n 1000 ltac:(lia)) as Hdm.
  pose proof (Z.mod_pos_bound n 1000 ltac:(lia)) as Hm.
  set (q := n / 1000) in *. set (r := n mod 1000) in *.
  assert (Hq : 0 <= q) by (apply Z.div_pos; lia).
  assert (Hc : (n + 1000 - 1) / 1000 - 0 = q + (if r =? 0 then 0 else 1)).
  { destruct (Z.eqb_spec r 0).
    - rewrite Z.sub_0_r, Z.add_0_r. symmetry. apply Z.div_unique with (r := 999); lia.
    - rewrite Z.sub_0_r. symmetry. apply Z.div_unique with (r := r - 1); lia. }
  rewrite Hc, seqZ_app by (destruct (r =? 0); lia). rewrite omap_app. f_equal.
  - apply omap_total. intros i Hi. apply elem_of_seqZ in Hi.
    unfold chunk_of, Vector.N. cbv zeta.
    rewrite Z.min_l by nia.
    rewrite below_nmin by lia.
    destruct (Z.ltb_spec ((i + 1) * 1000 - i * 1000) 100); [lia|reflexivity].
  - rewrite Z.add_0_l. destruct (Z.eqb_spec r 0) as [Hr|Hr].
    + cbn. destruct (Z.leb_spec 100 r); [lia|reflexivity].
    + rewrite seqZ_cons, seqZ_nil by lia. cbn [omap list_omap].
      unfold chunk_of, Vector.N. cbv zeta.
      rewrite Z.min_r by lia. rewrite below_nmin by lia.
      replace (n - q * 1000) with r by lia.
      destruct (Z.ltb_spec r 100), (Z.leb_spec 100 r); try lia; reflexivity.
Qed.

Lemma chunks_length n :
  0 <= n ->
  Z.of_nat (length (Vector.chunks n)) = n / 1000 + (if 100 <=? n mod 1000 then 1 else 0).
Proof.
  intros Hn. rewrite (chunks_spec n Hn), length_app, length_fmap, length_seqZ.
  assert (0 <= n / 1000) by (apply Z.div_pos; lia).
  destruct (100 <=? n mod 1000); cbn [length]; lia.
Qed.

(** Intervals one after the other between two bounds, none of them
    empty or longer than a thousand. *)
Fixpoint intervals (lo : Z) (cs : list (Z * Z)) (hi : Z) : Prop :=
  match cs with
  | [] => True
  | (l, u) :: cs' => lo <= l /\ l < u /\ u <= hi /\ u - l <= 1000 /\ intervals u cs' hi
  end.

Lemma intervals_weaken lo lo' cs hi :
  lo' <= lo -> intervals lo cs hi -> intervals lo' cs hi.
Proof. destruct cs as [|[l u] cs]; cbn; [auto|]. intros Hle (H1 & H2); split; [lia|exact H2]. Qed.

Lemma chunk_list_intervals n (k : nat) a :
  0 <= a -> (a + Z.of_nat k) * 1000 < n + 1000 ->
  intervals (a * 1000) (omap (chunk_of n) (seqZ a (Z.of_nat k))) n.
Proof.
  revert a. induction k as [|k IH]; intros a Ha Hk.
  - exact I.
  - rewrite seqZ_cons by lia. cbn [omap list_omap].
    replace (Z.pred (Z.of_nat (S k))) with (Z.of_nat k) by lia.
    specialize (IH (Z.succ a) ltac:(lia) ltac:(lia)).
    unfold chunk_of at 1. unfold Vector.N. cbv zeta.
    destruct (PrimFloat.ltb _ Vector.nmin).
    + apply (intervals_weaken (Z.succ a * 1000)); [lia|exact IH].
    + cbn [intervals]. repeat split; try lia.
      apply (intervals_weaken (Z.succ a * 1000)); [lia|exact IH].
Qed.

Lemma chunks_intervals n : 0 <= n -> intervals 0 (Vector.chunks n) n.
Proof.
  intros Hn. rewrite chunks_unfold. unfold range, Vector.ceil_div, Vector.N.
  rewrite Z.sub_0_r.
  assert (Hc : 0 <= (n + 1000 - 1) / 1000) by (apply Z.div_pos; lia).
  pose proof (Z.mul_div_le (n + 1000 - 1) 1000 ltac:(lia)) as Hle.
  replace ((n + 1000 - 1) / 1000) with (Z.of_nat (Z.to_nat ((n + 1000 - 1) / 1000))) by lia.
  apply (chunk_list_intervals n _ 0); lia.
Qed.

Lemma rows_of_chunks_spec self size cs rs rws :
  Vector.columns (Vector._df self) <> [] ->
  Vector.rows_of_chunks self size cs rs = Ok rws ->
  length rws = length cs
  /\ Forall (fun row => one_row row
                        /\ Vector.columns row = Vector.columns (Vector._df self)) rws.
Proof.
  intros Hcols. revert rs rws. induction cs as [|[lower upper] cs IH]; intros rs rws;
    cbn [Vector.rows_of_chunks].
  - intros Heq. injection Heq as <-. split; [reflexivity|constructor].
  - destruct (RandomState.randint_size lower upper size rs) as [[rand_map rs']|];
      [|discriminate].
    cbn [mbind result_bind].
    destruct (Vector.create_random_row self rand_map) as [row|] eqn:Hrow; [|discriminate].
    cbn [mbind result_bind].
    destruct (Vector.rows_of_chunks self size cs rs') as [rws'|] eqn:Hrws; [|discriminate].
    cbn [mbind result_bind]. intros Heq. injection Heq as <-.
    destruct (IH _ _ Hrws) as [Hlen Hall]. split; [cbn; lia|].
    constructor; [|exact Hall]. split.
    + eapply create_random_row_one_row; eauto.
    + unfold Vector.create_random_row in Hrow.
      destruct (mapM _ _) as [vals|]; [|discriminate].
      cbn [mbind result_bind] in Hrow.
      destruct (Vector.geometry_column (Vector._df self)) as [gs|];
        [destruct (getitem rand_map (-1)) as [idx|]|]; cbn in Hrow; try discriminate;
        injection Hrow as <-; reflexivity.
Qed.

(** X15: when [get_random_rows] returns for a dataframe of [n] records
    with at least one column, it returns one dataframe for every full
    thousand of records, and one more when the records left over are a
    hundred or more; each holds one row under the columns of the
    dataframe. *)
Theorem get_random_rows_count environ self uuid rws :
  Vector.columns (Vector._df self) <> [] ->
  Vector.get_random_rows environ self uuid = Ok rws ->
  Z.of_nat (length rws)
  = Vector.len (Vector._df self) / 1000
    + (if 100 <=? Vector.len (Vector._df self) mod 1000 then 1 else 0)
  /\ Forall (fun row => Vector.len row = 1
                        /\ Vector.columns row = Vector.columns (Vector._df self)) rws.
Proof.
  intros Hcols. unfold Vector.get_random_rows.
  destruct (Vector._random_state environ self uuid) as [rs|]; [|discriminate].
  cbn [mbind result_bind]. intros Hrun.
  apply rows_of_chunks_spec in Hrun as [Hlen Hall]; [|exact Hcols]. split.
  - rewrite Hlen. apply chunks_length. unfold Vector.len. lia.
  - eapply Forall_impl; [exact Hall|]. intros row [(vals & Hrows & _) Hc].
    split; [|exact Hc]. unfold Vector.len. rewrite Hrows. reflexivity.
Qed.

Lemma get_random_rows_count_witness :
  Z.of_nat (length [{| Vector.columns := ["a"%string]; Vector.rows := [[Vector.VInt 1610]];
                       Vector.geometry_column := None |}])
  = Vector.len Entries.hundred / 1000
    + (if 100 <=? Vector.len Entries.hundred mod 1000 then 1 else 0)
  /\ Forall (fun row => Vector.len row = 1
                        /\ Vector.columns row = Vector.columns Entries.hundred)
            [{| Vector.columns := ["a"%string]; Vector.rows := [[Vector.VInt 1610]];
                Vector.geometry_column := None |}].
Proof.
  apply (get_random_rows_count None (Entries.accessor Entries.hundred) "U").
  - intros Hx; discriminate Hx.
  - vm_compute; reflexivity.
Defined.

Lemma indices_of_chunks_spec lo cs hi g idxs g' :
  0 <= lo -> intervals lo cs hi ->
  Vector.indices_of_chunks cs g = Ok (idxs, g') ->
  length idxs = length cs /\ ascending lo idxs hi.
Proof.
  revert lo g idxs g'. induction cs as [|[l u] cs IH]; intros lo g idxs g' Hlo;
    cbn [Vector.indices_of_chunks intervals].
  - intros _ Heq. injection Heq as <- <-. split; [reflexivity|exact I].
  - intros (H1 & H2 & H3 & H4 & Hrest).
    destruct (RandomState.randint l u g) as [[i g1]|] eqn:Hi; [|discriminate].
    cbn [mbind result_bind].
    destruct (Vector.indices_of_chunks cs g1) as [[idxs' g2]|] eqn:Hcs; [|discriminate].
    cbn [mbind result_bind]. intros Heq. injection Heq as <- <-.
    apply randint_Ok in Hi; [|lia|lia].
    destruct (IH u g1 idxs' g2 ltac:(lia) Hrest Hcs) as [Hlen Hasc].
    split; [cbn; lia|]. cbn [ascending]. split; [lia|].
    apply (ascending_weaken u); [lia|exact Hasc].
Qed.

(** The body of the loop of [embed_fictitious_entries]. *)
Definition entries_step (df : Vector.frame) (rws : list Vector.frame)
  : Z * Z -> Z * list Vector.frame -> result (Z * list Vector.frame) :=
  fun '(i, idx) '(offset, dfs) =>
    row ← getitem rws i;
    Ok (idx, dfs ++ [Vector.slice df offset idx; row]).

Lemma embed_fictitious_entries_unfold environ g self uuid :
  Vector.embed_fictitious_entries environ g self uuid
  = (rws ← Vector.get_random_rows environ self uuid;
     '(indices, g) ← Vector.random_indices self g;
     '(offset, dfs) ←
       for_ (imap (fun i idx => (Z.of_nat i, idx)) indices)
            (entries_step (Vector._df self) rws) (0, []);
     Ok (Vector.concatenated (Vector._has_geometry self)
           (dfs ++ [Vector.slice (Vector._df self) offset (Vector.len (Vector._df self))]),
         g)).
Proof. reflexivity. Qed.

(** [l] is made of the elements of [a] and of [b], each list in its
    order, and of nothing else. *)
Inductive interleaved {A : Type} : list A -> list A -> list A -> Prop :=
| interleaved_nil : interleaved [] [] []
| interleaved_left x a b l : interleaved a b l -> interleaved (x :: a) b (x :: l)
| interleaved_right x a b l : interleaved a b l -> interleaved a (x :: b) (x :: l).

Lemma interleaved_only_left {A} (a : list A) : interleaved a [] a.
Proof. induction a; constructor; assumption. Qed.

Lemma interleaved_only_right {A} (b : list A) : interleaved [] b b.
Proof. induction b; constructor; assumption. Qed.

Lemma interleaved_app {A} (a b l a' b' l' : list A) :
  interleaved a b l -> interleaved a' b' l' -> interleaved (a ++ a') (b ++ b') (l ++ l').
Proof.
  intros H H'. induction H; cbn; [exact H' | constructor; assumption..].
Qed.

Lemma interleaved_then {A} (a b : list A) : interleaved a b (a ++ b).
Proof. induction a; cbn; [apply interleaved_only_right|constructor; assumption]. Qed.

Lemma interleaved_length {A} (a b l : list A) :
  interleaved a b l -> length l = (length a + length b)%nat.
Proof. induction 1; cbn; lia. Qed.

Lemma interleaved_sublist {A} (a b l : list A) :
  interleaved a b l -> a `sublist_of` l /\ b `sublist_of` l.
Proof.
  induction 1 as [|x a b l _ [IHa IHb]|x a b l _ [IHa IHb]].
  - split; constructor.
  - split; [apply sublist_skip, IHa | apply sublist_cons, IHb].
  - split; [apply sublist_cons, IHa | apply sublist_skip, IHb].
Qed.

Section Entries.
Variable df : Vector.frame.
Variable rws : list Vector.frame.
Hypothesis Hrws : Forall one_row rws.

(** What holds of the frames gathered after [k] rounds: they are the
    rows below the offset and the first [k] synthetic rows. *)
Definition entries_inv (k : nat) (st : Z * list Vector.frame) : Prop :=
  0 <= st.1 <= Vector.len df
  /\ length (st.2 ≫= Vector.rows) = (Z.to_nat st.1 + k)%nat
  /\ interleaved (take (Z.to_nat st.1) (Vector.rows df)) (take k rws ≫= Vector.rows)
                 (st.2 ≫= Vector.rows)
  /\ (forall d, head st.2 = Some d -> Vector.columns d = Vector.columns df).

Lemma entries_loop_inv (idxs : list Z) (k : nat) st st' :
  entries_inv k st ->
  ascending st.1 idxs (Vector.len df) ->
  (k + length idxs = length rws)%nat ->
  for_ (imap (fun i idx => (Z.of_nat (k + i), idx)) idxs) (entries_step df rws) st = Ok st' ->
  entries_inv (k + length idxs) st'.
Proof.
  revert k st. induction idxs as [|idx idxs IH]; intros k [offset dfs] Hinv Hasc Hlen;
    cbn [for_ imap].
  - intros Heq. injection Heq as <-. rewrite Nat.add_0_r. exact Hinv.
  - cbn [ascending fst] in Hasc. destruct Hasc as [Hidx Hasc].
    destruct Hinv as (Hoff & Hl & Hmix & Hcols). cbn [fst snd] in *.
    cbn [length] in Hlen.
    destruct (lookup_lt_is_Some_2 rws k) as [row Hrow]; [lia|].
    pose proof (Forall_lookup_1 _ _ _ _ Hrws Hrow) as (vals & Hvals & _).
    assert (Hstep : entries_step df rws (Z.of_nat (k + 0), idx) (offset, dfs)
                    = Ok (idx, dfs ++ [Vector.slice df offset idx; row])).
    { unfold entries_step. rewrite Nat.add_0_r, (getitem_nat _ _ _ Hrow). reflexivity. }
    rewrite Hstep. cbn [mbind result_bind]. intros Hrun.
    replace (k + length (idx :: idxs))%nat with (S k + length idxs)%nat by (cbn; lia).
    unfold Vector.len in *.
    apply (IH (S k) (idx, dfs ++ [Vector.slice df offset idx; row])).
    + unfold entries_inv. cbn [fst snd]. unfold Vector.len.
      rewrite bind_app, bind_two. cbn [Vector.slice Vector.rows]. rewrite Hvals.
      split; [lia|]. split; [|split].
      * rewrite !length_app, Hl, length_py_slice by lia. cbn. lia.
      * rewrite <- (take_py_slice (Vector.rows df) offset idx) by lia.
        rewrite (take_S_r _ _ _ Hrow), bind_app, bind_one, Hvals.
        apply interleaved_app; [exact Hmix|].
        apply interleaved_then.
      * intros d. destruct dfs as [|d0 ds]; cbn.
        -- intros Heq. injection Heq as <-. reflexivity.
        -- intros Heq. apply Hcols. exact Heq.
    + cbn [fst]. apply (ascending_weaken (idx + 1)); [lia|exact Hasc].
    + lia.
    + erewrite imap_ext; [exact Hrun|]. intros i x _. cbn. do 2 f_equal. lia.
Qed.

End Entries.

(** X16: when [embed_fictitious_entries] returns for a dataframe with
    at least one column, the output has the columns of the dataframe,
    and its rows are the rows of the dataframe and the rows that
    [get_random_rows] made, interleaved: both lists are there whole and
    in their order, and the output holds no other row. *)
Theorem embed_fictitious_entries_rows environ g self uuid out g' :
  Vector.columns (Vector._df self) <> [] ->
  Vector.embed_fictitious_entries environ g self uuid = Ok (out, g') ->
  exists rws,
    Vector.get_random_rows environ self uuid = Ok rws
    /\ interleaved (Vector.rows (Vector._df self)) (rws ≫= Vector.rows) (Vector.rows out)
    /\ length (Vector.rows out) = (length (Vector.rows (Vector._df self)) + length rws)%nat
    /\ Vector.rows (Vector._df self) `sublist_of` Vector.rows out
    /\ (rws ≫= Vector.rows) `sublist_of` Vector.rows out
    /\ Vector.columns out = Vector.columns (Vector._df self).
Proof.
  intros Hcols. rewrite embed_fictitious_entries_unfold.
  destruct (Vector.get_random_rows environ self uuid) as [rws|] eqn:Hget; [|discriminate].
  cbn [mbind result_bind].
  destruct (Vector.random_indices self g) as [[indices g1]|] eqn:Hidx; [|discriminate].
  cbn [mbind result_bind].
  destruct (for_ _ _ (0, [])) as [[offset dfs]|] eqn:Hloop; [|discriminate].
  cbn [mbind result_bind]. intros Heq. injection Heq as <- <-.
  exists rws. split; [reflexivity|].
  assert (Hn : 0 <= Vector.len (Vector._df self)) by (unfold Vector.len; lia).
  unfold Vector.get_random_rows in Hget.
  destruct (Vector._random_state environ self uuid) as [rs|]; [|discriminate].
  cbn [mbind result_bind] in Hget.
  apply rows_of_chunks_spec in Hget as [Hlen Hall]; [|exact Hcols].
  unfold Vector.random_indices in Hidx.
  apply (indices_of_chunks_spec 0 _ (Vector.len (Vector._df self))) in Hidx
    as [Hilen Hasc]; [|lia|apply chunks_intervals, Hn].
  assert (Hone : Forall one_row rws)
    by (eapply Forall_impl; [exact Hall|]; intros row [Hr _]; exact Hr).
  apply (entries_loop_inv (Vector._df self) rws Hone indices 0) in Hloop.
  - destruct Hloop as (Hoff & Hl & Hmix & Hc). cbn [fst snd] in *.
    unfold Vector.len in *. unfold Vector.concatenated.
    cbn [Vector.rows Vector.columns].
    change (fun d => Vector.rows d) with Vector.rows.
    rewrite bind_app, bind_one. cbn [Vector.slice Vector.rows].
    assert (Hall_mix : interleaved (Vector.rows (Vector._df self)) (rws ≫= Vector.rows)
              ((dfs ≫= Vector.rows)
               ++ Vector.py_slice (Vector.rows (Vector._df self)) offset
                    (Z.of_nat (length (Vector.rows (Vector._df self)))))).
    { rewrite <- (take_drop (Z.to_nat offset) (Vector.rows (Vector._df self))) at 1.
      rewrite <- (app_nil_r (rws ≫= Vector.rows)).
      rewrite (take_ge rws) in Hmix by lia.
      apply interleaved_app; [exact Hmix|].
      rewrite py_slice_take_drop by lia. rewrite take_ge by (rewrite length_drop; lia).
      apply interleaved_only_left. }
    split; [exact Hall_mix|].
    destruct (interleaved_sublist _ _ _ Hall_mix) as [Hs1 Hs2].
    split; [|split; [exact Hs1|split; [exact Hs2|]]].
    + rewrite length_app, Hl, length_py_slice by lia. lia.
    + destruct dfs as [|d ds]; cbn; [reflexivity|]. apply Hc. reflexivity.
  - unfold entries_inv. cbn. unfold Vector.len. repeat split; try lia.
    + constructor.
    + discriminate.
  - exact Hasc.
  - lia.
Qed.

Lemma embed_fictitious_entries_rows_witness :
  exists out g' rws,
    Vector.embed_fictitious_entries None Entries.g0 (Entries.accessor Entries.hundred) "U"
    = Ok (out, g')
    /\ interleaved (Vector.rows Entries.hundred) (rws ≫= Vector.rows) (Vector.rows out).
Proof.
  assert (Hout : exists out g',
            Vector.embed_fictitious_entries None Entries.g0
              (Entries.accessor Entries.hundred) "U" = Ok (out, g'))
    by (eexists; eexists; vm_compute; reflexivity).
  destruct Hout as (out & g' & Hout).
  destruct (embed_fictitious_entries_rows None Entries.g0
              (Entries.accessor Entries.hundred) "U" out g')
    as (rws & _ & Hmix & _); [intros Hx; discriminate Hx | exact Hout |].
  exists out, g', rws. split; [exact Hout | exact Hmix].
Defined.

(** ** Selected geometries *)

Lemma elem_of_insert_unique y x l : y ∈ Vector.insert_unique x l -> y = x \/ y ∈ l.
Proof.
  induction l as [|z l IH]; cbn.
  - intros Hy. apply list_elem_of_singleton in Hy. auto.
  - destruct (x <? z).
    + intros Hy. apply elem_of_cons in Hy as [->|Hy]; auto.
    + destruct (x =? z); [auto|].
      intros Hy. apply elem_of_cons in Hy as [->|Hy]; [right; left|].
      destruct (IH Hy) as [->|Hl]; [auto|]. right. right. exact Hl.
Qed.

Lemma elem_of_unique y l : y ∈ Vector.unique l -> y ∈ l.
Proof.
  induction l as [|x l IH]; cbn; [auto|].
  intros Hy. apply elem_of_insert_unique in Hy as [->|Hy]; [left|right; auto].
Qed.

Lemma insert_unique_length x l :
  (length (Vector.insert_unique x l) <= S (length l))%nat.
Proof.
  induction l as [|z l IH]; cbn [Vector.insert_unique length]; [lia|].
  destruct (x <? z); [cbn [length]; lia|]. destruct (x =? z); cbn [length]; lia.
Qed.

Lemma unique_length l : (length (Vector.unique l) <= length l)%nat.
Proof.
  induction l as [|x l IH]; cbn [Vector.unique foldr length]; [lia|].
  fold (Vector.unique l).
  pose proof (insert_unique_length x (Vector.unique l)). lia.
Qed.

Lemma elem_of_candidates gs x :
  x ∈ Vector.candidates gs ->
  0 <= x /\ exists g, gs !! Z.to_nat x = Some g /\ Vector.has_type g = true.
Proof.
  unfold Vector.candidates. rewrite list_elem_of_omap.
  intros ([i g] & Hin & Hsome).
  apply elem_of_lookup_imap in Hin as (j & g' & Heq & Hj).
  injection Heq as -> ->.
  destruct (Vector.has_type g') eqn:Ht; [|discriminate]. injection Hsome as <-.
  split; [lia|]. exists g'. rewrite Nat2Z.id. auto.
Qed.

Lemma fill_length n off rng st vs st' :
  RandomState.fill n off rng st = Ok (vs, st') -> length vs = n.
Proof.
  revert st vs st'. induction n as [|n IH]; intros st vs st'; cbn [RandomState.fill].
  - intros Heq. injection Heq as <- <-. reflexivity.
  - destruct (RandomState.random_bounded_uint64 off rng st) as [[v st1]|]; [|discriminate].
    cbn [mbind result_bind].
    destruct (RandomState.fill n off rng st1) as [[vs' st2]|] eqn:Hf; [|discriminate].
    cbn [mbind result_bind]. intros Heq. injection Heq as <- <-.
    cbn. f_equal. eapply IH, Hf.
Qed.

Lemma randint_size_length low high size st vs st' :
  RandomState.randint_size low high size st = Ok (vs, st') ->
  Z.of_nat (length vs) = size.
Proof.
  unfold RandomState.randint_size.
  destruct (Z.ltb_spec size 0); [discriminate|].
  destruct (Z.eqb_spec size 0) as [->|Hnz].
  - intros Heq. injection Heq as <- <-. reflexivity.
  - destruct (RandomState.check_bounds low high) as [[off rng]|]; [|discriminate].
    cbn [mbind result_bind]. intros Hf. apply fill_length in Hf. lia.
Qed.

(** X17: the features [get_random_geometries] returns are positions of
    the dataframe in strictly ascending order, each the position of a
    line string, a polygon or a collection of those, given with the
    geometry that stands there; there are at most ten of them for
    every thousand such features, counted upwards. *)
Theorem get_random_geometries_selected self rs indices geoms rs' :
  Vector.get_random_geometries self rs = Ok (indices, geoms, rs') ->
  exists gs,
    Vector.geometry_column (Vector._df self) = Some gs
    /\ ascending 0 indices (Z.of_nat (length gs))
    /\ length geoms = length indices
    /\ (forall k idx, indices !! k = Some idx ->
          exists g, geoms !! k = Some g /\ gs !! Z.to_nat idx = Some g
                    /\ Vector.has_type g = true)
    /\ Z.of_nat (length indices)
       <= Vector.ceil_div (Z.of_nat (length (Vector.candidates gs))) 1000 * 10.
Proof.
  intros Hrun. destruct (get_random_geometries_spec _ _ _ _ _ Hrun) as (gs & Hgs & Hasc & Hlen).
  exists gs. split; [exact Hgs|]. split; [exact Hasc|]. split; [exact Hlen|].
  unfold Vector.get_random_geometries in Hrun. rewrite Hgs in Hrun.
  cbn [mbind result_bind] in Hrun. cbv zeta in Hrun.
  destruct (RandomState.randint_size _ _ _ rs) as [[rand_map rs1]|] eqn:Hmap;
    [|discriminate].
  cbn [mbind result_bind] in Hrun.
  destruct (mapM (getitem (Vector.candidates gs)) rand_map) as [taken|] eqn:Htaken;
    [|discriminate].
  cbn [mbind result_bind] in Hrun.
  destruct (mapM (getitem gs) (Vector.unique taken)) as [geometries|] eqn:Hgeoms;
    [|discriminate].
  cbn [mbind result_bind] in Hrun. injection Hrun as <- <- <-. split.
  - intros k idx Hk. pose proof (mapM_Ok _ _ _ Hgeoms) as [_ Hall].
    destruct (Hall k idx Hk) as (g & Hg & Hget). exists g. split; [exact Hg|].
    assert (Hin : idx ∈ Vector.candidates gs).
    { apply mapM_getitem_elem_of in Htaken.
      apply (Forall_forall (fun a => a ∈ Vector.candidates gs) taken); [exact Htaken|].
      apply elem_of_unique. eapply list_elem_of_lookup_2, Hk. }
    apply elem_of_candidates in Hin as (Hpos & g' & Hg' & Ht).
    replace idx with (Z.of_nat (Z.to_nat idx)) in Hget by lia.
    apply getitem_Ok_nat in Hget. split; [exact Hget|]. congruence.
  - apply randint_size_length in Hmap. apply mapM_Ok in Htaken as [Htl _].
    pose proof (unique_length taken). unfold Vector.N in Hmap. lia.
Qed.

Lemma get_random_geometries_selected_witness :
  exists gs,
    Vector.geometry_column Roads.road = Some gs
    /\ ascending 0 [0; 2] (Z.of_nat (length gs)).
Proof.
  assert (Hrun : exists geoms rs',
            Vector.get_random_geometries Roads.self
              (SeedSequence.mt19937 (Vector.seed_of "U" "k")) = Ok ([0; 2], geoms, rs'))
    by (eexists; eexists; vm_compute; reflexivity).
  destruct Hrun as (geoms & rs' & Hrun).
  destruct (get_random_geometries_selected Roads.self _ [0; 2] geoms rs' Hrun)
    as (gs & Hgs & Hasc & _).
  exists gs. split; assumption.
Defined.

Lemma candidates_none_from (f : nat -> Z) gs :
  Forall (fun g => Vector.has_type g = false) gs ->
  omap (fun '(i, g) => if Vector.has_type g then Some i else None)
       (imap (fun i g => (f i, g)) gs) = [].
Proof.
  revert f. induction gs as [|g gs IH]; intros f Hgs; [reflexivity|].
  apply Forall_cons in Hgs as [Hg Hgs]. cbn. rewrite Hg.
  apply (IH (fun i => f (S i)) Hgs).
Qed.

Lemma candidates_none gs :
  Forall (fun g => Vector.has_type g = false) gs -> Vector.candidates gs = [].
Proof. apply (candidates_none_from (fun i => Z.of_nat i)). Qed.

Lemma get_random_geometries_none self rs gs :
  Vector.geometry_column (Vector._df self) = Some gs ->
  Forall (fun g => Vector.has_type g = false) gs ->
  Vector.get_random_geometries self rs = Ok ([], [], rs).
Proof.
  intros Hgs Hnone. unfold Vector.get_random_geometries. rewrite Hgs.
  cbn [mbind result_bind]. cbv zeta. rewrite (candidates_none gs Hnone). reflexivity.
Qed.

(** X18: on a dataframe that has geometries but no line string,
    polygon or collection of those (points only, say), under a key,
    [embed_geometries] raises NameError: nothing is selected, the loop
    does not run, and the test after it reads the loop variable, which
    was never bound.  [detect_geometries] on the same dataframe draws
    nothing either and answers false for every test. *)
Theorem embed_geometries_no_candidate `{Vector.Geos} environ self uuid gs key :
  Vector.geometry_column (Vector._df self) = Some gs ->
  Forall (fun g => Vector.has_type g = false) gs ->
  Vector.resolve_key environ self = Some key ->
  Vector.embed_geometries environ self uuid = Raise NameError
  /\ forall test, Vector.detect_geometries environ self test uuid = Ok false.
Proof.
  intros Hgs Hnone Hkey. split.
  - unfold Vector.embed_geometries, Vector._has_geometry, Vector._random_state.
    rewrite Hgs, Hkey. cbn [negb mbind result_bind].
    rewrite (get_random_geometries_none self _ gs Hgs Hnone). reflexivity.
  - intros test.
    unfold Vector.detect_geometries, Vector._has_geometry, Vector._random_state.
    rewrite Hgs, Hkey. cbn [negb mbind result_bind].
    rewrite (get_random_geometries_none self _ gs Hgs Hnone). reflexivity.
Qed.

Module Points.

(** A dataframe of two points. *)
Definition places : Vector.frame :=
  {| Vector.columns := ["name"%string];
     Vector.rows := [[Vector.VStr "a"]; [Vector.VStr "b"]];
     Vector.geometry_column := Some [Vector.OtherGeometry 0; Vector.OtherGeometry 0] |}.

Definition self : Vector.ipr :=
  {| Vector._df := places; Vector.__key := Some "k"%string |}.

(** A predicate to run detections with: two geometries of one type
    with the same coordinates.  The predicate of the geometry library
    compares the point sets, and so also holds of a geometry and its
    transform; the theorems on detection hold for every predicate. *)
Definition points_eqb (a b : list Vector.point) : bool :=
  (length a =? length b)%nat && forallb (fun p => Vector.point_eqb p.1 p.2) (zip a b).

Definition rings_eqb (a b : list (list Vector.point)) : bool :=
  (length a =? length b)%nat && forallb (fun p => points_eqb p.1 p.2) (zip a b).

Definition same_coordinates (a b : Vector.geometry) : bool :=
  match a, b with
  | Vector.LineString x, Vector.LineString y => points_eqb x y
  | Vector.Polygon x, Vector.Polygon y => rings_eqb x y
  | Vector.MultiLineString x, Vector.MultiLineString y => rings_eqb x y
  | Vector.MultiPolygon x, Vector.MultiPolygon y =>
      (length x =? length y)%nat && forallb (fun p => rings_eqb p.1 p.2) (zip x y)
  | Vector.OtherGeometry s, Vector.OtherGeometry t => s =? t
  | _, _ => false
  end.

Definition geos : Vector.Geos := {| Vector.equals := same_coordinates |}.

End Points.

Lemma embed_geometries_no_candidate_witness :
  Vector.embed_geometries None Points.self "U" = Raise NameError
  /\ forall test, Vector.detect_geometries (H := Points.geos) None Points.self test "U"
                  = Ok false.
Proof.
  apply (embed_geometries_no_candidate (H := Points.geos) None Points.self "U"
           [Vector.OtherGeometry 0; Vector.OtherGeometry 0] "k").
  - reflexivity.
  - repeat constructor.
  - reflexivity.
Defined.

(** ** Detection of embedded geometries *)

Lemma embed_loop_keeps df rand_geoms ps st st' d :
  for_ ps (Vector.embed_step df rand_geoms) st = Ok st' ->
  d ∈ Vector.dfs st -> d ∈ Vector.dfs st'.
Proof.
  revert st. induction ps as [|[i idx] ps IH]; intros st; cbn [for_].
  - intros Heq. injection Heq as <-. auto.
  - destruct (Vector.embed_step df rand_geoms (i, idx) st) as [st1|] eqn:Hstep;
      [|discriminate].
    cbn [mbind result_bind]. intros Hrun Hd. apply (IH st1 Hrun).
    unfold Vector.embed_step in Hstep.
    destruct (getitem rand_geoms i) as [g|]; [|discriminate].
    cbn [mbind result_bind] in Hstep.
    destruct (Vector.transform_geometry g (Vector.gen st)) as [[geom rs]|]; [|discriminate].
    cbn in Hstep. injection Hstep as <-. cbn. apply elem_of_app. left. exact Hd.
Qed.

(** X19: a dataframe made by [embed_geometries] is detected by
    [detect_geometries] of the same object under the same marker id,
    provided the predicate of the geometry library holds of each of
    its geometries and itself: the detection draws the same features
    and transforms the first of them as the embedding did. *)
Theorem detect_geometries_embedded `{Vector.Geos} environ self uuid out :
  Vector.embed_geometries environ self uuid = Ok out ->
  (forall gs g, Vector.geometry_column out = Some gs -> g ∈ gs ->
                Vector.equals g g = true) ->
  Vector.detect_geometries environ self out uuid = Ok true.
Proof.
  intros Hembed Hrefl. unfold Vector.embed_geometries in Hembed.
  unfold Vector.detect_geometries.
  destruct (negb (Vector._has_geometry self)); [discriminate|].
  destruct (Vector._random_state environ self uuid) as [rs|]; [|discriminate].
  cbn [mbind result_bind] in *.
  destruct (Vector.get_random_geometries self rs) as [[[indices geoms] rs1]|] eqn:Hget;
    [|discriminate].
  cbn [mbind result_bind] in *.
  destruct (get_random_geometries_spec _ _ _ _ _ Hget) as (gs0 & _ & _ & Hlen).
  destruct indices as [|idx0 indices]; [discriminate Hembed|].
  destruct geoms as [|g0 geoms]; [discriminate Hlen|].
  cbn [imap for_] in Hembed.
  destruct (Vector.embed_step (Vector._df self) (g0 :: geoms) (Z.of_nat 0, idx0) _)
    as [st1|] eqn:Hstep; [|discriminate].
  cbn [mbind result_bind] in Hembed.
  destruct (for_ _ _ st1) as [st|] eqn:Hloop; [|discriminate].
  cbn [mbind result_bind] in Hembed.
  destruct (Vector.idx_var st) as [idx|]; [|discriminate].
  cbn [mbind result_bind] in Hembed.
  unfold Vector.embed_step in Hstep. cbn [getitem] in Hstep.
  change (getitem (g0 :: geoms) (Z.of_nat 0)) with (Ok (A:=Vector.geometry) g0) in Hstep.
  cbn [mbind result_bind Vector.gen] in Hstep.
  destruct (Vector.transform_geometry g0 rs1) as [[geom rs2]|] eqn:Htr; [|discriminate].
  cbn [mbind result_bind] in Hstep. injection Hstep as <-.
  cbn [Vector.detect_loop]. rewrite Htr. cbn [mbind result_bind].
  set (row := {| Vector.columns := _; Vector.rows := _;
                 Vector.geometry_column := Some [geom] |}) in Hloop.
  assert (Hrow : row ∈ Vector.dfs st).
  { eapply embed_loop_keeps; [exact Hloop|]. cbn. right. left. }
  assert (Hin : exists gs, Vector.geometry_column out = Some gs /\ geom ∈ gs).
  { injection Hembed as <-. eexists. split; [reflexivity|].
    apply list_elem_of_bind. exists row. split; [cbn; left|].
    destruct (idx <? Vector.len (Vector._df self)); [|exact Hrow].
    apply elem_of_app. left. exact Hrow. }
  destruct Hin as (gs & Hgs & Hgeom). rewrite Hgs.
  assert (Hex : existsb (fun t => Vector.equals t geom) gs = true).
  { apply existsb_exists. exists geom. split; [apply list_elem_of_In, Hgeom|].
    apply (Hrefl gs geom Hgs Hgeom). }
  rewrite Hex. reflexivity.
Qed.

Module Marked.

(** The roads with the embedded geometries. *)
Definition roads : Vector.frame :=
  Eval vm_compute in
    match Vector.embed_geometries None Roads.self "U" with
    | Ok out => out
    | Raise _ => Roads.road
    end.

End Marked.

Lemma detect_geometries_embedded_witness :
  Vector.detect_geometries (H := Points.geos) None Roads.self Marked.roads "U" = Ok true.
Proof.
  apply (detect_geometries_embedded (H := Points.geos) None Roads.self "U" Marked.roads).
  - vm_compute. reflexivity.
  - intros gs g Hgs Hg. injection Hgs as <-.
    repeat (apply elem_of_cons in Hg as [->|Hg]); [| | |inversion Hg];
      vm_compute; reflexivity.
Defined.

(** ** Transformed geometries *)

Lemma setitem_spec {A} (l : list A) (i : Z) (a : A) (l' : list A) :
  setitem l i a = Ok l' ->
  length l' = length l
  /\ exists k, (k < length l)%nat /\ l' = <[k := a]> l.
Proof.
  unfold setitem. destruct (py_index (Z.of_nat (length l)) i) as [k|] eqn:Hk; [|discriminate].
  cbn. intros Heq. injection Heq as <-. split; [apply length_insert|].
  exists k. split; [|reflexivity]. unfold py_index in Hk.
  destruct (Z.leb_spec 0 i), (Z.ltb_spec i (Z.of_nat (length l))); cbn in Hk;
    try (injection Hk as <-; lia);
    destruct (Z.leb_spec (- Z.of_nat (length l)) i), (Z.ltb_spec i 0); cbn in Hk;
    try discriminate; injection Hk as <-; lia.
Qed.

Lemma fill_range n off rng st vs st' :
  0 <= off -> 0 <= rng -> off + rng < 2 ^ 63 -> rng <> 0xFFFFFFFF ->
  RandomState.fill n off rng st = Ok (vs, st') ->
  Forall (fun v => off <= v <= off + rng) vs.
Proof.
  intros Hoff Hrng Hsum H32. revert st vs st'.
  induction n as [|n IH]; intros st vs st'; cbn [RandomState.fill].
  - intros Heq. injection Heq as <- <-. constructor.
  - destruct (RandomState.random_bounded_uint64 off rng st) as [[v st1]|] eqn:Hv;
      [|discriminate].
    cbn [mbind result_bind].
    destruct (RandomState.fill n off rng st1) as [[vs' st2]|] eqn:Hf; [|discriminate].
    cbn [mbind result_bind]. intros Heq. injection Heq as <- <-.
    apply random_bounded_uint64_range in Hv; try lia.
    constructor; [|eapply IH, Hf].
    unfold RandomState.int64_of_uint64. destruct (Z.ltb_spec v (2 ^ 63)); lia.
Qed.

(** The draws of [randint(low, high, size)] lie in [[low, high)]. *)
Lemma randint_size_range low high size st vs st' :
  0 <= low -> high - 1 - low <> 0xFFFFFFFF ->
  RandomState.randint_size low high size st = Ok (vs, st') ->
  Forall (fun v => low <= v < high) vs.
Proof.
  intros Hlow H32. unfold RandomState.randint_size.
  destruct (Z.ltb_spec size 0); [discriminate|].
  destruct (Z.eqb_spec size 0).
  - intros Heq. injection Heq as <- <-. constructor.
  - unfold RandomState.check_bounds.
    destruct (Z.ltb_spec low (- 2 ^ 63)); [discriminate|].
    destruct (Z.gtb_spec (high - 1) (2 ^ 63 - 1)); [discriminate|].
    destruct (Z.gtb_spec low (high - 1)); [discriminate|].
    cbn [mbind result_bind]. unfold MT19937.u64. rewrite Z.mod_small by lia.
    intros Hf. apply fill_range in Hf; try lia.
    eapply Forall_impl; [exact Hf|]. intros v Hv. cbn in Hv. lia.
Qed.

Lemma new_points_ids vertices ids rs new rs' :
  Vector.new_points vertices ids rs = Ok (new, rs') -> new.*1 = ids.
Proof.
  revert rs new rs'. induction ids as [|idx ids IH]; intros rs new rs';
    cbn [Vector.new_points].
  - intros Heq. injection Heq as <- <-. reflexivity.
  - destruct (getitem vertices (idx - 1)) as [a|]; [|discriminate].
    cbn [mbind result_bind].
    destruct (getitem vertices idx) as [b|]; [|discriminate]. cbn [mbind result_bind].
    destruct (Vector.new_point rs a b) as [[p rs1]|]; [|discriminate].
    cbn [mbind result_bind].
    destruct (Vector.new_points vertices ids rs1) as [[ps rs2]|] eqn:Hps; [|discriminate].
    cbn [mbind result_bind]. intros Heq. injection Heq as <- <-.
    cbn. f_equal. eapply IH, Hps.
Qed.

(** Positions in ascending order, repetitions allowed. *)
Fixpoint nondecreasing (lo : Z) (l : list Z) (hi : Z) : Prop :=
  match l with
  | [] => True
  | x :: l' => lo <= x <= hi /\ nondecreasing x l' hi
  end.

Lemma sorted_nondecreasing lo l hi :
  Sorted Z.le l -> Forall (fun x => lo <= x <= hi) l -> nondecreasing lo l hi.
Proof.
  intros Hs. apply Sorted_StronglySorted in Hs; [|intros a b c Hab Hbc; lia].
  revert lo. induction Hs as [|x l Hs IH Hall]; intros lo Hb; [exact I|].
  apply Forall_cons in Hb as [Hx Hb]. cbn. split; [exact Hx|]. apply IH.
  apply Forall_forall. intros z Hz.
  pose proof (proj1 (Forall_forall _ _) Hb z Hz) as Hzb.
  pose proof (proj1 (Forall_forall _ _) Hall z Hz) as Hzx. cbn in Hzb. lia.
Qed.

Lemma extend_spec (vs : list Vector.point) (offset : Z) (new : list (Z * Vector.point)) :
  0 <= offset -> nondecreasing offset new.*1 (Z.of_nat (length vs)) ->
  offset <= Z.of_nat (length vs) ->
  length (Vector.extend vs offset new)
  = (length vs - Z.to_nat offset + length new)%nat
  /\ drop (Z.to_nat offset) vs `sublist_of` Vector.extend vs offset new.
Proof.
  revert offset. induction new as [|[idx e] new IH]; intros offset Hoff Hnd Hle;
    cbn [Vector.extend].
  - rewrite py_slice_take_drop by lia. rewrite take_ge by (rewrite length_drop; lia).
    split; [rewrite length_drop; cbn; lia|reflexivity].
  - cbn in Hnd. destruct Hnd as [Hidx Hnd].
    destruct (IH idx ltac:(lia) Hnd ltac:(lia)) as [Hlen Hsub].
    split.
    + rewrite !length_app, length_py_slice, Hlen by lia. cbn. lia.
    + assert (Hsplit : drop (Z.to_nat offset) vs
                       = Vector.py_slice vs offset idx ++ drop (Z.to_nat idx) vs).
      { rewrite py_slice_take_drop by lia.
        rewrite <- (take_drop (Z.to_nat idx - Z.to_nat offset) (drop (Z.to_nat offset) vs))
          at 1.
        f_equal. rewrite drop_drop. f_equal. lia. }
      rewrite Hsplit. apply sublist_app; [reflexivity|].
      apply sublist_inserts_l. exact Hsub.
Qed.

(** The vertices after the splice: the ones before, in their order,
    and as many new ones as were asked for. *)
Lemma transform_vertices_spec vs rs max_points ext rs' :
  0 <= max_points -> Z.of_nat (length vs) <= 2 ^ 32 ->
  Vector.transform_vertices vs rs max_points = Ok (ext, rs') ->
  Z.of_nat (length ext)
  = Z.of_nat (length vs)
    + Z.min max_points (Vector.ceil_div (Z.of_nat (length vs)) 6)
  /\ vs `sublist_of` ext.
Proof.
  intros Hmax Hbig. unfold Vector.transform_vertices. cbv zeta.
  set (n := Z.of_nat (length vs)) in *.
  set (size := Z.min max_points (Vector.ceil_div n 6)).
  destruct (RandomState.randint_size 1 n size rs) as [[ids rs1]|] eqn:Hids; [|discriminate].
  cbn [mbind result_bind].
  destruct (Vector.new_points vs (Vector.sort ids) rs1) as [[new rs2]|] eqn:Hnew;
    [|discriminate].
  cbn [mbind result_bind]. intros Heq. injection Heq as <- <-.
  pose proof (randint_size_length _ _ _ _ _ _ Hids) as Hlen.
  apply randint_size_range in Hids; [|lia|lia].
  apply new_points_ids in Hnew.
  assert (Hnd : nondecreasing 0 new.*1 n).
  { rewrite Hnew. unfold Vector.sort. apply sorted_nondecreasing.
    - apply Sorted_merge_sort. intros a b. lia.
    - rewrite merge_sort_Permutation. eapply Forall_impl; [exact Hids|].
      intros x Hx. cbn in Hx. lia. }
  destruct (extend_spec vs 0 new ltac:(lia) Hnd ltac:(lia)) as [Hl Hsub].
  split; [|exact Hsub].
  assert (Hnl : length new = length ids).
  { rewrite <- (length_fmap fst new), Hnew. unfold Vector.sort.
    apply Permutation_length, merge_sort_Permutation. }
  rewrite Hl, Hnl. fold n. lia.
Qed.

(** X21: when [transform_geometry] returns on a line string of [n]
    vertices, it returns a line string that keeps all of them in their
    order and has [min(5, ceil(n / 6))] vertices more, at least one and
    at most five. *)
Theorem transform_geometry_linestring vs rs g' rs' :
  Z.of_nat (length vs) <= 2 ^ 32 ->
  Vector.transform_geometry (Vector.LineString vs) rs = Ok (g', rs') ->
  exists vs',
    g' = Vector.LineString vs'
    /\ Z.of_nat (length vs')
       = Z.of_nat (length vs) + Z.min 5 (Vector.ceil_div (Z.of_nat (length vs)) 6)
    /\ (length vs < length vs' <= length vs + 5)%nat
    /\ vs `sublist_of` vs'.
Proof.
  intros Hbig. cbn [Vector.transform_geometry].
  destruct (Vector.transform_vertices vs rs 5) as [[ext rs1]|] eqn:Hext; [|discriminate].
  cbn [mbind result_bind].
  destruct (Vector.linestrings ext) as [ls|] eqn:Hls; [|discriminate].
  cbn. intros Heq. injection Heq as <- <-.
  unfold Vector.linestrings in Hls.
  destruct (Nat.ltb_spec (length ext) 2); [discriminate|]. injection Hls as <-.
  apply transform_vertices_spec in Hext as [Hlen Hsub]; [|lia|exact Hbig].
  exists ext. split; [reflexivity|]. split; [exact Hlen|]. split; [|exact Hsub].
  unfold Vector.ceil_div in *.
  assert (Hn : 1 <= Z.of_nat (length vs)).
  { destruct vs; [|cbn [length]; lia]. cbn [length] in Hlen.
    change (Z.of_nat 0) with 0 in Hlen. change ((0 + 6 - 1) / 6) with 0 in Hlen. lia. }
  assert (1 <= (Z.of_nat (length vs) + 6 - 1) / 6).
  { apply Z.div_le_lower_bound; lia. }
  lia.
Qed.

Lemma transform_geometry_linestring_witness :
  exists g' rs' vs',
    Vector.transform_geometry
      (Vector.LineString [(0%float, 0%float); (4%float, 2%float)])
      (MT19937.mt19937_seed 0) = Ok (g', rs')
    /\ g' = Vector.LineString vs'
    /\ [(0%float, 0%float); (4%float, 2%float)] `sublist_of` vs'.
Proof.
  assert (Hrun : exists g' rs',
            Vector.transform_geometry
              (Vector.LineString [(0%float, 0%float); (4%float, 2%float)])
              (MT19937.mt19937_seed 0) = Ok (g', rs'))
    by (eexists; eexists; vm_compute; reflexivity).
  destruct Hrun as (g' & rs' & Hrun).
  assert (Hbig : Z.of_nat (length [(0%float, 0%float); (4%float, 2%float)]) <= 2 ^ 32)
    by (vm_compute; discriminate).
  destruct (transform_geometry_linestring _ _ _ _ Hbig Hrun)
    as (vs' & Hg & _ & _ & Hsub).
  exists g', rs', vs'. auto.
Defined.

(** X22: when [transform_geometry] returns on a polygon, the polygon
    it returns has one ring, and that ring holds the vertices of all
    the rings of the argument, one ring after the other in their
    order: the holes of a polygon become part of its shell. *)
Theorem transform_geometry_polygon rings rs g' rs' :
  Z.of_nat (length (concat rings)) <= 2 ^ 32 ->
  Vector.transform_geometry (Vector.Polygon rings) rs = Ok (g', rs') ->
  exists ring,
    g' = Vector.Polygon [ring]
    /\ concat rings `sublist_of` ring
    /\ (length (concat rings) < length ring)%nat.
Proof.
  intros Hbig. cbn [Vector.transform_geometry].
  destruct (Vector.transform_vertices (concat rings) rs 5) as [[ext rs1]|] eqn:Hext;
    [|discriminate].
  cbn [mbind result_bind].
  destruct (Vector.polygons ext) as [pg|] eqn:Hpg; [|discriminate].
  cbn. intros Heq. injection Heq as <- <-.
  apply transform_vertices_spec in Hext as [Hlen Hsub]; [|lia|exact Hbig].
  unfold Vector.polygons in Hpg. destruct ext as [|p ext]; [discriminate|].
  set (ring := if Vector.point_eqb p (List.last (p :: ext) p) then p :: ext
               else (p :: ext) ++ [p]) in *.
  destruct (length ring <? 4)%nat; [discriminate|]. injection Hpg as <-.
  exists ring. split; [reflexivity|].
  assert (Hext : (p :: ext) `sublist_of` ring
                 /\ (length (p :: ext) <= length ring)%nat).
  { unfold ring. destruct (Vector.point_eqb p _).
    - split; [reflexivity|lia].
    - split; [apply sublist_inserts_r; reflexivity|rewrite length_app; lia]. }
  destruct Hext as [Hs Hl]. split; [etransitivity; eassumption|].
  unfold Vector.ceil_div in Hlen.
  destruct (concat rings) as [|q qs] eqn:Hc.
  - cbn [length] in *. change (Z.of_nat 0) with 0 in Hlen.
    change ((0 + 6 - 1) / 6) with 0 in Hlen. lia.
  - assert (1 <= (Z.of_nat (length (q :: qs)) + 6 - 1) / 6).
    { apply Z.div_le_lower_bound; cbn [length]; lia. }
    lia.
Qed.

Lemma transform_geometry_polygon_witness :
  exists g' rs' ring,
    Vector.transform_geometry
      (Vector.Polygon [[(0%float, 0%float); (4%float, 0%float); (4%float, 4%float);
                        (0%float, 0%float)];
                       [(1%float, 1%float); (2%float, 1%float); (2%float, 2%float);
                        (1%float, 1%float)]])
      (MT19937.mt19937_seed 0) = Ok (g', rs')
    /\ g' = Vector.Polygon [ring].
Proof.
  assert (Hrun : exists g' rs',
            Vector.transform_geometry
              (Vector.Polygon [[(0%float, 0%float); (4%float, 0%float); (4%float, 4%float);
                                (0%float, 0%float)];
                               [(1%float, 1%float); (2%float, 1%float); (2%float, 2%float);
                                (1%float, 1%float)]])
              (MT19937.mt19937_seed 0) = Ok (g', rs'))
    by (eexists; eexists; vm_compute; reflexivity).
  destruct Hrun as (g' & rs' & Hrun).
  assert (Hbig : Z.of_nat (length (concat
            [[(0%float, 0%float); (4%float, 0%float); (4%float, 4%float);
              (0%float, 0%float)];
             [(1%float, 1%float); (2%float, 1%float); (2%float, 2%float);
              (1%float, 1%float)]])) <= 2 ^ 32)
    by (vm_compute; discriminate).
  destruct (transform_geometry_polygon _ _ _ _ Hbig Hrun)
    as (ring & Hg & _ & _).
  exists g', rs', ring. auto.
Defined.

(** ** What a transformed geometry looks like *)

(** The number of coordinates of a geometry. *)
Definition vertex_count (g : Vector.geometry) : nat :=
  match g with
  | Vector.LineString vs => length vs
  | Vector.Polygon rings => length (concat rings)
  | Vector.MultiLineString parts => sum_list_with length parts
  | Vector.MultiPolygon parts => sum_list_with (fun rings => length (concat rings)) parts
  | Vector.OtherGeometry _ => 0
  end.

Lemma sum_list_with_lookup {A} (f : A -> nat) (l : list A) (k : nat) (y : A) :
  l !! k = Some y -> (f y <= sum_list_with f l)%nat.
Proof.
  revert k. induction l as [|a l IH]; intros [|k]; cbn; try discriminate.
  - intros Heq. injection Heq as ->. lia.
  - intros Hk. specialize (IH k Hk). lia.
Qed.

Lemma sum_list_with_insert {A} (f : A -> nat) (l : list A) (k : nat) (x y : A) :
  l !! k = Some y ->
  (sum_list_with f (<[k := x]> l) + f y = sum_list_with f l + f x)%nat.
Proof.
  revert k. induction l as [|a l IH]; intros [|k]; simpl; try discriminate.
  - intros Heq. injection Heq as ->. lia.
  - intros Hk. specialize (IH k Hk). lia.
Qed.

Lemma getitem_setitem {A} (l : list A) (i : Z) (a b : A) (l' : list A) :
  getitem l i = Ok a -> setitem l i b = Ok l' ->
  exists k, l !! k = Some a /\ l' = <[k := b]> l.
Proof.
  unfold getitem, setitem. destruct (py_index _ i) as [k|]; cbn; [|discriminate].
  destruct (l !! k) as [a'|] eqn:Hk; [|discriminate].
  intros Ha Hb. injection Ha as <-. injection Hb as <-. eauto.
Qed.

Lemma ceil_div_6_pos (n : nat) : (0 < n)%nat -> 1 <= Z.min 5 (Vector.ceil_div (Z.of_nat n) 6).
Proof.
  intros Hn. unfold Vector.ceil_div.
  assert (1 <= (Z.of_nat n + 6 - 1) / 6) by (apply Z.div_le_lower_bound; lia). lia.
Qed.

(** The coordinates after the splice, made into a line. *)
Lemma linestring_grows vs rs ext rs1 ls :
  Z.of_nat (length vs) <= 2 ^ 32 ->
  Vector.transform_vertices vs rs 5 = Ok (ext, rs1) ->
  Vector.linestrings ext = Ok ls ->
  vs `sublist_of` ls /\ (length vs < length ls)%nat.
Proof.
  intros Hbig Hext Hls. unfold Vector.linestrings in Hls.
  destruct (Nat.ltb_spec (length ext) 2) as [|Hlong]; [discriminate|]. injection Hls as <-.
  apply transform_vertices_spec in Hext as [Hlen Hsub]; [|lia|exact Hbig].
  split; [exact Hsub|].
  destruct vs as [|v vs].
  - cbn [length]. lia.
  - pose proof (ceil_div_6_pos (length (v :: vs)) ltac:(cbn [length]; lia)). lia.
Qed.

(** The coordinates after the splice, made into the shell of a
    polygon. *)
Lemma polygon_grows vs rs ext rs1 pg :
  Z.of_nat (length vs) <= 2 ^ 32 ->
  Vector.transform_vertices vs rs 5 = Ok (ext, rs1) ->
  Vector.polygons ext = Ok pg ->
  exists ring, pg = [ring] /\ vs `sublist_of` ring /\ (length vs < length ring)%nat.
Proof.
  intros Hbig Hext Hpg.
  apply transform_vertices_spec in Hext as [Hlen Hsub]; [|lia|exact Hbig].
  unfold Vector.polygons in Hpg. destruct ext as [|p ext]; [discriminate|].
  set (ring := if Vector.point_eqb p (List.last (p :: ext) p) then p :: ext
               else (p :: ext) ++ [p]) in *.
  destruct (length ring <? 4)%nat eqn:Hfour; [discriminate|]. injection Hpg as <-.
  exists ring. split; [reflexivity|].
  assert (Hring : (p :: ext) `sublist_of` ring /\ (length (p :: ext) <= length ring)%nat).
  { unfold ring. destruct (Vector.point_eqb p _).
    - split; [reflexivity|lia].
    - split; [apply sublist_inserts_r; reflexivity|rewrite length_app; lia]. }
  destruct Hring as [Hs Hl]. split; [etransitivity; eassumption|].
  destruct vs as [|v vs].
  - apply Nat.ltb_ge in Hfour. cbn [length]. lia.
  - pose proof (ceil_div_6_pos (length (v :: vs)) ltac:(cbn [length]; lia)). lia.
Qed.

(** How the geometry [transform_geometry] returns relates to its
    argument, type by type. *)
Definition transformed (g g' : Vector.geometry) : Prop :=
  match g, g' with
  | Vector.LineString vs, Vector.LineString vs' =>
      vs `sublist_of` vs' /\ (length vs < length vs')%nat
  | Vector.Polygon rings, Vector.Polygon rings' =>
      exists ring, rings' = [ring] /\ concat rings `sublist_of` ring
                   /\ (length (concat rings) < length ring)%nat
  | Vector.MultiLineString parts, Vector.MultiLineString parts' =>
      exists k part new,
        parts !! k = Some part /\ parts' = <[k := new]> parts
        /\ part `sublist_of` new /\ (length part < length new)%nat
  | Vector.MultiPolygon parts, Vector.MultiPolygon parts' =>
      exists k part ring,
        parts !! k = Some part /\ parts' = <[k := [ring]]> parts
        /\ concat part `sublist_of` ring /\ (length (concat part) < length ring)%nat
  | _, _ => False
  end.

Lemma transform_geometry_transformed g rs g' rs' :
  Z.of_nat (vertex_count g) <= 2 ^ 32 ->
  Vector.transform_geometry g rs = Ok (g', rs') -> transformed g g'.
Proof.
  destruct g as [vs|rings|parts|parts|t]; cbn [Vector.transform_geometry vertex_count];
    intros Hbig.
  - destruct (Vector.transform_vertices vs rs 5) as [[ext rs1]|] eqn:Hext; [|discriminate].
    cbn [mbind result_bind].
    destruct (Vector.linestrings ext) as [ls|] eqn:Hls; [|discriminate].
    cbn. intros Heq. injection Heq as <- <-.
    exact (linestring_grows _ _ _ _ _ Hbig Hext Hls).
  - destruct (Vector.transform_vertices (concat rings) rs 5) as [[ext rs1]|] eqn:Hext;
      [|discriminate].
    cbn [mbind result_bind].
    destruct (Vector.polygons ext) as [pg|] eqn:Hpg; [|discriminate].
    cbn. intros Heq. injection Heq as <- <-.
    exact (polygon_grows _ _ _ _ _ Hbig Hext Hpg).
  - destruct (RandomState.randint 0 (Z.of_nat (length parts)) rs) as [[i rs1]|];
      [|discriminate].
    cbn [mbind result_bind].
    destruct (getitem parts i) as [part|] eqn:Hget; [|discriminate].
    cbn [mbind result_bind].
    destruct (Vector.transform_vertices part rs1 5) as [[ext rs2]|] eqn:Hext; [|discriminate].
    cbn [mbind result_bind].
    destruct (Vector.linestrings ext) as [ls|] eqn:Hls; [|discriminate].
    cbn [mbind result_bind].
    destruct (setitem parts i ls) as [parts'|] eqn:Hset; [|discriminate].
    cbn. intros Heq. injection Heq as <- <-.
    destruct (getitem_setitem _ _ _ _ _ Hget Hset) as (k & Hk & ->).
    pose proof (sum_list_with_lookup length parts k part Hk) as Hle.
    assert (Hpart : Z.of_nat (length part) <= 2 ^ 32) by lia.
    destruct (linestring_grows _ _ _ _ _ Hpart Hext Hls) as [Hsub Hlt].
    exists k, part, ls. auto.
  - destruct (RandomState.randint 0 (Z.of_nat (length parts)) rs) as [[i rs1]|];
      [|discriminate].
    cbn [mbind result_bind].
    destruct (getitem parts i) as [part|] eqn:Hget; [|discriminate].
    cbn [mbind result_bind].
    destruct (Vector.transform_vertices (concat part) rs1 5) as [[ext rs2]|] eqn:Hext;
      [|discriminate].
    cbn [mbind result_bind].
    destruct (Vector.polygons ext) as [pg|] eqn:Hpg; [|discriminate].
    cbn [mbind result_bind].
    destruct (setitem parts i pg) as [parts'|] eqn:Hset; [|discriminate].
    cbn. intros Heq. injection Heq as <- <-.
    destruct (getitem_setitem _ _ _ _ _ Hget Hset) as (k & Hk & ->).
    pose proof (sum_list_with_lookup (fun rings => length (concat rings)) parts k part Hk)
      as Hle. cbn beta in Hle.
    assert (Hpart : Z.of_nat (length (concat part)) <= 2 ^ 32) by lia.
    destruct (polygon_grows _ _ _ _ _ Hpart Hext Hpg) as (ring & -> & Hsub & Hlt).
    exists k, part, ring. auto.
  - discriminate.
Qed.

(** A transformed geometry has more coordinates than the one it was
    made of, so it is another geometry. *)
Lemma transformed_grows g g' :
  transformed g g' -> (vertex_count g < vertex_count g')%nat /\ g' <> g.
Proof.
  intros Ht.
  assert (Hlt : (vertex_count g < vertex_count g')%nat).
  { destruct g as [vs|rings|parts|parts|t], g' as [vs'|rings'|parts'|parts'|t'];
      cbn in Ht; try contradiction; cbn [vertex_count].
    - apply Ht.
    - destruct Ht as (ring & -> & _ & Hlt). cbn. rewrite app_nil_r. exact Hlt.
    - destruct Ht as (k & part & new & Hk & -> & _ & Hlt).
      pose proof (sum_list_with_insert length parts k new part Hk). lia.
    - destruct Ht as (k & part & ring & Hk & -> & _ & Hlt).
      pose proof (sum_list_with_insert (fun rings => length (concat rings)) parts k
                    [ring] part Hk) as Hs.
      cbn in Hs. rewrite app_nil_r in Hs. lia. }
  split; [exact Hlt|]. intros ->. lia.
Qed.

(** X20: [transform_geometry] raises [ValueError] on a geometry of
    another type than line string, polygon and their collections.
    When it returns, the geometry has the type of the argument: a line
    string keeps its vertices and has more of them, a polygon comes
    back with one ring that holds the vertices of all its rings, and a
    collection comes back with one part replaced, by a longer line that
    keeps the vertices of the part or by a polygon of one ring that
    holds the vertices of all the rings of the part, and with its other
    parts unchanged. *)
Theorem transform_geometry_kind g rs :
  (Vector.has_type g = false -> Vector.transform_geometry g rs = Raise ValueError)
  /\ forall g' rs',
       Z.of_nat (vertex_count g) <= 2 ^ 32 ->
       Vector.transform_geometry g rs = Ok (g', rs') ->
       Vector.has_type g = true
       /\ Vector.get_type_id g' = Vector.get_type_id g
       /\ transformed g g'.
Proof.
  split.
  - destruct g; try discriminate. reflexivity.
  - intros g' rs' Hbig Hrun.
    pose proof (transform_geometry_transformed _ _ _ _ Hbig Hrun) as Ht.
    destruct g, g'; cbn in Ht; try contradiction; auto.
Qed.

Lemma transform_geometry_kind_witness :
  exists g' rs',
    Vector.transform_geometry
      (Vector.MultiLineString [[(0%float, 0%float); (4%float, 2%float)];
                               [(1%float, 1%float); (1%float, 5%float); (3%float, 5%float)]])
      (MT19937.mt19937_seed 0) = Ok (g', rs')
    /\ transformed
         (Vector.MultiLineString [[(0%float, 0%float); (4%float, 2%float)];
                                  [(1%float, 1%float); (1%float, 5%float);
                                   (3%float, 5%float)]]) g'.
Proof.
  assert (Hrun : exists g' rs',
            Vector.transform_geometry
              (Vector.MultiLineString [[(0%float, 0%float); (4%float, 2%float)];
                                       [(1%float, 1%float); (1%float, 5%float);
                                        (3%float, 5%float)]])
              (MT19937.mt19937_seed 0) = Ok (g', rs'))
    by (eexists; eexists; vm_compute; reflexivity).
  destruct Hrun as (g' & rs' & Hrun). exists g', rs'. split; [exact Hrun|].
  assert (Hbig : Z.of_nat (vertex_count
            (Vector.MultiLineString [[(0%float, 0%float); (4%float, 2%float)];
                                     [(1%float, 1%float); (1%float, 5%float);
                                      (3%float, 5%float)]])) <= 2 ^ 32)
    by (vm_compute; discriminate).
  exact (proj2 (proj2 (proj2 (transform_geometry_kind _ _) g' rs' Hbig Hrun))).
Defined.

(** ** The rows [embed_geometries] rewrites *)

Section Changed.
Variable df : Vector.frame.
Variable gs : list Vector.geometry.
Variable selected : list Z.
Hypothesis Hgs : Vector.geometry_column df = Some gs.
Hypothesis Hlen : length gs = length (Vector.rows df).

(** The geometry of row [idx] in [l] is a transform of the one the
    dataframe has there. *)
Definition replaced (l : list Vector.geometry) (idx : Z) : Prop :=
  exists g g' rs rs',
    gs !! Z.to_nat idx = Some g /\ l !! Z.to_nat idx = Some g'
    /\ Vector.transform_geometry g rs = Ok (g', rs').

(** The rows [done] have been rewritten in the frames gathered so
    far. *)
Definition changed (done : list Z) (st : Vector.embed_state) : Prop :=
  Forall (fun idx => 0 <= idx < Vector.offset st
                     /\ replaced (Vector.dfs st ≫= geoms_of) idx) done.

Lemma embed_step_changed rand_geoms i idx st st' done :
  embed_inv df gs selected st -> Vector.offset st <= idx < Vector.len df ->
  (forall g, getitem rand_geoms i = Ok g -> gs !! Z.to_nat idx = Some g) ->
  changed done st ->
  Vector.embed_step df rand_geoms (i, idx) st = Ok st' ->
  changed (done ++ [idx]) st'.
Proof.
  intros (Hoff & _ & Hglen & _) Hrange Hsame Hdone. unfold Vector.embed_step.
  destruct (getitem rand_geoms i) as [g|] eqn:Hg; [|discriminate]. cbn [mbind result_bind].
  destruct (Vector.transform_geometry g (Vector.gen st)) as [[geom rs]|] eqn:Hrun;
    [|discriminate].
  cbn [mbind result_bind]. intros Heq. injection Heq as <-.
  unfold changed. cbn [Vector.offset Vector.dfs].
  rewrite bind_app, bind_two, (geoms_of_slice df gs Hgs).
  unfold Vector.len in *.
  assert (Hg1 : length (Vector.py_slice gs (Vector.offset st) idx)
                = (Z.to_nat idx - Z.to_nat (Vector.offset st))%nat)
    by (apply length_py_slice; lia).
  apply Forall_app. split.
  - eapply Forall_impl; [exact Hdone|]. cbn beta.
    intros j [Hj (g0 & g0' & rs0 & rs0' & H0 & H1 & H2)]. split; [lia|].
    exists g0, g0', rs0, rs0'. split; [exact H0|]. split; [|exact H2].
    rewrite lookup_app_l by lia. exact H1.
  - constructor; [|constructor]. split; [lia|].
    exists g, geom, (Vector.gen st), rs. split; [apply Hsame; reflexivity|].
    split; [|exact Hrun].
    rewrite lookup_app_r by lia. rewrite Hglen.
    rewrite lookup_app_r by (rewrite Hg1; lia). rewrite Hg1.
    replace (Z.to_nat idx - Z.to_nat (Vector.offset st)
             - (Z.to_nat idx - Z.to_nat (Vector.offset st)))%nat with 0%nat by lia.
    reflexivity.
Qed.

Lemma embed_loop_changed rand_geoms ps st st' done :
  embed_inv df gs selected st ->
  ascending (Vector.offset st) ps.*2 (Vector.len df) ->
  (forall idx, idx ∈ ps.*2 -> idx ∈ selected) ->
  Forall (fun p => forall g, getitem rand_geoms p.1 = Ok g -> gs !! Z.to_nat p.2 = Some g) ps ->
  changed done st ->
  for_ ps (Vector.embed_step df rand_geoms) st = Ok st' ->
  changed (done ++ ps.*2) st'.
Proof.
  revert st done. induction ps as [|[i idx] ps IH]; intros st done Hinv Hasc Hsel Hsame Hdone;
    cbn [for_].
  - intros Heq. injection Heq as <-. cbn. rewrite app_nil_r. exact Hdone.
  - destruct (Vector.embed_step df rand_geoms (i, idx) st) as [st1|] eqn:Hstep;
      [|discriminate].
    cbn [mbind result_bind]. cbn in Hasc. destruct Hasc as [Hidx Hasc].
    apply Forall_cons in Hsame as [Hsame1 Hsame].
    pose proof (embed_step_changed _ _ _ _ _ _ Hinv Hidx Hsame1 Hdone Hstep) as Hdone1.
    apply (embed_step_inv df gs selected Hgs Hlen) in Hstep as [Hinv1 Hoff1];
      [|assumption..|apply Hsel; cbn; left].
    intros Hloop. cbn [fmap list_fmap snd].
    rewrite (cons_middle idx), app_assoc.
    apply (IH st1); try assumption.
    + rewrite Hoff1. exact Hasc.
    + intros idx' Hin. apply Hsel. cbn. right. exact Hin.
Qed.

(** In the frames closed by the rest of the dataframe the rewritten
    rows are where they were. *)
Lemma changed_final done st gs' :
  embed_inv df gs selected st -> changed done st ->
  Vector.geometry_column
    (Vector.concatenated true
       (Vector.dfs st ++ [Vector.slice df (Vector.offset st) (Vector.len df)])) = Some gs' ->
  Forall (replaced gs') done.
Proof.
  intros (Hoff & _ & Hglen & _) Hdone. unfold Vector.concatenated.
  cbn [Vector.geometry_column].
  change (fun d => default [] (Vector.geometry_column d)) with geoms_of.
  rewrite bind_app. intros Heq. injection Heq as <-.
  eapply Forall_impl; [exact Hdone|]. cbn beta.
  intros j [Hj (g0 & g0' & rs0 & rs0' & H0 & H1 & H2)].
  exists g0, g0', rs0, rs0'. split; [exact H0|]. split; [|exact H2].
  rewrite lookup_app_l by lia. exact H1.
Qed.

End Changed.

Lemma ascending_lookup lo l hi (n : nat) x :
  ascending lo l hi -> l !! n = Some x -> lo <= x < hi.
Proof.
  revert lo n. induction l as [|a l IH]; intros lo n Hasc Hx; [destruct n; discriminate|].
  cbn in Hasc. destruct Hasc as [Ha Hasc]. destruct n as [|n].
  - cbn in Hx. injection Hx as <-. exact Ha.
  - cbn in Hx. specialize (IH _ _ Hasc Hx). lia.
Qed.

(** The geometries [get_random_geometries] hands out are the ones at
    the indices it returns. *)
Lemma get_random_geometries_at self rs indices geoms rs' gs :
  Vector.geometry_column (Vector._df self) = Some gs ->
  Vector.get_random_geometries self rs = Ok (indices, geoms, rs') ->
  Forall (fun p : Z * Z => forall g, getitem geoms p.1 = Ok g -> gs !! Z.to_nat p.2 = Some g)
         (imap (fun i idx => (Z.of_nat i, idx)) indices).
Proof.
  intros Hgs Hget.
  pose proof (get_random_geometries_spec _ _ _ _ _ Hget) as (gs0 & Hgs0 & Hasc & _).
  assert (gs0 = gs) as -> by congruence.
  unfold Vector.get_random_geometries in Hget. rewrite Hgs in Hget.
  cbn [mbind result_bind] in Hget.
  destruct (RandomState.randint_size _ _ _ rs) as [[rand_map rs1]|]; [|discriminate].
  cbn [mbind result_bind] in Hget.
  destruct (mapM (getitem (Vector.candidates gs)) rand_map) as [taken|]; [|discriminate].
  cbn [mbind result_bind] in Hget.
  destruct (mapM (getitem gs) (Vector.unique taken)) as [geometries|] eqn:Hgeoms;
    [|discriminate].
  cbn [mbind result_bind] in Hget. injection Hget as <- <- <-.
  apply mapM_Ok in Hgeoms as [_ Hall].
  apply Forall_lookup_2. intros n [i idx] Hn.
  rewrite list_lookup_imap in Hn.
  destruct (Vector.unique taken !! n) as [x|] eqn:Hx; [|discriminate].
  cbn in Hn. injection Hn as <- <-. cbn [fst snd]. intros g Hg.
  destruct (Hall n x Hx) as (y & Hy & Hgx).
  apply getitem_Ok_nat in Hg. assert (y = g) as -> by congruence.
  assert (Hx0 : 0 <= x) by (pose proof (ascending_lookup _ _ _ _ _ Hasc Hx); lia).
  rewrite <- (Z2Nat.id x Hx0) in Hgx. apply getitem_Ok_nat in Hgx. exact Hgx.
Qed.

(** C10. When [embed_geometries] succeeds on a dataframe that has a
    geometry for each of its rows, the output has the columns and the
    rows of the input, cell for cell and in the same order, so no row is
    added or removed and the values outside the geometry stay.  The
    geometry column keeps its length; outside the rows selected by
    [get_random_geometries], of which there is at least one, it holds
    the geometries of the input, and in every selected row it holds the
    transform of the geometry of the input, which has more coordinates
    and so is another geometry. *)
Theorem embed_geometries_keeps_rows environ self uuid out gs :
  Vector.geometry_column (Vector._df self) = Some gs ->
  length gs = length (Vector.rows (Vector._df self)) ->
  Forall (fun g => Z.of_nat (vertex_count g) <= 2 ^ 32) gs ->
  Vector.embed_geometries environ self uuid = Ok out ->
  Vector.len out = Vector.len (Vector._df self)
  /\ Vector.columns out = Vector.columns (Vector._df self)
  /\ Vector.rows out = Vector.rows (Vector._df self)
  /\ exists rs indices geoms rs' gs',
       Vector._random_state environ self uuid = Ok rs
       /\ Vector.get_random_geometries self rs = Ok (indices, geoms, rs')
       /\ indices <> []
       /\ Vector.geometry_column out = Some gs'
       /\ length gs' = length gs
       /\ (forall i, Z.of_nat i ∉ indices -> gs' !! i = gs !! i)
       /\ (forall i, Z.of_nat i ∈ indices ->
             exists g g',
               gs !! i = Some g /\ gs' !! i = Some g'
               /\ (exists rs1 rs2, Vector.transform_geometry g rs1 = Ok (g', rs2))
               /\ transformed g g'
               /\ (vertex_count g < vertex_count g')%nat
               /\ g' <> g).
Proof.
  intros Hgs Hlen Hsmall. unfold Vector.embed_geometries, Vector._has_geometry.
  rewrite Hgs. cbn [negb].
  destruct (Vector._random_state environ self uuid) as [rs|]; [|discriminate].
  cbn [mbind result_bind].
  destruct (Vector.get_random_geometries self rs) as [[[indices geoms] rs']|] eqn:Hget;
    [|discriminate].
  cbn [mbind result_bind].
  destruct (for_ _ _ _) as [st|] eqn:Hloop; [|discriminate].
  cbn [mbind result_bind].
  destruct (Vector.idx_var st) as [idx|] eqn:Hidx; [|discriminate].
  cbn [mbind result_bind].
  pose proof (get_random_geometries_spec _ _ _ _ _ Hget) as (gs0 & Hgs0 & Hasc & _).
  assert (gs0 = gs) as -> by congruence.
  assert (Hasc' : ascending 0 (imap (fun i idx => (Z.of_nat i, idx)) indices).*2
                    (Vector.len (Vector._df self))).
  { rewrite snd_imap_pair. unfold Vector.len. rewrite <- Hlen. exact Hasc. }
  assert (Hsel : forall i, i ∈ (imap (fun i idx => (Z.of_nat i, idx)) indices).*2
                           -> i ∈ indices).
  { intros i. rewrite snd_imap_pair. auto. }
  assert (Hinv : embed_inv (Vector._df self) gs indices st).
  { refine (embed_loop_inv _ _ _ Hgs Hlen _ _ _ _ _ _ _ Hloop).
    - apply embed_inv_init; assumption.
    - exact Hasc'.
    - exact Hsel. }
  assert (Hdone : changed gs indices st).
  { rewrite <- (snd_imap_pair (fun i => Z.of_nat i) indices).
    refine (embed_loop_changed _ _ indices Hgs Hlen geoms
              (imap (fun i idx => (Z.of_nat i, idx)) indices)
              {| Vector.dfs := []; Vector.offset := 0; Vector.gen := rs';
                 Vector.idx_var := None |} st [] _ Hasc' Hsel _ _ Hloop).
    - apply embed_inv_init; assumption.
    - exact (get_random_geometries_at _ _ _ _ _ _ Hgs Hget).
    - constructor. }
  pose proof Hinv as (_ & _ & _ & _ & _ & Hlt).
  specialize (Hlt idx Hidx). destruct (Z.ltb_spec idx (Vector.len (Vector._df self)));
    [|lia].
  intros Heq. injection Heq as <-.
  destruct (embed_inv_final _ _ _ Hgs Hlen st Hinv) as (Hcols & Hrows & gs' & Hgeo & Hl & Hsame).
  split; [exact (f_equal (fun l => Z.of_nat (length l)) Hrows)|].
  split; [exact Hcols|]. split; [exact Hrows|].
  exists rs, indices, geoms, rs', gs'. split; [reflexivity|]. split; [exact Hget|].
  split; [|split; [exact Hgeo|split; [exact Hl|split; [exact Hsame|]]]].
  - intros ->. cbn in Hloop. injection Hloop as <-. discriminate Hidx.
  - intros i Hi.
    assert (Hall : Forall (replaced gs gs') indices)
      by (eapply (changed_final (Vector._df self) gs indices); eassumption).
    pose proof (proj1 (Forall_forall _ _) Hall _ Hi) as (g & g' & rs1 & rs2 & H0 & H1 & H2).
    rewrite Nat2Z.id in H0, H1.
    assert (Hg : Z.of_nat (vertex_count g) <= 2 ^ 32).
    { apply list_elem_of_lookup_2 in H0. exact (proj1 (Forall_forall _ _) Hsmall _ H0). }
    pose proof (transform_geometry_transformed _ _ _ _ Hg H2) as Ht.
    destruct (transformed_grows _ _ Ht) as [Hgrow Hne].
    exists g, g'. split; [exact H0|]. split; [exact H1|].
    split; [exists rs1, rs2; exact H2|]. auto.
Qed.

Lemma embed_geometries_keeps_rows_witness :
  exists out, Vector.embed_geometries None Roads.self "U" = Ok out
              /\ Vector.rows out = Vector.rows Roads.road.
Proof.
  assert (Hout : exists out, Vector.embed_geometries None Roads.self "U" = Ok out)
    by (eexists; vm_compute; reflexivity).
  destruct Hout as [out Hout]. exists out. split; [exact Hout|].
  assert (Hsmall : Forall (fun g => Z.of_nat (vertex_count g) <= 2 ^ 32)
                     [Vector.LineString [(0%float, 0%float); (4%float, 2%float)];
                      Vector.OtherGeometry 0;
                      Vector.LineString [(1%float, 1%float); (1%float, 5%float);
                                         (3%float, 5%float)]])
    by (repeat constructor; vm_compute; discriminate).
  refine (proj1 (proj2 (proj2 (embed_geometries_keeps_rows None Roads.self "U" out _
                                 eq_refl eq_refl Hsmall Hout)))).
Defined.

(** On the three features the two lines get a vertex each. *)
Example embed_geometries_road :
  (fun out => (Vector.rows out, fmap (M:=list) vertex_count <$> Vector.geometry_column out))
    <$> Vector.embed_geometries None Roads.self "U"
  = Ok ([[Vector.VStr "a"]; [Vector.VStr "b"]; [Vector.VStr "c"]],
        Some [3%nat; 0%nat; 4%nat]).
Proof. vm_compute. reflexivity. Qed.

(** ** Columns and rows of a tested dataframe *)

(** X23: [_order_columns_by_sparsity] returns the names of the columns
    of the dataframe, each once, in some order; it returns whenever no
    sample is drawn, and also when the positions the sampler picks are
    positions of the dataframe. *)
Theorem order_columns_by_sparsity_columns self sample_length picked :
  (sample_length < Vector.len (Vector._df self) ->
   Forall (fun i => - Vector.len (Vector._df self) <= i < Vector.len (Vector._df self))
          picked) ->
  exists ordered,
    Vector._order_columns_by_sparsity self sample_length picked = Ok ordered
    /\ ordered ≡ₚ Vector.columns (Vector._df self).
Proof.
  intros Hp.
  assert (Hok : exists ordered,
            Vector._order_columns_by_sparsity self sample_length picked = Ok ordered).
  { unfold Vector._order_columns_by_sparsity.
    destruct (Z.ltb_spec sample_length (Vector.len (Vector._df self))) as [Hlt|Hge].
    - destruct (mapM_getitem_Ok (Vector.rows (Vector._df self)) picked (Hp Hlt))
        as [sample ->]. cbn. eauto.
    - cbn. eauto. }
  destruct Hok as [ordered Hok]. exists ordered. split; [exact Hok|].
  apply (order_columns_perm _ _ _ _ Hok).
Qed.

Lemma order_columns_by_sparsity_columns_witness :
  exists ordered,
    Vector._order_columns_by_sparsity (Entries.accessor Entries.hundred) 10000 [] = Ok ordered
    /\ ordered ≡ₚ Vector.columns Entries.hundred.
Proof.
  apply (order_columns_by_sparsity_columns (Entries.accessor Entries.hundred) 10000 []).
  intros Hlt. vm_compute in Hlt. discriminate Hlt.
Defined.

Lemma count_matches_no_shared (test row : Vector.frame) :
  (forall col, col ∈ Vector.columns row -> col ∉ Vector.columns test) ->
  count_matches test row = length (Vector.rows test).
Proof.
  intros Hnone. unfold count_matches.
  rewrite (filter_ext _ (fun _ => true)); [rewrite filter_true; reflexivity|].
  intros r. unfold row_matches. apply forallb_forall. intros [i col] Hin.
  apply list_elem_of_In, elem_of_lookup_imap in Hin as (j & c & Heq & Hj).
  injection Heq as -> ->. unfold match_one. cbn.
  destruct (Vector.column_index c (Vector.columns test)) as [pos|] eqn:Hpos; [|reflexivity].
  exfalso. apply (Hnone c); [eapply list_elem_of_lookup_2, Hj|].
  apply column_index_elem_of. eauto.
Qed.

(** X24: [row_exists] leaves out the columns the dataframe does not
    have; a row that shares no column with the dataframe is therefore
    found exactly when the dataframe has one row, whatever it holds. *)
Theorem row_exists_no_shared_column picked test row :
  picks_ok picked (Vector._df test) -> one_row row ->
  (forall col, col ∈ Vector.columns row -> col ∉ Vector.columns (Vector._df test)) ->
  Vector.row_exists picked test row = Ok (Vector.len (Vector._df test) =? 1).
Proof.
  intros Hp Hrow Hnone. rewrite (row_exists_spec _ _ _ Hp Hrow).
  rewrite (count_matches_no_shared _ _ Hnone). f_equal. unfold Vector.len.
  destruct (Nat.eqb_spec (length (Vector.rows (Vector._df test))) 1),
           (Z.eqb_spec (Z.of_nat (length (Vector.rows (Vector._df test)))) 1);
    try reflexivity; lia.
Qed.

Lemma row_exists_no_shared_column_witness :
  Vector.row_exists [] (Entries.accessor Entries.unrelated)
    {| Vector.columns := ["a"%string]; Vector.rows := [[Vector.VInt 1610]];
       Vector.geometry_column := None |}
  = Ok (Vector.len Entries.unrelated =? 1).
Proof.
  apply (row_exists_no_shared_column [] (Entries.accessor Entries.unrelated)).
  - intros Hlt. vm_compute in Hlt. discriminate Hlt.
  - exists [Vector.VInt 1610]. split; reflexivity.
  - intros col Hcol Hin. apply list_elem_of_singleton in Hcol as ->.
    apply list_elem_of_singleton in Hin. discriminate Hin.
Defined.

(** ** A gray watermark on a colour raster *)

Lemma resizeCanvas_mode im margins :
  Raster.im_mode (Raster._resizeCanvas im margins) = Raster.im_mode im.
Proof. destruct margins as [[[mt mr] mb] ml]. reflexivity. Qed.

(** With [to_gray] the image [prepareWatermark] saves is in mode LA. *)
Lemma prepareWatermark_gray `{Raster.Pillow} {P : Type} (self : Raster.Watermark P)
    (wm : Raster.image) (opts : Raster.fit_options) (out : Raster.image) :
  Raster.to_gray opts = true ->
  Raster.prepareWatermark self wm opts = Ok out ->
  Raster.im_mode out = Raster.LA.
Proof.
  intros Hgray Hout. unfold Raster.prepareWatermark in Hout. rewrite Hgray in Hout.
  repeat match type of Hout with
         | Ok _ = Ok _ => injection Hout as <-
         | Raise _ = Ok _ => discriminate Hout
         | mbind _ ?x = Ok _ =>
             destruct x as [?|?]; cbn [mbind result_bind] in Hout
         | (let '(_, _) := ?p in _) = Ok _ => destruct p
         | (if ?b then _ else _) = Ok _ => destruct b
         | match ?x with _ => _ end = Ok _ => destruct x
         end;
    try (rewrite resizeCanvas_mode; reflexivity); reflexivity.
Qed.

(** The dataset of an image in mode LA has a gray band and an alpha
    band, and nothing else. *)
Lemma getBandInterpretation_LA (im : Raster.image) :
  Raster.im_mode im = Raster.LA ->
  Raster.getBandInterpretation (Raster.dataset_of_image im)
  = Ok (Raster.grayscale, [(Raster.Gray, 1); (Raster.Alpha, 2)]).
Proof.
  intros Hmode. unfold Raster.getBandInterpretation, Raster.dataset_of_image.
  rewrite Hmode. reflexivity.
Qed.

(** A loop one of whose rounds raises whatever the state does not
    return. *)
Lemma for_raises {A S : Type} (xs : list A) (body : A -> S -> result S) (x : A) :
  x ∈ xs -> (forall s, exists e, body x s = Raise e) ->
  forall s, exists e, for_ xs body s = Raise e.
Proof.
  intros Hin Hx. induction xs as [|y ys IH]; [inversion Hin|].
  intros s. cbn [for_]. apply elem_of_cons in Hin as [<-|Hin].
  - destruct (Hx s) as [e ->]. eauto.
  - destruct (body y s) as [s'|e]; [|eauto]. cbn [mbind result_bind]. apply IH, Hin.
Qed.

(** X25: with [to_gray], which is the default, the prepared watermark
    has a gray and an alpha band only, and the loop of [embed_image]
    looks up in it every colour of the raster: on a raster that has a
    band of another colour than gray and alpha, [embed_image] raises,
    whatever the watermark, its fit and its position. *)
Theorem embed_image_gray_watermark `{Raster.Pillow} {P : Type} `{Raster.Dtype P}
    (self : Raster.Watermark P) (watermark : Raster.image) (transparency : float)
    (opts : Raster.fit_options) (c : Raster.color) (no : Z) :
  Raster.to_gray opts = true ->
  (c, no) ∈ Raster.band_interpretation self ->
  c <> Raster.Gray -> c <> Raster.Alpha ->
  exists e, Raster.embed_image self watermark transparency opts = Raise e.
Proof.
  intros Hgray Hin Hg Ha. unfold Raster.embed_image, Raster.translateWM.
  destruct (Raster.prepareWatermark self watermark opts) as [prepared|e] eqn:Hprep;
    [|cbn; eauto].
  cbn [fmap result_fmap mbind result_bind].
  rewrite (getBandInterpretation_LA prepared (prepareWatermark_gray _ _ _ _ Hgray Hprep)).
  cbn [mbind result_bind].
  destruct (for_raises (Raster.band_interpretation self)
              (Raster.embed_band self (Raster.dataset_of_image prepared)
                 [(Raster.Gray, 1); (Raster.Alpha, 2)] transparency)
              (c, no) Hin) with (s := Raster.raster self) as [e ->]; [|cbn; eauto].
  intros s. unfold Raster.embed_band.
  destruct (Raster.GetRasterBand (Raster.raster self) no) as [b|e]; [|cbn; eauto].
  cbn [mbind result_bind].
  destruct (getitem (Raster.statistics b) 1) as [max_value|e]; [|cbn; eauto].
  cbn [mbind result_bind].
  exists KeyError. destruct c; try reflexivity; congruence.
Qed.

Lemma embed_image_gray_watermark_witness :
  exists e, Raster.embed_image (H:=Scenario.nearest_pillow) Scenario.self_1x1
              Scenario.watermark_1x1 1 (Scenario.options true) = Raise e.
Proof.
  apply (embed_image_gray_watermark (H:=Scenario.nearest_pillow) Scenario.self_1x1
           Scenario.watermark_1x1 1 (Scenario.options true) Raster.Red 1).
  - reflexivity.
  - left.
  - discriminate.
  - discriminate.
Defined.

(** ** The invisible message on a colour-mapped raster *)

(** The round trip of the specification: the message is embedded, and
    the file that was written is searched for it. *)
Definition round_trip {P} `{Raster.Codec P} (self : Raster.Watermark P) (message : string)
  : result (option string) :=
  out ← Raster.embed_message self message;
  Raster.detect_message self out.

(** The constructor keeps the number of colours of a colour-mapped
    raster. *)
Lemma Watermark_init_palette {P} (opened expanded : Raster.dataset P) d self :
  Raster.getBandInterpretation opened = Ok (Raster.mode_Palette, d) ->
  Raster.Watermark_init opened expanded None = Ok self ->
  exists n, Raster.paletteCount self = Some n.
Proof.
  intros Hmode Hinit. unfold Raster.Watermark_init in Hinit.
  rewrite Hmode in Hinit. cbn [mbind result_bind] in Hinit.
  destruct (Raster.dict_get d Raster.Palette) as [no|]; cbn [mbind result_bind] in Hinit;
    [|discriminate].
  destruct (Raster.GetRasterBand opened no) as [b|]; cbn [mbind result_bind] in Hinit;
    [|discriminate].
  destruct (Raster.color_count b) as [n|]; cbn [mbind result_bind] in Hinit;
    [|discriminate].
  destruct (Raster.getBandInterpretation expanded) as [[m' d']|];
    cbn [mbind result_bind] in Hinit; [|discriminate].
  injection Hinit as <-. exists n. reflexivity.
Qed.

(** A stand-in for the libraries, to run the code on an input: a
    transform that leaves the samples as they are, a code without a
    dark module, and a reader that finds nothing. *)
Module Plain.

Definition codec : Raster.Codec Z :=
  {| Raster.coefficients := list (list float);
     Raster.wavedec2 := fun a => Ok (fmap (M:=list) PyFloat.of_Z <$> a);
     Raster.HH3 := fun c => c;
     Raster.with_HH3 := fun _ hh => hh;
     Raster.waverec2 := fun c => Ok c;
     Raster.mean_abs := fun _ => 1%float;
     Raster.createQR := fun _ dim => Ok (Raster.falses dim);
     Raster.cast := fun f => PyFloat.to_Z (PyFloat.rint f);
     Raster.decode := fun _ => [];
     Raster.rgb_expand := fun ds => ds |}.

End Plain.

(** C9 on a colour-mapped raster.  The constructor records the number
    of colours of the palette, and [embed_message], after its loop over
    the bands, calls to apply the palette again a name that is bound
    nowhere: whatever the libraries compute and whatever the message,
    [embed_message] raises, with [NameError] when its loop has come to
    its end, and the round trip returns no message. *)
Theorem embed_message_palette {P : Type} `{Raster.Codec P}
    (opened expanded : Raster.dataset P) (d : Raster.band_dict)
    (self : Raster.Watermark P) (message : string) :
  Raster.getBandInterpretation opened = Ok (Raster.mode_Palette, d) ->
  Raster.Watermark_init opened expanded None = Ok self ->
  exists e,
    Raster.embed_message self message = Raise e
    /\ round_trip self message = Raise e
    /\ (forall bands st,
          Raster._get_color_bands_no self = Ok bands ->
          for_ bands (Raster.embed_message_band self message) (Raster.raster self, None)
          = Ok st ->
          e = NameError).
Proof.
  intros Hmode Hinit.
  destruct (Watermark_init_palette _ _ _ _ Hmode Hinit) as [n Hn].
  unfold round_trip, Raster.embed_message.
  destruct (Raster._get_color_bands_no self) as [bands|e] eqn:Hbands.
  - cbn [mbind result_bind].
    destruct (for_ bands _ _) as [[merged qr]|e] eqn:Hloop.
    + cbn [mbind result_bind]. rewrite Hn. exists NameError. auto.
    + exists e. cbn. repeat split. intros bands' st' Hb Hst.
      injection Hb as <-. rewrite Hloop in Hst. discriminate Hst.
  - exists e. cbn. repeat split. intros bands' st' Hb. discriminate Hb.
Qed.

Lemma embed_message_palette_witness :
  exists e,
    Raster.embed_message (H := Plain.codec) Paletted.self "m" = Raise e
    /\ round_trip (H := Plain.codec) Paletted.self "m" = Raise e.
Proof.
  destruct (embed_message_palette (H := Plain.codec) Paletted.opened Scenario.raster_1x1
              [(Raster.Palette, 1)] Paletted.self "m" eq_refl eq_refl)
    as (e & He & Hr & _).
  exists e. split; [exact He | exact Hr].
Defined.

(** On the colour-mapped raster of one sample the loop comes to its
    end and the call stops at the unbound name. *)
Example embed_message_paletted :
  Raster.embed_message (H := Plain.codec) Paletted.self "m" = Raise NameError.
Proof. vm_compute. reflexivity. Qed.
